(** * gcbmwalltowall: rollback age distributions, project conversion, merge

    A shallow embedding of
      - [gcbmwalltowall/component/rollback.py]
      - [gcbmwalltowall/converter/projectconverter.py]
      - [gcbmwalltowall/application/walltowall.py]
    Python values are an inductive type, dicts are insertion-ordered
    association lists, exceptions are a [result] type, and the calls into
    pandas, the file system and the spatial_inventory_rollback package are
    modelled by what the code relies on. *)

From Stdlib Require Import ZArith String Ascii.
From stdpp Require Import sorting gmap strings numbers option base list.

Open Scope Z_scope.

(** ** Python values and exceptions *)

Module Py.

(** The exceptions the modelled code can raise. *)
Inductive exn :=
  | KeyError (key : string)
  | ValueError (msg : string)
  | TypeError (msg : string)
  | OSError (msg : string)
  | SystemExit (code : Z)
  | External (who : string).

Inductive result (A : Type) :=
  | Ok (a : A)
  | Raise (e : exn).
Arguments Ok {A} a.
Arguments Raise {A} e.

Definition bind {A B} (r : result A) (k : A -> result B) : result B :=
  match r with
  | Ok a => k a
  | Raise e => Raise e
  end.

Definition is_ok {A} (r : result A) : bool :=
  match r with Ok _ => true | Raise _ => false end.

(** A cell of a DataFrame, a JSON scalar, a classifier value.  [PFloat m e]
    is the finite float [m * 2^e].  A NaN is a float object, and which
    object it is matters where CPython compares by identity first: [PNaN]
    is the one object [np.nan], which pandas puts in every blank cell of a
    column of objects (a column of strings, say) and in a missing pivot or
    join cell; [PNaNBoxed obj] is a NaN float object of its own, as the
    blank cell of a column of numbers becomes when a row is read, [obj]
    telling such objects apart. *)
Inductive pyval :=
  | PNone
  | PNaN
  | PNaNBoxed (obj : nat)
  | PStr (s : string)
  | PInt (z : Z)
  | PFloat (m e : Z).

#[global] Instance pyval_eq_dec : EqDecision pyval.
Proof. solve_decision. Defined.

(** [bool(v)]: None, the empty string and zero are false; NaN is true. *)
Definition truthy (v : pyval) : bool :=
  match v with
  | PNone => false
  | PNaN | PNaNBoxed _ => true
  | PStr s => negb (String.eqb s "")
  | PInt z => negb (z =? 0)
  | PFloat m _ => negb (m =? 0)
  end.

(** Equality of the numbers [m1 * 2^e1] and [m2 * 2^e2]. *)
Definition dyadic_eqb (m1 e1 m2 e2 : Z) : bool :=
  if e1 <=? e2 then m1 =? m2 * 2 ^ (e2 - e1) else m1 * 2 ^ (e1 - e2) =? m2.

(** [v1 == v2].  Numbers compare by value across int and float, and a NaN
    is equal to nothing, itself included. *)
Definition py_eq (v1 v2 : pyval) : bool :=
  match v1, v2 with
  | PNone, PNone => true
  | PStr s1, PStr s2 => String.eqb s1 s2
  | PInt z1, PInt z2 => z1 =? z2
  | PInt z1, PFloat m2 e2 => dyadic_eqb z1 0 m2 e2
  | PFloat m1 e1, PInt z2 => dyadic_eqb m1 e1 z2 0
  | PFloat m1 e1, PFloat m2 e2 => dyadic_eqb m1 e1 m2 e2
  | _, _ => false
  end.

(** [v1 is v2 or v1 == v2]: the test CPython makes between the members of
    two tuples it compares and between a key and the keys of a dict.  Two
    values that are the same object are the same value here; that makes a
    difference for NaN only, everything else being equal to itself. *)
Definition py_same (v1 v2 : pyval) : bool :=
  bool_decide (v1 = v2) || py_eq v1 v2.

(** [int(v)] for a cell: floats truncate toward zero, NaN and None raise.
    A character of a string stands for the code point of its number, so
    the strings are those of code points below 256.  For a string, [int]
    skips white space at both ends (tab, line feed, vertical tab, form
    feed, carriage return, space and the code points 133 and 160), reads
    an optional sign and then decimal digits,
    between any two of which one underscore may stand; as CPython does from
    version 3.11 on, it refuses more than 4300 digits. *)
Definition is_space (c : ascii) : bool :=
  let n := Z.of_nat (nat_of_ascii c) in
  ((9 <=? n) && (n <=? 13)) || (n =? 32) || (n =? 133) || (n =? 160).

Definition digit_of (c : ascii) : option Z :=
  let n := Z.of_nat (nat_of_ascii c) in
  if (48 <=? n) && (n <=? 57) then Some (n - 48) else None.

Fixpoint lstrip (s : string) : string :=
  match s with
  | EmptyString => EmptyString
  | String c s' => if is_space c then lstrip s' else s
  end.

Fixpoint all_space (s : string) : bool :=
  match s with
  | EmptyString => true
  | String c s' => is_space c && all_space s'
  end.

(** The digits at the start of [s]: their value after [acc], their number
    after [count], and the rest of the string.  [underscore] says that a
    digit has to come next: at the start and after an underscore. *)
Fixpoint int_digits (acc : Z) (count : nat) (underscore : bool) (s : string)
    : option (Z * nat * string) :=
  match s with
  | EmptyString => if underscore then None else Some (acc, count, EmptyString)
  | String c s' =>
      match digit_of c with
      | Some d => int_digits (10 * acc + d) (S count) false s'
      | None =>
          if underscore then None
          else if Ascii.eqb c "_" then int_digits acc count true s'
          else Some (acc, count, s)
      end
  end.

Definition int_of_str (s : string) : option Z :=
  let stripped := lstrip s in
  let '(sign, body) :=
    match stripped with
    | String "-"%char body => (-1, body)
    | String "+"%char body => (1, body)
    | _ => (1, stripped)
    end in
  match int_digits 0 0 true body with
  | Some (z, count, rest) =>
      if all_space rest && (count <=? 4300)%nat then Some (sign * z) else None
  | None => None
  end.

Definition py_int (v : pyval) : result Z :=
  match v with
  | PNone => Raise (TypeError "int() argument must be a string or a number")
  | PNaN | PNaNBoxed _ => Raise (ValueError "cannot convert float NaN to integer")
  | PStr s =>
      match int_of_str s with
      | Some z => Ok z
      | None => Raise (ValueError "invalid literal for int()")
      end
  | PInt z => Ok z
  | PFloat m e => Ok (if 0 <=? e then m * 2 ^ e else Z.quot m (2 ^ (- e)))
  end.

(** *** dict: an association list in insertion order *)

Abbreviation dict K V := (list (K * V)).

Section Dict.
Context {K V : Type} (eqb : K -> K -> bool).

(** [d[k] = v]: an existing entry keeps its place and its key object. *)
Fixpoint dict_set (k : K) (v : V) (d : dict K V) : dict K V :=
  match d with
  | [] => [(k, v)]
  | (k', v') :: d' =>
      if eqb k' k then (k', v) :: d' else (k', v') :: dict_set k v d'
  end.

Fixpoint dict_get (k : K) (d : dict K V) : option V :=
  match d with
  | [] => None
  | (k', v') :: d' => if eqb k' k then Some v' else dict_get k d'
  end.

(** [dict(pairs)]: later pairs overwrite earlier ones. *)
Definition dict_of (pairs : list (K * V)) : dict K V :=
  fold_left (fun d kv => dict_set kv.1 kv.2 d) pairs [].
End Dict.

(** *** sorted *)

Section Sorted.
Context {A : Type} (leb : A -> A -> bool).

Fixpoint sorted_insert (x : A) (l : list A) : list A :=
  match l with
  | [] => [x]
  | y :: l' => if leb x y then x :: l else y :: sorted_insert x l'
  end.

(** [sorted(l)]: a stable sort. *)
Definition sorted (l : list A) : list A := foldr sorted_insert [] l.
End Sorted.

(** *** Facts about dicts *)

Section DictFacts.
Context {K V : Type} (eqb : K -> K -> bool).

(** The position of the entry a key is found at. *)
Fixpoint dict_find (k : K) (d : dict K V) : option nat :=
  match d with
  | [] => None
  | (k', _) :: d' => if eqb k' k then Some O else S <$> dict_find k d'
  end.

Lemma dict_find_Some (k : K) (d : dict K V) (i : nat) :
  dict_find k d = Some i ->
  exists k' v, d !! i = Some (k', v) /\ eqb k' k = true /\
    forall j kj vj, (j < i)%nat -> d !! j = Some (kj, vj) -> eqb kj k = false.
Proof.
  revert i. induction d as [|[k' v'] d IH]; intros i; simpl; [done|].
  destruct (eqb k' k) eqn:E.
  - intros [= <-]. exists k', v'. split; [done|]. split; [done|]. intros; lia.
  - destruct (dict_find k d) as [i'|] eqn:Ef; [|done]. intros [= <-].
    destruct (IH i' eq_refl) as (k'' & v'' & Hl & Hk & Hbefore).
    exists k'', v''. split; [done|]. split; [done|].
    intros [|j] kj vj Hj; simpl.
    + by intros [= <- <-].
    + apply Hbefore. lia.
Qed.

Lemma dict_find_None (k : K) (d : dict K V) :
  dict_find k d = None -> forall k' v, (k', v) ∈ d -> eqb k' k = false.
Proof.
  induction d as [|[k' v'] d IH]; simpl.
  - intros _ ?? Hin. by apply elem_of_nil in Hin.
  - destruct (eqb k' k) eqn:E; [done|].
    destruct (dict_find k d); [done|]. intros _ k'' v'' [[= -> ->]|Hin]%elem_of_cons; [done|].
    by eapply IH.
Qed.

Lemma dict_get_Some (k : K) (v : V) (d : dict K V) :
  dict_get eqb k d = Some v -> exists k', (k', v) ∈ d /\ eqb k' k = true.
Proof.
  induction d as [|[k' v'] d IH]; simpl; [done|].
  destruct (eqb k' k) eqn:E.
  - intros [= ->]. exists k'. split; [left|done].
  - intros (k'' & Hin & Hk)%IH. exists k''. split; [by right|done].
Qed.

Lemma dict_get_find (k : K) (d : dict K V) :
  dict_get eqb k d = i ← dict_find k d; snd <$> d !! i.
Proof.
  induction d as [|[k' v'] d IH]; simpl; [done|].
  destruct (eqb k' k); [done|]. rewrite IH. by destruct (dict_find k d).
Qed.

Lemma dict_set_find (k : K) (v : V) (d : dict K V) :
  dict_set eqb k v d =
  match dict_find k d with
  | Some i => alter (fun kv => (kv.1, v)) i d
  | None => d ++ [(k, v)]
  end.
Proof.
  induction d as [|[k' v'] d IH]; simpl; [done|].
  destruct (eqb k' k); [done|]. rewrite IH. by destruct (dict_find k d).
Qed.

Lemma dict_find_lt (k : K) (d : dict K V) (i : nat) :
  dict_find k d = Some i -> (i < length d)%nat.
Proof.
  intros (k' & v & Hl & _)%dict_find_Some. by apply lookup_lt_Some in Hl.
Qed.

Lemma dict_find_same_keys (k : K) (d d' : dict K V) :
  d.*1 = d'.*1 -> dict_find k d = dict_find k d'.
Proof.
  revert d'. induction d as [|[k1 v1] d IH]; intros [|[k2 v2] d']; try done.
  rewrite !fmap_cons. simpl. intros [= -> Hd]. by rewrite (IH d' Hd).
Qed.

Lemma dict_find_app (k : K) (d d' : dict K V) :
  dict_find k (d ++ d') =
  match dict_find k d with
  | Some i => Some i
  | None => (fun i => (length d + i)%nat) <$> dict_find k d'
  end.
Proof.
  induction d as [|[k1 v1] d IH]; simpl.
  - by destruct (dict_find k d').
  - destruct (eqb k1 k); [done|]. rewrite IH.
    destruct (dict_find k d); [done|]. by destruct (dict_find k d').
Qed.

Lemma dict_set_length (k : K) (v : V) (d : dict K V) :
  length (dict_set eqb k v d) =
  match dict_find k d with Some _ => length d | None => S (length d) end.
Proof.
  rewrite dict_set_find. destruct (dict_find k d).
  - by rewrite length_alter.
  - rewrite length_app. simpl. lia.
Qed.

(** The keys of a dict after an assignment. *)
Lemma dict_set_keys (k : K) (v : V) (d : dict K V) :
  (dict_set eqb k v d).*1 =
  match dict_find k d with Some _ => d.*1 | None => d.*1 ++ [k] end.
Proof.
  induction d as [|[k' v'] d IH]; [done|]. cbn [dict_set dict_find].
  destruct (eqb k' k); [done|]. rewrite fmap_cons, IH.
  by destruct (dict_find k d).
Qed.

End DictFacts.

(** Two keys that every stored key treats alike are found alike. *)
Lemma dict_find_ext {K V : Type} (eqb : K -> K -> bool) (k1 k2 : K) (d : dict K V) :
  (forall k, k ∈ d.*1 -> eqb k k1 = eqb k k2) -> dict_find eqb k1 d = dict_find eqb k2 d.
Proof.
  induction d as [|[k v] d IH]; [done|]. rewrite fmap_cons. simpl. intros H.
  rewrite (H k) by left. rewrite IH; [done|]. intros k' Hk'. apply H. by right.
Qed.

(** Dicts whose keys are compared by a test that decides equality. *)
Section DictLeibniz.
Context {K V : Type} (eqb : K -> K -> bool).
Hypothesis eqb_eq : forall x y, eqb x y = true <-> x = y.

Lemma dict_get_None (k : K) (d : dict K V) : dict_get eqb k d = None <-> k ∉ d.*1.
Proof.
  induction d as [|[k' v'] d IH]; simpl.
  - split; [intros _ H; by apply elem_of_nil in H|done].
  - destruct (eqb k' k) eqn:E.
    + apply eqb_eq in E as ->. split; [done|]. intros H. exfalso. apply H. left.
    + rewrite IH. rewrite not_elem_of_cons. split; [|tauto].
      intros H. split; [|done]. intros ->.
      assert (eqb k' k' = true) by by apply eqb_eq. congruence.
Qed.

Lemma dict_set_NoDup (k : K) (v : V) (d : dict K V) :
  NoDup d.*1 -> NoDup (dict_set eqb k v d).*1.
Proof.
  intros Hd. rewrite dict_set_keys. destruct (dict_find eqb k d) eqn:E; [done|].
  apply NoDup_app. split; [done|]. split; [|apply NoDup_singleton].
  intros x Hx ->%list_elem_of_singleton.
  apply list_elem_of_fmap in Hx as ([k' v'] & -> & Hin).
  pose proof (dict_find_None eqb _ _ E _ _ Hin) as Hne. simpl in Hne.
  assert (eqb k' k' = true) by by apply eqb_eq. congruence.
Qed.

Lemma dict_get_set_eq (k : K) (v : V) (d : dict K V) :
  dict_get eqb k (dict_set eqb k v d) = Some v.
Proof.
  induction d as [|[k' v'] d IH]; simpl.
  - assert (eqb k k = true) as -> by by apply eqb_eq. done.
  - destruct (eqb k' k) eqn:E; simpl; rewrite E; done.
Qed.

Lemma dict_get_set_ne (k k0 : K) (v : V) (d : dict K V) :
  k <> k0 -> dict_get eqb k0 (dict_set eqb k v d) = dict_get eqb k0 d.
Proof.
  intros Hne. induction d as [|[k' v'] d IH]; simpl.
  - destruct (eqb k k0) eqn:E; [|done]. by apply eqb_eq in E.
  - destruct (eqb k' k) eqn:E; simpl.
    + apply eqb_eq in E as ->. destruct (eqb k k0) eqn:E'; [|done]. by apply eqb_eq in E'.
    + by rewrite IH.
Qed.

Lemma dict_of_NoDup (pairs : list (K * V)) : NoDup (dict_of eqb pairs).*1.
Proof.
  unfold dict_of. generalize (NoDup_nil_2 (A := K)).
  change (@nil K) with ((@nil (K * V)).*1). generalize (@nil (K * V)).
  induction pairs as [|[k v] pairs IH]; intros d Hd; simpl; [done|].
  apply IH. by apply dict_set_NoDup.
Qed.

Lemma dict_of_keys (pairs : list (K * V)) (k : K) :
  k ∈ (dict_of eqb pairs).*1 <-> k ∈ pairs.*1.
Proof.
  unfold dict_of.
  assert (forall d, k ∈ (fold_left (fun d kv => dict_set eqb kv.1 kv.2 d) pairs d).*1
                    <-> k ∈ d.*1 \/ k ∈ pairs.*1) as H.
  { induction pairs as [|[k' v'] pairs IH]; intros d; simpl.
    - rewrite elem_of_nil. tauto.
    - rewrite IH, dict_set_keys, elem_of_cons. simpl.
      destruct (dict_find eqb k' d) as [i|] eqn:E.
      + apply dict_find_Some in E as (k'' & v'' & Hl & ->%eqb_eq & _).
        assert (k' ∈ d.*1).
        { apply list_elem_of_fmap. exists (k', v''). split; [done|].
          by eapply list_elem_of_lookup_2. }
        split; [tauto|]. intros [?|[->|?]]; tauto.
      + rewrite elem_of_app, list_elem_of_singleton. tauto. }
  rewrite H. simpl. rewrite elem_of_nil. tauto.
Qed.

End DictLeibniz.

(** *** Facts about [sorted] *)

Section SortedFacts.
Context {A : Type} (leb : A -> A -> bool).

Lemma sorted_insert_perm (x : A) (l : list A) : sorted_insert leb x l ≡ₚ x :: l.
Proof.
  induction l as [|y l IH]; simpl; [done|].
  destruct (leb x y); [done|]. rewrite IH. apply Permutation_swap.
Qed.

Lemma sorted_perm (l : list A) : sorted leb l ≡ₚ l.
Proof.
  induction l as [|x l IH]; simpl; [done|].
  rewrite sorted_insert_perm. by rewrite IH.
Qed.

Hypothesis leb_total : forall x y, leb x y = true \/ leb y x = true.
Hypothesis leb_trans : forall x y z, leb x y = true -> leb y z = true -> leb x z = true.

Lemma sorted_insert_StronglySorted (x : A) (l : list A) :
  StronglySorted (fun a b => leb a b = true) l ->
  StronglySorted (fun a b => leb a b = true) (sorted_insert leb x l).
Proof.
  induction 1 as [|y l Hl IH Hy]; simpl.
  - repeat constructor.
  - destruct (leb x y) eqn:E.
    + constructor; [by constructor|]. constructor; [done|].
      eapply Forall_impl; [exact Hy|]. intros z Hz. simpl in Hz. by eapply leb_trans.
    + constructor; [done|].
      rewrite sorted_insert_perm. constructor; [|done].
      destruct (leb_total x y); [congruence|done].
Qed.

Lemma sorted_StronglySorted (l : list A) :
  StronglySorted (fun a b => leb a b = true) (sorted leb l).
Proof.
  induction l as [|x l IH]; simpl; [constructor|].
  by apply sorted_insert_StronglySorted.
Qed.

End SortedFacts.

(** *** The order on strings *)

Lemma ascii_compare_trans (a b c : ascii) (o : comparison) :
  Ascii.compare a b = o -> Ascii.compare b c = o -> Ascii.compare a c = o.
Proof.
  unfold Ascii.compare. destruct o.
  - rewrite !N.compare_eq_iff. congruence.
  - rewrite !N.compare_lt_iff. lia.
  - rewrite !N.compare_gt_iff. lia.
Qed.

Lemma string_compare_lt_trans (s1 s2 s3 : string) :
  String.compare s1 s2 = Lt -> String.compare s2 s3 = Lt -> String.compare s1 s3 = Lt.
Proof.
  revert s2 s3. induction s1 as [|a s1 IH]; intros [|b s2] [|c s3]; simpl; try done.
  destruct (Ascii.compare a b) eqn:E1; [| |done].
  - apply Ascii.compare_eq_iff in E1 as ->.
    destruct (Ascii.compare b c) eqn:E2; [|done..]. apply IH.
  - destruct (Ascii.compare b c) eqn:E2; [| |done].
    + apply Ascii.compare_eq_iff in E2 as ->. by rewrite E1.
    + by rewrite (ascii_compare_trans _ _ _ _ E1 E2).
Qed.

Lemma string_leb_trans (s1 s2 s3 : string) :
  String.leb s1 s2 = true -> String.leb s2 s3 = true -> String.leb s1 s3 = true.
Proof.
  unfold String.leb.
  destruct (String.compare s1 s2) eqn:E1; [| |done].
  - apply String.compare_eq_iff in E1 as ->. done.
  - destruct (String.compare s2 s3) eqn:E2; [| |done].
    + apply String.compare_eq_iff in E2 as ->. by rewrite E1.
    + by rewrite (string_compare_lt_trans _ _ _ E1 E2).
Qed.

Lemma string_eqb_eq (s1 s2 : string) : String.eqb s1 s2 = true <-> s1 = s2.
Proof. apply String.eqb_eq. Qed.

(** *** Facts about [==] *)

Lemma dyadic_eqb_spec (m1 e1 m2 e2 k : Z) :
  k <= e1 -> k <= e2 ->
  dyadic_eqb m1 e1 m2 e2 = true <-> m1 * 2 ^ (e1 - k) = m2 * 2 ^ (e2 - k).
Proof.
  intros H1 H2. unfold dyadic_eqb.
  assert (0 < 2 ^ (e1 - k)) by (apply Z.pow_pos_nonneg; lia).
  assert (0 < 2 ^ (e2 - k)) by (apply Z.pow_pos_nonneg; lia).
  destruct (Z.leb_spec e1 e2).
  - rewrite Z.eqb_eq.
    replace (e2 - k) with ((e2 - e1) + (e1 - k)) by lia.
    rewrite Z.pow_add_r by lia. split; [intros ->; ring|]. intros Heq.
    apply (Z.mul_cancel_r _ _ (2 ^ (e1 - k))); [lia|]. rewrite Heq. ring.
  - rewrite Z.eqb_eq.
    replace (e1 - k) with ((e1 - e2) + (e2 - k)) by lia.
    rewrite Z.pow_add_r by lia. split; [intros <-; ring|]. intros Heq.
    apply (Z.mul_cancel_r _ _ (2 ^ (e2 - k))); [lia|]. rewrite <- Heq. ring.
Qed.

Lemma dyadic_eqb_sym (m1 e1 m2 e2 : Z) :
  dyadic_eqb m1 e1 m2 e2 = true -> dyadic_eqb m2 e2 m1 e1 = true.
Proof.
  rewrite (dyadic_eqb_spec m1 e1 m2 e2 (Z.min e1 e2)) by lia.
  rewrite (dyadic_eqb_spec m2 e2 m1 e1 (Z.min e1 e2)) by lia. done.
Qed.

Lemma dyadic_eqb_trans (m1 e1 m2 e2 m3 e3 : Z) :
  dyadic_eqb m1 e1 m2 e2 = true -> dyadic_eqb m2 e2 m3 e3 = true ->
  dyadic_eqb m1 e1 m3 e3 = true.
Proof.
  set (k := Z.min e1 (Z.min e2 e3)).
  rewrite (dyadic_eqb_spec m1 e1 m2 e2 k) by lia.
  rewrite (dyadic_eqb_spec m2 e2 m3 e3 k) by lia.
  rewrite (dyadic_eqb_spec m1 e1 m3 e3 k) by lia. congruence.
Qed.

(** The number a value stands for, as mantissa and binary exponent. *)
Definition dyadic_of (v : pyval) : option (Z * Z) :=
  match v with
  | PInt z => Some (z, 0)
  | PFloat m e => Some (m, e)
  | _ => None
  end.

Lemma py_eq_cases (v1 v2 : pyval) :
  py_eq v1 v2 =
  match dyadic_of v1, dyadic_of v2 with
  | Some (m1, e1), Some (m2, e2) => dyadic_eqb m1 e1 m2 e2
  | None, None =>
      match v1, v2 with
      | PNone, PNone => true
      | PStr s1, PStr s2 => String.eqb s1 s2
      | _, _ => false
      end
  | _, _ => false
  end.
Proof.
  destruct v1, v2; simpl; try done.
  unfold dyadic_eqb. simpl. by rewrite Z.mul_1_r.
Qed.

Lemma py_eq_sym (v1 v2 : pyval) : py_eq v1 v2 = true -> py_eq v2 v1 = true.
Proof.
  rewrite !py_eq_cases.
  destruct (dyadic_of v1) as [[m1 e1]|] eqn:E1, (dyadic_of v2) as [[m2 e2]|] eqn:E2;
    try done.
  - apply dyadic_eqb_sym.
  - destruct v1, v2; try done. rewrite !String.eqb_eq. congruence.
Qed.

Lemma py_eq_trans (v1 v2 v3 : pyval) :
  py_eq v1 v2 = true -> py_eq v2 v3 = true -> py_eq v1 v3 = true.
Proof.
  rewrite !py_eq_cases.
  destruct (dyadic_of v1) as [[m1 e1]|] eqn:E1, (dyadic_of v2) as [[m2 e2]|] eqn:E2,
    (dyadic_of v3) as [[m3 e3]|] eqn:E3; try done.
  - apply dyadic_eqb_trans.
  - destruct v1, v2, v3; try done. rewrite !String.eqb_eq. congruence.
Qed.

(** Two values equal to each other are equal to the same values. *)
Lemma py_eq_compat (v v1 v2 : pyval) :
  py_eq v1 v2 = true -> py_eq v v1 = py_eq v v2.
Proof.
  intros H12. destruct (py_eq v v1) eqn:E1.
  - symmetry. by eapply py_eq_trans.
  - destruct (py_eq v v2) eqn:E2; [|done].
    rewrite <- E1. eapply py_eq_trans; [exact E2|]. by apply py_eq_sym.
Qed.

(** *** Facts about the identity-first test *)

Lemma py_same_cases (v1 v2 : pyval) :
  py_same v1 v2 = true <-> v1 = v2 \/ py_eq v1 v2 = true.
Proof.
  unfold py_same. rewrite orb_true_iff, bool_decide_eq_true. done.
Qed.

Lemma py_same_refl (v : pyval) : py_same v v = true.
Proof. apply py_same_cases. by left. Qed.

Lemma py_same_sym (v1 v2 : pyval) : py_same v1 v2 = true -> py_same v2 v1 = true.
Proof.
  rewrite !py_same_cases. intros [->|H]; [by left|right; by apply py_eq_sym].
Qed.

Lemma py_same_trans (v1 v2 v3 : pyval) :
  py_same v1 v2 = true -> py_same v2 v3 = true -> py_same v1 v3 = true.
Proof.
  rewrite !py_same_cases. intros [->|H12] [->|H23]; try tauto.
  right. by eapply py_eq_trans.
Qed.

(** Two values that are the same are the same as the same values. *)
Lemma py_same_compat (v v1 v2 : pyval) :
  py_same v1 v2 = true -> py_same v v1 = py_same v v2.
Proof.
  intros H12. destruct (py_same v v1) eqn:E1.
  - symmetry. by eapply py_same_trans.
  - destruct (py_same v v2) eqn:E2; [|done].
    rewrite <- E1. eapply py_same_trans; [exact E2|]. by apply py_same_sym.
Qed.

(** A hash is a function of the object, so the contract for [==] covers
    the identity-first test. *)
Lemma py_same_hash (py_hash : pyval -> Z) (v1 v2 : pyval) :
  (forall v1 v2, py_eq v1 v2 = true -> py_hash v1 = py_hash v2) ->
  py_same v1 v2 = true -> py_hash v1 = py_hash v2.
Proof. intros Hhash [->|H]%py_same_cases; [done|by apply Hhash]. Qed.

(** A string without a digit is no integer. *)
Fixpoint no_digit (s : string) : bool :=
  match s with
  | EmptyString => true
  | String c s' => match digit_of c with Some _ => false | None => no_digit s' end
  end.

Lemma lstrip_no_digit (s : string) : no_digit s = true -> no_digit (lstrip s) = true.
Proof.
  induction s as [|c s IH]; [done|]. simpl.
  destruct (digit_of c) eqn:E; [done|]. intros H.
  destruct (is_space c); [by apply IH|]. simpl. by rewrite E.
Qed.

Lemma int_digits_no_digit (s : string) :
  no_digit s = true -> int_digits 0 0 true s = None.
Proof. destruct s as [|c s]; [done|]. simpl. by destruct (digit_of c). Qed.

Lemma int_of_str_no_digit (s : string) : no_digit s = true -> int_of_str s = None.
Proof.
  intros H%lstrip_no_digit. unfold int_of_str.
  destruct (lstrip s) as [|c body] eqn:E; [done|].
  assert (no_digit body = true) as Hbody.
  { simpl in H. by destruct (digit_of c). }
  assert (int_digits 0 0 true (String c body) = None) as Hall
    by by apply int_digits_no_digit.
  destruct (Ascii.eqb c "-") eqn:E1; [apply Ascii.eqb_eq in E1 as ->|].
  { by rewrite (int_digits_no_digit body Hbody). }
  destruct (Ascii.eqb c "+") eqn:E2; [apply Ascii.eqb_eq in E2 as ->|].
  { by rewrite (int_digits_no_digit body Hbody). }
  assert (match String c body with
          | String "-"%char body' => (-1, body')
          | String "+"%char body' => (1, body')
          | _ => (1, String c body)
          end = (1, String c body)) as ->.
  { destruct c as [[] [] [] [] [] [] [] []]; try done. }
  by rewrite Hall.
Qed.

(** [int] reads the spellings of an integer that Python allows. *)
Example int_of_str_spellings :
  int_of_str " 12 " = Some 12 /\ int_of_str "1_000" = Some 1000 /\
  int_of_str "+5" = Some 5 /\ int_of_str "-07" = Some (-7) /\
  int_of_str "1__0" = None /\ int_of_str "_1" = None /\ int_of_str "1_" = None /\
  int_of_str "- 5" = None /\ int_of_str "12.0" = None /\ int_of_str "" = None.
Proof. repeat split. Qed.

(** *** Runs of assignments to a dict *)

Section DictAssign.
Context {K V : Type} (eqb : K -> K -> bool).
Hypothesis eqb_eq : forall x y, eqb x y = true <-> x = y.

#[local] Abbreviation assign :=
  (fold_left (fun (d : dict K V) (kv : K * V) => dict_set eqb kv.1 kv.2 d)).

Lemma eqb_refl_of (k : K) : eqb k k = true.
Proof. by apply eqb_eq. Qed.

Lemma dict_find_notin (k : K) (d : dict K V) : k ∉ d.*1 -> dict_find eqb k d = None.
Proof.
  induction d as [|[k' v'] d IH]; [done|]. rewrite fmap_cons, not_elem_of_cons. simpl.
  intros [Hne Hnot]. destruct (eqb k' k) eqn:E.
  - by apply eqb_eq in E.
  - by rewrite IH.
Qed.

(** In a dict the entry of a key is the pair that holds it. *)
Lemma dict_get_elem (k : K) (v : V) (d : dict K V) :
  NoDup d.*1 -> dict_get eqb k d = Some v <-> (k, v) ∈ d.
Proof.
  induction d as [|[k' v'] d IH]; simpl.
  - intros _. split; [done|]. by intros ?%elem_of_nil.
  - rewrite NoDup_cons. intros [Hnot Hnd]. destruct (eqb k' k) eqn:E.
    + apply eqb_eq in E as ->. split.
      * intros [= ->]. left.
      * intros [[= ->]|Hin]%elem_of_cons; [done|]. exfalso. apply Hnot.
        apply list_elem_of_fmap. by exists (k, v).
    + rewrite IH by done. rewrite elem_of_cons. split; [by right|].
      intros [[= -> ->]|?]; [|done]. rewrite eqb_refl_of in E. done.
Qed.

(** An assignment changes or adds the pair of its key and nothing else. *)
Lemma dict_set_elem (k k' : K) (v v' : V) (d : dict K V) :
  (k, v) ∈ dict_set eqb k' v' d -> (k, v) ∈ d \/ (k, v) = (k', v').
Proof.
  induction d as [|[k0 v0] d IH]; simpl.
  - intros ->%list_elem_of_singleton. by right.
  - destruct (eqb k0 k') eqn:E.
    + apply eqb_eq in E as ->.
      intros [->|Hin]%elem_of_cons; [by right|]. left. by right.
    + intros [->|Hin]%elem_of_cons; [left; left|].
      destruct (IH Hin) as [?|?]; [left; by right|by right].
Qed.

Lemma assign_elem (pairs : list (K * V)) (d : dict K V) (k : K) (v : V) :
  (k, v) ∈ assign pairs d -> (k, v) ∈ d \/ (k, v) ∈ pairs.
Proof.
  revert d. induction pairs as [|[k' v'] pairs IH]; intros d; simpl; [by left|].
  intros [Hin|Hin]%IH; [|right; by right].
  apply dict_set_elem in Hin as [Hin | ->]; [by left|right; left].
Qed.

Lemma assign_snoc (pairs : list (K * V)) (k' : K) (v' : V) (d : dict K V) (k : K) :
  dict_get eqb k (assign (pairs ++ [(k', v')]) d) =
  if eqb k' k then Some v' else dict_get eqb k (assign pairs d).
Proof.
  rewrite fold_left_app. simpl. destruct (eqb k' k) eqn:E.
  - apply eqb_eq in E as ->. by apply dict_get_set_eq.
  - apply dict_get_set_ne; [done|]. intros ->. rewrite eqb_refl_of in E. done.
Qed.

(** A key that is not assigned keeps its entry. *)
Lemma assign_notin (pairs : list (K * V)) (d : dict K V) (k : K) :
  k ∉ pairs.*1 -> dict_get eqb k (assign pairs d) = dict_get eqb k d.
Proof.
  induction pairs as [|[k' v'] pairs IH] using rev_ind; [done|].
  rewrite fmap_app, not_elem_of_app. simpl. rewrite list_elem_of_singleton.
  intros [Hnot Hne]. rewrite assign_snoc. destruct (eqb k' k) eqn:E.
  - by apply eqb_eq in E.
  - by apply IH.
Qed.

(** A key assigned once holds what it was assigned. *)
Lemma assign_in (pairs : list (K * V)) (d : dict K V) (k : K) (v : V) :
  NoDup pairs.*1 -> (k, v) ∈ pairs -> dict_get eqb k (assign pairs d) = Some v.
Proof.
  induction pairs as [|[k' v'] pairs IH] using rev_ind; [by intros _ ?%elem_of_nil|].
  rewrite fmap_app, NoDup_app, elem_of_app, list_elem_of_singleton. simpl.
  intros (Hnd & Hdisj & _) Hin. rewrite assign_snoc. destruct (eqb k' k) eqn:E.
  - apply eqb_eq in E as ->. destruct Hin as [Hin|[= ->]]; [|done].
    exfalso. apply (Hdisj k); [|left]. apply list_elem_of_fmap. by exists (k, v).
  - destruct Hin as [Hin|[= -> ->]]; [by apply IH|]. rewrite eqb_refl_of in E. done.
Qed.

Lemma assign_keys (pairs : list (K * V)) (d : dict K V) (k : K) :
  k ∈ (assign pairs d).*1 <-> k ∈ d.*1 \/ k ∈ pairs.*1.
Proof.
  revert d. induction pairs as [|[k' v'] pairs IH]; intros d; simpl.
  - rewrite elem_of_nil. tauto.
  - rewrite IH, dict_set_keys, elem_of_cons. simpl.
    destruct (dict_find eqb k' d) as [i|] eqn:E.
    + apply dict_find_Some in E as (k'' & v'' & Hl & ->%eqb_eq & _).
      assert (k' ∈ d.*1).
      { apply list_elem_of_fmap. exists (k', v''). split; [done|].
        by eapply list_elem_of_lookup_2. }
      split; [tauto|]. intros [?|[->|?]]; tauto.
    + rewrite elem_of_app, list_elem_of_singleton. tauto.
Qed.

(** Pairs with distinct keys make the dict that lists them. *)
Lemma assign_NoDup (pairs : list (K * V)) (d : dict K V) :
  NoDup (d.*1 ++ pairs.*1) -> assign pairs d = d ++ pairs.
Proof.
  revert d. induction pairs as [|[k v] pairs IH]; intros d Hnd; simpl.
  - by rewrite app_nil_r.
  - rewrite fmap_cons in Hnd. simpl in Hnd.
    assert (dict_set eqb k v d = d ++ [(k, v)]) as ->.
    { rewrite dict_set_find, dict_find_notin; [done|].
      apply NoDup_app in Hnd as (_ & Hdisj & _). intros Hin. apply (Hdisj k Hin). left. }
    rewrite IH.
    + by rewrite <- app_assoc.
    + rewrite fmap_app. simpl. by rewrite <- app_assoc.
Qed.

Lemma dict_of_NoDup_id (pairs : list (K * V)) : NoDup pairs.*1 -> dict_of eqb pairs = pairs.
Proof. intros Hnd. unfold dict_of. by rewrite assign_NoDup. Qed.

(** With one value per key, [dict(pairs)] holds the pairs it was given. *)
Lemma dict_of_elem (pairs : list (K * V)) (k : K) (v : V) :
  (forall v1 v2, (k, v1) ∈ pairs -> (k, v2) ∈ pairs -> v1 = v2) ->
  (k, v) ∈ dict_of eqb pairs <-> (k, v) ∈ pairs.
Proof.
  intros Hfun. rewrite <- dict_get_elem by by apply dict_of_NoDup.
  unfold dict_of. induction pairs as [|[k' v'] pairs IH] using rev_ind.
  - simpl. split; [done|]. by intros ?%elem_of_nil.
  - rewrite assign_snoc, elem_of_app, list_elem_of_singleton. destruct (eqb k' k) eqn:E.
    + apply eqb_eq in E as ->. split.
      * intros [= ->]. by right.
      * intros Hin. f_equal. apply Hfun.
        -- apply elem_of_app. right. left.
        -- apply elem_of_app. destruct Hin as [?|[= ->]]; [by left|right; left].
    + rewrite IH.
      * split; [by left|]. intros [?|[= -> ->]]; [done|]. rewrite eqb_refl_of in E. done.
      * intros v1 v2 H1 H2. apply Hfun; apply elem_of_app; by left.
Qed.

End DictAssign.

End Py.
Export Py.

(** ** A file system *)

Module Fs.

(** A path, as the list of its components. *)
Abbreviation Path := (list string).

Inductive node (D : Type) :=
  | Dir
  | File (data : D).
Arguments Dir {D}.
Arguments File {D} data.

Section FileSystem.
Context {D : Type}.

#[local] Abbreviation fs := (gmap Path (node D)).

(** The root always exists. *)
Definition is_dir (s : fs) (p : Path) : bool :=
  match p with
  | [] => true
  | _ => match s !! p with Some Dir => true | _ => false end
  end.

Definition is_file (s : fs) (p : Path) : bool :=
  match s !! p with Some (File _) => true | _ => false end.

Definition parent (p : Path) : Path := removelast p.

(** [shutil.rmtree(root, ignore_errors=True)]: a directory goes with
    everything below it.  A missing [root] is no error, and neither is a
    [root] that is a regular file: the error is swallowed and the file
    stays where it is. *)
Definition rmtree (root : Path) (s : fs) : fs :=
  if is_file s root then s
  else filter (fun kv => ~ root `prefix_of` kv.1) s.

(** The paths from the first component down to [p] itself. *)
Definition ancestors_and_self (p : Path) : list Path :=
  (fun n => take n p) <$> seq 1 (length p).

(** [Path.mkdir(parents=True, exist_ok=True)] *)
Definition mkdir_parents (p : Path) (s : fs) : result fs :=
  if bool_decide (Exists (fun q => is_file s q = true) (ancestors_and_self p)) then
    Raise (OSError "a file is in the way")
  else
    Ok (foldr (fun q acc => <[q := Dir]> acc) s (ancestors_and_self p)).

(** Writing a whole file, as [open(p, "w")] followed by the writes and
    [to_csv(p)] do: the parent must be a directory and [p] must not be
    one. *)
Definition write_file (p : Path) (data : D) (s : fs) : result fs :=
  if negb (is_dir s (parent p)) then Raise (OSError "no such directory")
  else if is_dir s p then Raise (OSError "is a directory")
  else Ok (<[p := File data]> s).

Definition read_file (p : Path) (s : fs) : result D :=
  match s !! p with
  | Some (File data) => Ok data
  | _ => Raise (OSError "no such file")
  end.

(** *** Facts about [rmtree] and [mkdir_parents] *)

Lemma rmtree_lookup (root p : Path) (s : fs) :
  rmtree root s !! p =
  if is_file s root then s !! p
  else if decide (root `prefix_of` p) then None else s !! p.
Proof.
  unfold rmtree. destruct (is_file s root); [done|].
  destruct (decide (root `prefix_of` p)) as [Hp|Hp].
  - apply map_lookup_filter_None. right. intros x _ Hnot. simpl in Hnot. done.
  - destruct (s !! p) as [x|] eqn:E.
    + by apply map_lookup_filter_Some.
    + apply map_lookup_filter_None. by left.
Qed.

(** A regular file at the root is left alone. *)
Lemma rmtree_file (root : Path) (s : fs) : is_file s root = true -> rmtree root s = s.
Proof. unfold rmtree. by intros ->. Qed.

(** Otherwise nothing at or below the root is left. *)
Lemma rmtree_below (root p : Path) (s : fs) :
  is_file s root = false -> root `prefix_of` p -> rmtree root s !! p = None.
Proof. intros Hfile Hp. rewrite rmtree_lookup, Hfile. by destruct (decide _). Qed.

(** What is not below the root stays. *)
Lemma rmtree_outside (root p : Path) (s : fs) :
  ~ root `prefix_of` p -> rmtree root s !! p = s !! p.
Proof.
  intros Hp. rewrite rmtree_lookup. destruct (is_file s root); [done|].
  by destruct (decide _).
Qed.

Lemma rmtree_is_file (root : Path) (s : fs) :
  is_file (rmtree root s) root = is_file s root.
Proof.
  destruct (is_file s root) eqn:E; [by rewrite rmtree_file|].
  unfold is_file. by rewrite rmtree_below.
Qed.

Lemma rmtree_idemp (root : Path) (s : fs) : rmtree root (rmtree root s) = rmtree root s.
Proof.
  apply map_eq. intros p. rewrite (rmtree_lookup root p (rmtree root s)), rmtree_is_file.
  destruct (is_file s root) eqn:E; [done|]. rewrite rmtree_lookup, E.
  by destruct (decide _).
Qed.


Lemma ancestors_and_self_prefix (p q : Path) :
  q ∈ ancestors_and_self p -> q `prefix_of` p.
Proof.
  unfold ancestors_and_self. intros (n & -> & _)%list_elem_of_fmap. apply prefix_take.
Qed.

Lemma insert_dirs_lookup (qs : list Path) (p : Path) (s : fs) :
  p ∉ qs -> foldr (fun q acc => <[q := Dir]> acc) s qs !! p = s !! p.
Proof.
  induction qs as [|q qs IH]; [done|]. rewrite not_elem_of_cons. intros [Hne Hnot].
  simpl. rewrite lookup_insert_ne by done. by apply IH.
Qed.

(** [mkdir_parents] leaves everything strictly below the new directory as
    it was. *)
Lemma mkdir_parents_below (root p : Path) (s s' : fs) :
  mkdir_parents root s = Ok s' ->
  root `prefix_of` p -> p <> root -> s' !! p = s !! p.
Proof.
  unfold mkdir_parents. case_bool_decide; [done|]. intros [= <-] Hp Hne.
  apply insert_dirs_lookup. intros Hin%ancestors_and_self_prefix.
  apply Hne. by apply (anti_symm prefix).
Qed.


End FileSystem.

(** *** The directory [mkdir_parents] makes *)

Section Directories.
Context {D : Type}.

#[local] Abbreviation fs := (gmap Path (node D)).

Lemma insert_dirs_lookup_in (qs : list Path) (p : Path) (s : fs) :
  p ∈ qs -> foldr (fun q acc => <[q := Dir]> acc) s qs !! p = Some Dir.
Proof.
  induction qs as [|q qs IH]; [by intros ?%elem_of_nil|]. simpl.
  destruct (decide (q = p)) as [->|Hne].
  - intros _. by rewrite lookup_insert_eq.
  - intros [?|Hin]%elem_of_cons; [done|]. rewrite lookup_insert_ne by done. by apply IH.
Qed.

Lemma ancestors_and_self_self (p : Path) : p <> [] -> p ∈ ancestors_and_self p.
Proof.
  intros Hne. unfold ancestors_and_self. apply list_elem_of_fmap.
  exists (length p). split; [by rewrite firstn_all|].
  apply elem_of_seq. destruct p; [done|]. simpl. lia.
Qed.

(** After [mkdir_parents] the path is a directory. *)
Lemma mkdir_parents_is_dir (p : Path) (s s' : fs) :
  mkdir_parents p s = Ok s' -> is_dir s' p = true.
Proof.
  unfold mkdir_parents. case_bool_decide; [done|]. intros [= <-].
  destruct p as [|c p]; [done|]. unfold is_dir.
  rewrite insert_dirs_lookup_in; [done|]. by apply ancestors_and_self_self.
Qed.

(** [mkdir_parents] touches the ancestors of the path and the path only. *)
Lemma mkdir_parents_elsewhere (root p : Path) (s s' : fs) :
  mkdir_parents root s = Ok s' -> ~ p `prefix_of` root -> s' !! p = s !! p.
Proof.
  unfold mkdir_parents. case_bool_decide; [done|]. intros [= <-] Hp.
  apply insert_dirs_lookup. by intros Hin%ancestors_and_self_prefix.
Qed.

Lemma parent_snoc (p : Path) (c : string) : parent (p ++ [c]) = p.
Proof. unfold parent. apply removelast_last. Qed.

End Directories.

(** *** File names *)

(** [name.rfind('.')] *)
Fixpoint rfind_dot (name : string) : option nat :=
  match name with
  | EmptyString => None
  | String c rest =>
      match rfind_dot rest with
      | Some i => Some (S i)
      | None => if Ascii.eqb c "." then Some 0%nat else None
      end
  end.

(** [PurePath.suffix], as pathlib has it in CPython 3.8 to 3.12: with [i]
    the place of the last dot of the last component, the component from
    [i] on when [0 < i < len(name) - 1], the empty string otherwise. *)
Definition suffix (p : Path) : string :=
  let name := default EmptyString (last p) in
  match rfind_dot name with
  | Some i =>
      if (0 <? i)%nat && (i <? String.length name - 1)%nat
      then String.substring i (String.length name - i) name
      else EmptyString
  | None => EmptyString
  end.

(** [Path.exists] *)
Definition path_exists {D} (s : gmap Path (node D)) (p : Path) : bool :=
  match p with
  | [] => true
  | _ => bool_decide (is_Some (s !! p))
  end.

Lemma rfind_dot_db (stem : string) :
  rfind_dot (String.append stem ".db") = Some (String.length stem).
Proof. induction stem as [|c stem IH]; [done|]. simpl. by rewrite IH. Qed.

Lemma substring_db (stem : string) :
  String.substring (String.length stem) 3 (String.append stem ".db") = ".db"%string.
Proof. induction stem as [|c stem IH]; [done|]. simpl. by rewrite IH. Qed.

Lemma length_append_db (stem : string) :
  String.length (String.append stem ".db") = (String.length stem + 3)%nat.
Proof. induction stem as [|c stem IH]; [done|]. simpl. by rewrite IH. Qed.

(** A file name that ends in [.db] after at least one more character has
    the suffix [.db]. *)
Lemma suffix_db (dir : Path) (stem : string) :
  stem <> EmptyString -> suffix (dir ++ [String.append stem ".db"]) = ".db"%string.
Proof.
  intros Hstem. unfold suffix. rewrite last_snoc. simpl.
  rewrite rfind_dot_db, length_append_db.
  assert (0 < String.length stem)%nat as Hlen by (destruct stem; [done|simpl; lia]).
  rewrite (proj2 (Nat.ltb_lt _ _)) by done.
  rewrite (proj2 (Nat.ltb_lt _ _)) by lia. simpl.
  replace (String.length stem + 3 - String.length stem)%nat with 3%nat by lia.
  apply substring_db.
Qed.

End Fs.

(** ** rollback.py: age distributions *)

Module Rollback.

(** Modelled from the spec: the class [Classifier] of
    [gcbmwalltowall.component.classifier] is not part of the sources at
    hand; [_convert_age_distribution] reads its name only. *)
Record Classifier := {
  name : string
}.

(** A sheet as [pd.read_excel] returns it: the column names and the rows,
    each with the objects that iterating over it yields; a blank cell is
    NaN. *)
Record Sheet := {
  sheet_columns : list string;
  sheet_rows : list (list pyval)
}.

Abbreviation Workbook := (dict string Sheet).

Definition is_blank (v : pyval) : bool :=
  match v with PNaN | PNaNBoxed _ => true | _ => false end.

(** [pd.read_excel(path, sheet_name=...)] on an opened workbook. *)
Definition read_excel (wb : Workbook) (sheet_name : string) : result Sheet :=
  match dict_get String.eqb sheet_name wb with
  | Some sheet => Ok sheet
  | None => Raise (ValueError "Worksheet not found")
  end.

(** [dict.get(key)] with its default None. *)
Definition py_get (key : string) (row_data : dict string pyval) : pyval :=
  default PNone (dict_get String.eqb key row_data).

(** [row_data[key]] *)
Definition py_item (key : string) (row_data : dict string pyval) : result pyval :=
  match dict_get String.eqb key row_data with
  | Some v => Ok v
  | None => Raise (KeyError key)
  end.

(** [_ClassifierSet]: a dict from classifier name to value. *)
Abbreviation _ClassifierSet := (dict string pyval).

(** [tuple(sorted(self.items()))].  The items of a dict have distinct
    names, so the order of two items is decided by their names. *)
Definition sorted_items (cs : _ClassifierSet) : list (string * pyval) :=
  sorted (fun kv1 kv2 : string * pyval => String.leb kv1.1 kv2.1) cs.

(** Equality of two tuples of items: the members are compared one by
    one, each pair by identity first. *)
Fixpoint items_eq (t1 t2 : list (string * pyval)) : bool :=
  match t1, t2 with
  | [], [] => true
  | (n1, v1) :: t1', (n2, v2) :: t2' => String.eqb n1 n2 && py_same v1 v2 && items_eq t1' t2'
  | _, _ => false
  end.

(** [_ClassifierSet.__eq__] *)
Definition ClassifierSet_eq (self other : _ClassifierSet) : bool :=
  items_eq (sorted_items self) (sorted_items other).

(** [replace([np.nan], [None])] on one cell. *)
Definition nan_to_none (v : pyval) : pyval :=
  match v with PNaN | PNaNBoxed _ => PNone | _ => v end.

(** The values of column [j]. *)
Definition column_values (j : nat) (rows : list (list pyval)) : list pyval :=
  (fun row => nth j row PNaN) <$> rows.

(** [distribution_sheets]: for every column of the root sheet, its
    non-blank cells. *)
Definition distribution_sheets (root_sheet : Sheet) : dict string (list pyval) :=
  dict_of String.eqb
    (imap (fun j sheet =>
             (sheet, filter (fun v => truthy v = true)
                       (nan_to_none <$> column_values j (sheet_rows root_sheet))))
       (sheet_columns root_sheet)).

(** [dict(zip(distribution_sheet.columns, row))] *)
Definition row_data_of (columns : list string) (row : list pyval) : dict string pyval :=
  dict_of String.eqb (zip columns row).

(** The dict comprehension of lines 65 to 68. *)
Definition classifier_set_of (classifiers : list Classifier) (row_data : dict string pyval)
    : dict string pyval :=
  dict_of String.eqb
    ((fun c => (name c, py_get (name c) row_data))
       <$> filter (fun c => truthy (py_get (name c) row_data) = true) classifiers).

(** A value of the emitted JSON objects. *)
Inductive jval :=
  | JTypes (types : list pyval)
  | JSingleton (v : pyval)
  | JDistribution (pairs : list (Z * pyval)).

Section Hash.
(** [hash] on values and on tuples of hashes. *)
Variable py_hash : pyval -> Z.
Variable hash_tuple : list Z -> Z.

(** [_ClassifierSet.__hash__] *)
Definition ClassifierSet_hash (self : _ClassifierSet) : Z :=
  hash_tuple ((fun kv : string * pyval => hash_tuple [py_hash (PStr kv.1); py_hash kv.2])
                <$> sorted_items self).

(** How a dict finds a key: equal hash, then [__eq__]. *)
Definition key_eqb (stored key : _ClassifierSet) : bool :=
  (ClassifierSet_hash stored =? ClassifierSet_hash key) && ClassifierSet_eq stored key.

(** [_AgeDistribution] *)
Record _AgeDistribution := {
  disturbance_types : option (list pyval);
  distributions : dict _ClassifierSet (dict Z pyval)
}.

(** [_AgeDistribution.__init__] *)
Definition new_AgeDistribution (disturbance_types : option (list pyval)) : _AgeDistribution :=
  {| disturbance_types := disturbance_types; distributions := [] |}.

(** [self.distributions[classifier_set][age] = proportion] on a
    [defaultdict(dict)]. *)
Definition add (age : Z) (proportion : pyval) (classifier_set : option (dict string pyval))
    (self : _AgeDistribution) : _AgeDistribution :=
  let classifier_set : _ClassifierSet :=
    match classifier_set with
    | Some (kv :: cs) => kv :: cs
    | _ => []
    end in
  let proportions := default [] (dict_get key_eqb classifier_set (distributions self)) in
  {| disturbance_types := disturbance_types self;
     distributions :=
       dict_set key_eqb classifier_set (dict_set Z.eqb age proportion proportions)
         (distributions self) |}.

(** One object of [to_json]. *)
Definition distribution_json (types : option (list pyval)) (classifier_set : _ClassifierSet)
    (proportions : dict Z pyval) : dict string jval :=
  let distribution :=
    match types with
    | Some (t :: ts) => dict_set String.eqb "disturbance_type" (JTypes (t :: ts)) []
    | _ => []
    end in
  let distribution :=
    fold_left (fun d kv => dict_set String.eqb kv.1 (JSingleton kv.2) d)
      classifier_set distribution in
  dict_set String.eqb "distribution"
    (JDistribution (sorted (fun ap1 ap2 : Z * pyval => ap1.1 <=? ap2.1) proportions))
    distribution.

(** [_AgeDistribution.to_json] *)
Definition to_json (self : _AgeDistribution) : list (dict string jval) :=
  (fun entry => distribution_json (disturbance_types self) entry.1 entry.2)
    <$> distributions self.

(** The body of the loop over the rows of one sheet. *)
Definition add_row (classifiers : list Classifier) (columns : list string)
    (distribution : _AgeDistribution) (row : list pyval) : result _AgeDistribution :=
  let row_data := row_data_of columns row in
  let classifier_set := classifier_set_of classifiers row_data in
  bind (py_item "min_age" row_data) (fun min_age =>
  bind (py_int min_age) (fun age =>
  bind (py_item "proportion" row_data) (fun proportion =>
  Ok (add age proportion (Some classifier_set) distribution)))).

Fixpoint add_rows (classifiers : list Classifier) (columns : list string)
    (distribution : _AgeDistribution) (rows : list (list pyval)) : result _AgeDistribution :=
  match rows with
  | [] => Ok distribution
  | row :: rows' =>
      bind (add_row classifiers columns distribution row) (fun distribution' =>
      add_rows classifiers columns distribution' rows')
  end.

(** The body of the loop over the distribution sheets. *)
Definition convert_sheet (wb : Workbook) (classifiers : list Classifier)
    (sheet_name : string) (dist_types : list pyval) : result (list (dict string jval)) :=
  let distribution := new_AgeDistribution (Some dist_types) in
  bind (read_excel wb sheet_name) (fun distribution_sheet =>
  bind (add_rows classifiers (sheet_columns distribution_sheet) distribution
          (sheet_rows distribution_sheet)) (fun distribution' =>
  Ok (to_json distribution'))).

Fixpoint convert_sheets (wb : Workbook) (classifiers : list Classifier)
    (sheets : list (string * list pyval)) (age_distributions : list (dict string jval))
    : result (list (dict string jval)) :=
  match sheets with
  | [] => Ok age_distributions
  | (sheet_name, dist_types) :: sheets' =>
      bind (convert_sheet wb classifiers sheet_name dist_types) (fun records =>
      convert_sheets wb classifiers sheets' (age_distributions ++ records))
  end.

(** What a file holds: a workbook, or the JSON document written by
    [json.dump]. *)
Inductive content :=
  | Excel (wb : Workbook)
  | Json (document : list (dict string jval)).

(** [Rollback._convert_age_distribution]: [age_distribution] is
    [self.age_distribution]; the result is the outcome and the file system
    it leaves. *)
Definition _convert_age_distribution (age_distribution : Fs.Path)
    (classifiers : list Classifier) (output_path : Fs.Path)
    (s : gmap Fs.Path (Fs.node content)) : result unit * gmap Fs.Path (Fs.node content) :=
  let computed :=
    bind (Fs.read_file age_distribution s) (fun file =>
    match file with
    | Json _ => Raise (ValueError "Excel file format cannot be determined")
    | Excel wb =>
        bind (read_excel wb "age_distribution") (fun root_sheet =>
        convert_sheets wb classifiers (distribution_sheets root_sheet) [])
    end) in
  match computed with
  | Raise e => (Raise e, s)
  | Ok age_distributions =>
      match Fs.write_file output_path (Json age_distributions) s with
      | Ok s' => (Ok tt, s')
      | Raise e => (Raise e, s)
      end
  end.

End Hash.

(** *** Classifier sets as keys *)

(** Two items with the same name and with values that are the same object
    or equal. *)
Definition item_eq (kv1 kv2 : string * pyval) : Prop :=
  kv1.1 = kv2.1 /\ py_same kv1.2 kv2.2 = true.

(** The same (name, value) pairs, in any order. *)
Definition same_pairs (cs1 cs2 : _ClassifierSet) : Prop :=
  exists l, cs1 ≡ₚ l /\ Forall2 item_eq l cs2.

#[local] Abbreviation name_leb :=
  (fun kv1 kv2 : string * pyval => String.leb kv1.1 kv2.1).

Lemma items_eq_Forall2 (t1 t2 : list (string * pyval)) :
  items_eq t1 t2 = true <-> Forall2 item_eq t1 t2.
Proof.
  revert t2. induction t1 as [|[n1 v1] t1 IH]; intros [|[n2 v2] t2]; simpl.
  - split; [constructor|done].
  - split; [done|inversion 1].
  - split; [done|inversion 1].
  - rewrite !andb_true_iff, String.eqb_eq, IH. split.
    + intros [[-> Hv] Ht]. by constructor.
    + inversion 1 as [|???? [Hn Hv] Ht]; subst. simpl in *. tauto.
Qed.

Lemma item_eq_sym kv1 kv2 : item_eq kv1 kv2 -> item_eq kv2 kv1.
Proof. intros [Hn Hv]. split; [done|by apply py_same_sym]. Qed.

Lemma item_eq_trans kv1 kv2 kv3 : item_eq kv1 kv2 -> item_eq kv2 kv3 -> item_eq kv1 kv3.
Proof.
  intros [Hn1 Hv1] [Hn2 Hv2]. split; [congruence|by eapply py_same_trans].
Qed.

Lemma ClassifierSet_eq_sym (cs1 cs2 : _ClassifierSet) :
  ClassifierSet_eq cs1 cs2 = true -> ClassifierSet_eq cs2 cs1 = true.
Proof.
  unfold ClassifierSet_eq. rewrite !items_eq_Forall2. intros H.
  apply Forall2_flip. eapply Forall2_impl; [exact H|]. apply item_eq_sym.
Qed.

Lemma ClassifierSet_eq_trans (cs1 cs2 cs3 : _ClassifierSet) :
  ClassifierSet_eq cs1 cs2 = true -> ClassifierSet_eq cs2 cs3 = true ->
  ClassifierSet_eq cs1 cs3 = true.
Proof.
  unfold ClassifierSet_eq. rewrite !items_eq_Forall2. intros H1 H2.
  eapply Forall2_trans; [|exact H1|exact H2]. apply item_eq_trans.
Qed.

Lemma NoDup_fst_functional {A B} (l : list (A * B)) (a : A) (b1 b2 : B) :
  NoDup l.*1 -> (a, b1) ∈ l -> (a, b2) ∈ l -> b1 = b2.
Proof.
  induction l as [|[a' b'] l IH]; [by intros _ ?%elem_of_nil|].
  rewrite fmap_cons, NoDup_cons. simpl. intros [Hnot Hl] H1 H2.
  apply elem_of_cons in H1 as [H1|H1]; apply elem_of_cons in H2 as [H2|H2].
  - congruence.
  - injection H1 as <- <-. exfalso. apply Hnot. apply list_elem_of_fmap. by exists (a, b2).
  - injection H2 as <- <-. exfalso. apply Hnot. apply list_elem_of_fmap. by exists (a, b1).
  - by apply IH.
Qed.

Lemma sorted_items_sorted (cs : _ClassifierSet) :
  StronglySorted (fun kv1 kv2 => name_leb kv1 kv2 = true) (sorted_items cs).
Proof.
  apply sorted_StronglySorted.
  - intros x y. apply String.leb_total.
  - intros x y z. apply string_leb_trans.
Qed.

(** Sorting forgets the insertion order of a dict. *)
Lemma sorted_items_perm (cs1 cs2 : _ClassifierSet) :
  NoDup cs1.*1 -> cs1 ≡ₚ cs2 -> sorted_items cs1 = sorted_items cs2.
Proof.
  intros Hnd Hp.
  apply (StronglySorted_unique_strong (fun kv1 kv2 => name_leb kv1 kv2 = true)).
  - intros [n1 v1] [n2 v2] H1 H2 Hle1 Hle2. simpl in *.
    pose proof (String.leb_antisym _ _ Hle1 Hle2) as ->.
    f_equal. apply (NoDup_fst_functional cs1 n2); [done| |].
    + by rewrite <- (sorted_perm name_leb cs1).
    + rewrite Hp. by rewrite <- (sorted_perm name_leb cs2).
  - apply sorted_items_sorted.
  - apply sorted_items_sorted.
  - unfold sorted_items. by rewrite !sorted_perm.
Qed.

Lemma sorted_insert_Forall2 kv1 kv2 (l1 l2 : list (string * pyval)) :
  item_eq kv1 kv2 -> Forall2 item_eq l1 l2 ->
  Forall2 item_eq (sorted_insert name_leb kv1 l1) (sorted_insert name_leb kv2 l2).
Proof.
  intros Hkv. induction 1 as [|x y l1 l2 Hxy Hl IH]; simpl.
  - constructor; [done|constructor].
  - destruct Hkv as [Hn Hv], Hxy as [Hn' Hv']. rewrite Hn, Hn'.
    destruct (String.leb kv2.1 y.1).
    + constructor; [done|]. by constructor.
    + constructor; [done|]. apply IH.
Qed.

Lemma sorted_items_Forall2 (l1 l2 : list (string * pyval)) :
  Forall2 item_eq l1 l2 -> Forall2 item_eq (sorted_items l1) (sorted_items l2).
Proof.
  induction 1 as [|x y l1 l2 Hxy Hl IH]; simpl; [constructor|].
  by apply sorted_insert_Forall2.
Qed.

Lemma same_pairs_sorted (cs1 cs2 : _ClassifierSet) :
  NoDup cs1.*1 -> same_pairs cs1 cs2 ->
  Forall2 item_eq (sorted_items cs1) (sorted_items cs2).
Proof.
  intros Hnd (l & Hp & Hl). rewrite (sorted_items_perm cs1 l Hnd Hp).
  by apply sorted_items_Forall2.
Qed.

Lemma items_eq_compat (t t1 t2 : list (string * pyval)) :
  Forall2 item_eq t1 t2 -> items_eq t t1 = items_eq t t2.
Proof.
  intros H. revert t. induction H as [|[n1 v1] [n2 v2] t1 t2 [Hn Hv] Ht IH];
    intros [|[n v] t]; simpl; try done.
  simpl in Hn, Hv. subst n2. by rewrite (py_same_compat v v1 v2 Hv), IH.
Qed.

Section KeyFacts.
Variable py_hash : pyval -> Z.
Variable hash_tuple : list Z -> Z.

(** Python's contract for [__hash__]: equal values hash alike. *)
Hypothesis py_hash_eq : forall v1 v2, py_eq v1 v2 = true -> py_hash v1 = py_hash v2.

#[local] Abbreviation cs_hash := (ClassifierSet_hash py_hash hash_tuple).
#[local] Abbreviation cs_key_eqb := (key_eqb py_hash hash_tuple).

Lemma hash_Forall2 (t1 t2 : list (string * pyval)) :
  Forall2 item_eq t1 t2 ->
  (fun kv : string * pyval => hash_tuple [py_hash (PStr kv.1); py_hash kv.2]) <$> t1 =
  (fun kv : string * pyval => hash_tuple [py_hash (PStr kv.1); py_hash kv.2]) <$> t2.
Proof.
  induction 1 as [|x y t1 t2 [Hn Hv] Ht IH]; [done|].
  rewrite !fmap_cons, IH, Hn, (py_same_hash py_hash _ _ py_hash_eq Hv). done.
Qed.

Lemma same_pairs_eq (cs1 cs2 : _ClassifierSet) :
  NoDup cs1.*1 -> same_pairs cs1 cs2 -> ClassifierSet_eq cs1 cs2 = true.
Proof.
  intros Hnd Hs. unfold ClassifierSet_eq. apply items_eq_Forall2.
  by apply same_pairs_sorted.
Qed.

Lemma same_pairs_hash (cs1 cs2 : _ClassifierSet) :
  NoDup cs1.*1 -> same_pairs cs1 cs2 -> cs_hash cs1 = cs_hash cs2.
Proof.
  intros Hnd Hs. unfold ClassifierSet_hash. f_equal.
  by apply hash_Forall2, same_pairs_sorted.
Qed.

(** Every stored key treats the two sets alike. *)
Lemma same_pairs_key_eqb (cs1 cs2 k : _ClassifierSet) :
  NoDup cs1.*1 -> same_pairs cs1 cs2 -> cs_key_eqb k cs1 = cs_key_eqb k cs2.
Proof.
  intros Hnd Hs. unfold key_eqb, ClassifierSet_eq.
  rewrite (same_pairs_hash cs1 cs2 Hnd Hs).
  by rewrite (items_eq_compat _ _ _ (same_pairs_sorted cs1 cs2 Hnd Hs)).
Qed.

End KeyFacts.

(** *** Age distributions *)

Section DistributionFacts.
Variable py_hash : pyval -> Z.
Variable hash_tuple : list Z -> Z.

#[local] Abbreviation add_here := (add py_hash hash_tuple).
#[local] Abbreviation keyb := (key_eqb py_hash hash_tuple).

(** What [add] does to the dict of distributions: the entry the key is
    found at gets the age, or a new entry is appended. *)
Lemma add_distributions (a : Z) (p : pyval) (cs : _ClassifierSet) (d : _AgeDistribution) :
  distributions (add_here a p (Some cs) d) =
  match dict_find keyb cs (distributions d) with
  | Some i => alter (fun e => (e.1, dict_set Z.eqb a p e.2)) i (distributions d)
  | None => distributions d ++ [(cs, [(a, p)])]
  end.
Proof.
  unfold add. cbn [distributions].
  assert (match Some cs with Some (kv :: cs') => kv :: cs' | _ => [] end = cs) as ->
    by by destruct cs.
  rewrite dict_set_find, dict_get_find.
  destruct (dict_find keyb cs (distributions d)) as [i|] eqn:E; [|done].
  apply list_alter_ext; [|done]. intros [k props] Hl. simpl. by rewrite Hl.
Qed.

Lemma add_disturbance_types a p cs (d : _AgeDistribution) :
  disturbance_types (add_here a p cs d) = disturbance_types d.
Proof. done. Qed.

(** The entry a row lands in holds the row's age and proportion. *)
Lemma add_puts (a : Z) (p : pyval) (cs : _ClassifierSet) (d : _AgeDistribution) :
  exists i k props,
    distributions (add_here a p (Some cs) d) !! i = Some (k, props) /\
    (k = cs \/ keyb k cs = true) /\
    dict_get Z.eqb a props = Some p /\
    match dict_find keyb cs (distributions d) with
    | Some j => i = j
    | None => i = length (distributions d)
    end.
Proof.
  rewrite add_distributions.
  destruct (dict_find keyb cs (distributions d)) as [i|] eqn:E.
  - destruct (dict_find_Some _ _ _ _ E) as (k & props & Hl & Hk & _).
    exists i, k, (dict_set Z.eqb a p props). split.
    + by rewrite list_lookup_alter_eq, Hl.
    + split; [by right|]. split; [|done]. apply dict_get_set_eq. apply Z.eqb_eq.
  - exists (length (distributions d)), cs, [(a, p)]. split.
    + by rewrite lookup_app_r, Nat.sub_diag by lia.
    + split; [by left|]. split; [|done]. simpl. by rewrite Z.eqb_refl.
Qed.

(** An entry keeps an age when a row with another age or another key is
    added. *)
Lemma add_keeps (a a' : Z) (p p' : pyval) (cs' k : _ClassifierSet) (props : dict Z pyval)
    (d : _AgeDistribution) (i : nat) :
  distributions d !! i = Some (k, props) ->
  dict_get Z.eqb a props = Some p ->
  a' <> a \/ keyb k cs' = false ->
  exists props',
    distributions (add_here a' p' (Some cs') d) !! i = Some (k, props') /\
    dict_get Z.eqb a props' = Some p.
Proof.
  intros Hl Hget Hother. rewrite add_distributions.
  destruct (dict_find keyb cs' (distributions d)) as [j|] eqn:E.
  - destruct (decide (j = i)) as [->|Hne].
    + destruct (dict_find_Some _ _ _ _ E) as (k0 & props0 & Hl0 & Hk0 & _).
      rewrite Hl in Hl0. injection Hl0 as <- <-.
      destruct Hother as [Ha|Hk]; [|congruence].
      exists (dict_set Z.eqb a' p' props). split.
      * by rewrite list_lookup_alter_eq, Hl.
      * rewrite dict_get_set_ne; [done|apply Z.eqb_eq|done].
    + exists props. split; [|done]. by rewrite list_lookup_alter_ne.
  - exists props. split; [|done]. rewrite lookup_app_l; [done|].
    by eapply lookup_lt_Some.
Qed.

(** The keys of the dict never change, they are only added to. *)
Lemma add_keys_found (a : Z) (p : pyval) (cs : _ClassifierSet) (d : _AgeDistribution) (i : nat) :
  dict_find keyb cs (distributions d) = Some i ->
  (distributions (add_here a p (Some cs) d)).*1 = (distributions d).*1.
Proof.
  intros E. rewrite add_distributions, E.
  apply list_eq. intros j. rewrite !list_lookup_fmap.
  destruct (decide (i = j)) as [->|Hne].
  - rewrite list_lookup_alter_eq. by destruct (distributions d !! j).
  - by rewrite list_lookup_alter_ne.
Qed.

(** C3: two rows whose classifier (name, value) pairs are the same up to
    order have keys that compare equal and hash alike, and the second row
    goes into the entry of the first: no second record appears, and both
    ages end up in one distribution. *)
Theorem classifier_sets_order_independent (cs1 cs2 : _ClassifierSet) :
  (forall v1 v2, py_eq v1 v2 = true -> py_hash v1 = py_hash v2) ->
  NoDup cs1.*1 ->
  same_pairs cs1 cs2 ->
  ClassifierSet_eq cs1 cs2 = true /\
  ClassifierSet_hash py_hash hash_tuple cs1 = ClassifierSet_hash py_hash hash_tuple cs2 /\
  forall (d : _AgeDistribution) (a1 a2 : Z) (p1 p2 : pyval),
    let d1 := add_here a1 p1 (Some cs1) d in
    let d2 := add_here a2 p2 (Some cs2) d1 in
    length (to_json d2) = length (to_json d1) /\
    (distributions d = [] -> length (to_json d2) = 1%nat) /\
    exists i k props,
      distributions d2 !! i = Some (k, props) /\
      dict_get Z.eqb a2 props = Some p2 /\
      (a1 <> a2 -> dict_get Z.eqb a1 props = Some p1).
Proof.
  intros Hhash Hnd Hsame.
  pose proof (same_pairs_eq cs1 cs2 Hnd Hsame) as Heq.
  pose proof (same_pairs_hash py_hash hash_tuple Hhash cs1 cs2 Hnd Hsame) as Hh.
  split; [done|]. split; [done|]. intros d a1 a2 p1 p2 d1 d2.
  destruct (add_puts a1 p1 cs1 d) as (i & k & props & Hl & Hk & Hget & Hi). fold d1 in Hl.
  assert (keyb k cs2 = true) as Hk2.
  { destruct Hk as [->|Hk].
    - unfold key_eqb. rewrite Hh, Z.eqb_refl. done.
    - by rewrite <- (same_pairs_key_eqb py_hash hash_tuple Hhash cs1 cs2 k Hnd Hsame). }
  assert (dict_find keyb cs2 (distributions d1) = Some i) as Hfind.
  { rewrite <- (dict_find_ext keyb cs1 cs2).
    2:{ intros k' _. by apply same_pairs_key_eqb. }
    subst d1. destruct (dict_find keyb cs1 (distributions d)) as [j|] eqn:E.
    - subst j. rewrite (dict_find_same_keys keyb cs1 _ (distributions d)); [done|].
      by eapply add_keys_found.
    - subst i. rewrite add_distributions, E, dict_find_app, E. simpl.
      pose proof Hl as Hl'.
      rewrite add_distributions, E, lookup_app_r, Nat.sub_diag in Hl' by lia.
      simpl in Hl'. injection Hl' as <- <-.
      rewrite (same_pairs_key_eqb py_hash hash_tuple Hhash cs1 cs2 cs1 Hnd Hsame), Hk2.
      simpl. by rewrite Nat.add_0_r. }
  assert (distributions d2 =
          alter (fun e => (e.1, dict_set Z.eqb a2 p2 e.2)) i (distributions d1)) as Hd2.
  { subst d2. by rewrite add_distributions, Hfind. }
  unfold to_json. rewrite !length_fmap, Hd2, length_alter.
  split; [done|]. split.
  { intros Hd. subst d1. rewrite add_distributions, Hd. done. }
  exists i, k, (dict_set Z.eqb a2 p2 props). split.
  - by rewrite list_lookup_alter_eq, Hl.
  - split.
    + apply dict_get_set_eq. apply Z.eqb_eq.
    + intros Hne. rewrite dict_get_set_ne; [done|apply Z.eqb_eq|done].
Qed.

(** A sequence of calls of [add], each with its age, proportion and
    classifier set. *)
Definition add_all (ops : list (Z * pyval * _ClassifierSet)) (d : _AgeDistribution)
    : _AgeDistribution :=
  fold_left (fun d op => add_here op.1.1 op.1.2 (Some op.2) d) ops d.

(** The ages of every distribution are distinct. *)
Definition ages_distinct (d : _AgeDistribution) : Prop :=
  Forall (fun e : _ClassifierSet * dict Z pyval => NoDup e.2.*1) (distributions d).

Lemma add_ages_distinct a p cs (d : _AgeDistribution) :
  ages_distinct d -> ages_distinct (add_here a p (Some cs) d).
Proof.
  unfold ages_distinct. intros Hd. rewrite add_distributions.
  destruct (dict_find keyb cs (distributions d)) as [i|].
  - apply Forall_alter; [done|]. intros [k props] _ Hnd. simpl in *.
    apply dict_set_NoDup; [apply Z.eqb_eq|done].
  - apply Forall_app. split; [done|]. constructor; [|constructor].
    simpl. apply NoDup_singleton.
Qed.

Lemma add_all_ages_distinct ops (d : _AgeDistribution) :
  ages_distinct d -> ages_distinct (add_all ops d).
Proof.
  revert d. induction ops as [|op ops IH]; intros d Hd; simpl; [done|].
  apply IH. by apply add_ages_distinct.
Qed.

Lemma add_all_disturbance_types ops (d : _AgeDistribution) :
  disturbance_types (add_all ops d) = disturbance_types d.
Proof.
  revert d. induction ops as [|op ops IH]; intros d; simpl; [done|]. by rewrite IH.
Qed.

Lemma add_all_keeps (a : Z) (p : pyval) (k : _ClassifierSet) ops :
  Forall (fun op : Z * pyval * _ClassifierSet => op.1.1 <> a \/ keyb k op.2 = false) ops ->
  forall (d : _AgeDistribution) (i : nat) (props : dict Z pyval),
  distributions d !! i = Some (k, props) ->
  dict_get Z.eqb a props = Some p ->
  exists props',
    distributions (add_all ops d) !! i = Some (k, props') /\
    dict_get Z.eqb a props' = Some p.
Proof.
  induction 1 as [|[[a' p'] cs'] ops Hop _ IH]; intros d i props Hl Hget; simpl.
  - by exists props.
  - destruct (add_keeps a a' p p' cs' k props d i Hl Hget Hop) as (props' & Hl' & Hget').
    by apply (IH _ _ props').
Qed.

(** No stored key is found under a key stored before it. *)
Definition keys_apart (d : _AgeDistribution) : Prop :=
  forall i j ki kj pi pj,
    (i < j)%nat ->
    distributions d !! i = Some (ki, pi) ->
    distributions d !! j = Some (kj, pj) ->
    keyb ki kj = false.

Lemma add_keys_apart a p cs (d : _AgeDistribution) :
  keys_apart d -> keys_apart (add_here a p (Some cs) d).
Proof.
  unfold keys_apart. intros Hd i j ki kj pi pj Hij. rewrite add_distributions.
  destruct (dict_find keyb cs (distributions d)) as [n|] eqn:E.
  - rewrite !list_lookup_alter.
    intros Hi Hj.
    assert (exists pi', distributions d !! i = Some (ki, pi')) as [pi' Hi'].
    { clear Hj. case_decide as Hn; [subst n|by eexists].
      destruct (distributions d !! i) as [[k0 p0]|]; [|done].
      simpl in Hi. injection Hi as <- _. by eexists. }
    assert (exists pj', distributions d !! j = Some (kj, pj')) as [pj' Hj'].
    { clear Hi Hi'. case_decide as Hn; [subst n|by eexists].
      destruct (distributions d !! j) as [[k0 p0]|]; [|done].
      simpl in Hj. injection Hj as <- _. by eexists. }
    exact (Hd i j ki kj pi' pj' Hij Hi' Hj').
  - intros Hi Hj.
    assert (i < length (distributions d))%nat as Hilen.
    { apply lookup_lt_Some in Hj. rewrite length_app in Hj. simpl in Hj. lia. }
    rewrite lookup_app_l in Hi by done.
    destruct (decide (j < length (distributions d))%nat) as [Hjlen|Hjlen].
    + rewrite lookup_app_l in Hj by done. exact (Hd i j ki kj pi pj Hij Hi Hj).
    + rewrite lookup_app_r in Hj by lia.
      destruct (j - length (distributions d))%nat; [|done].
      injection Hj as <- _.
      eapply (dict_find_None keyb _ _ E ki pi). by eapply list_elem_of_lookup_2.
Qed.

Lemma add_all_keys_apart ops (d : _AgeDistribution) :
  keys_apart d -> keys_apart (add_all ops d).
Proof.
  revert d. induction ops as [|op ops IH]; intros d Hd; simpl; [done|].
  apply IH. by apply add_keys_apart.
Qed.

(** Under the contract for [hash], keys that are equal are found alike. *)
Lemma ClassifierSet_eq_key_eqb (k1 k2 : _ClassifierSet) :
  (forall v1 v2, py_eq v1 v2 = true -> py_hash v1 = py_hash v2) ->
  ClassifierSet_eq k1 k2 = true -> keyb k1 k2 = true.
Proof.
  intros Hhash Heq. unfold key_eqb. rewrite Heq, andb_true_r. apply Z.eqb_eq.
  unfold ClassifierSet_hash. f_equal. apply hash_Forall2; [done|].
  by apply items_eq_Forall2.
Qed.

Lemma ages_strictly_sorted (props : dict Z pyval) :
  NoDup props.*1 ->
  StronglySorted Z.lt (sorted (fun ap1 ap2 : Z * pyval => ap1.1 <=? ap2.1) props).*1.
Proof.
  intros Hnd.
  assert (NoDup (sorted (fun ap1 ap2 : Z * pyval => ap1.1 <=? ap2.1) props).*1) as Hnd'.
  { by rewrite sorted_perm. }
  assert (StronglySorted (fun ap1 ap2 : Z * pyval => (ap1.1 <=? ap2.1) = true)
            (sorted (fun ap1 ap2 : Z * pyval => ap1.1 <=? ap2.1) props)) as Hs.
  { apply sorted_StronglySorted.
    - intros x y. rewrite !Z.leb_le. lia.
    - intros x y z. rewrite !Z.leb_le. lia. }
  revert Hnd'. generalize (sorted (fun ap1 ap2 : Z * pyval => ap1.1 <=? ap2.1) props) Hs.
  clear. induction 1 as [|x l Hl IH Hx]; [constructor|].
  rewrite fmap_cons, NoDup_cons. intros [Hnot Hnd]. constructor; [by apply IH|].
  apply Forall_fmap. rewrite Forall_forall in Hx |- *. intros y Hy. simpl.
  specialize (Hx y Hy). simpl in Hx. apply Z.leb_le in Hx.
  assert (x.1 <> y.1); [|lia]. intros Heq. apply Hnot. rewrite Heq.
  by apply list_elem_of_fmap_2.
Qed.

Lemma distribution_json_distribution types k (props : dict Z pyval) :
  dict_get String.eqb "distribution" (distribution_json types k props) =
  Some (JDistribution (sorted (fun ap1 ap2 : Z * pyval => ap1.1 <=? ap2.1) props)).
Proof. unfold distribution_json. apply dict_get_set_eq. apply String.eqb_eq. Qed.

(** C4: whatever rows are added, every emitted distribution is strictly
    ascending by age, so no age occurs twice; the proportion emitted for an
    age is the one of the last row added for that age under an equal
    classifier set; and, [hash] keeping its contract, no two records have
    equal classifier sets, so that proportion is emitted once.  Equal is
    what [__eq__] makes of it: the same names with values that are equal
    or the same object, so that rows whose blank cells are the one NaN
    object of pandas go into one record. *)
Theorem distribution_sorted_last_wins (types : option (list pyval))
    (ops : list (Z * pyval * _ClassifierSet)) :
  let d := add_all ops (new_AgeDistribution types) in
  (forall record, record ∈ to_json d ->
     exists pairs,
       dict_get String.eqb "distribution" record = Some (JDistribution pairs) /\
       StronglySorted Z.lt pairs.*1) /\
  (forall ops1 a p cs ops2,
     ops = ops1 ++ (a, p, cs) :: ops2 ->
     (forall a' p' cs', (a', p', cs') ∈ ops2 -> a' = a -> ClassifierSet_eq cs cs' = false) ->
     exists i k props pairs record,
       distributions d !! i = Some (k, props) /\
       (k = cs \/ ClassifierSet_eq k cs = true) /\
       to_json d !! i = Some record /\
       dict_get String.eqb "distribution" record = Some (JDistribution pairs) /\
       (a, p) ∈ pairs /\
       (forall p', (a, p') ∈ pairs -> p' = p)) /\
  ((forall v1 v2, py_eq v1 v2 = true -> py_hash v1 = py_hash v2) ->
   forall i j ki kj pi pj,
     i <> j ->
     distributions d !! i = Some (ki, pi) ->
     distributions d !! j = Some (kj, pj) ->
     ClassifierSet_eq ki kj = false).
Proof.
  intros d.
  assert (ages_distinct d) as Hdistinct.
  { apply add_all_ages_distinct. constructor. }
  assert (keys_apart d) as Hapart.
  { apply add_all_keys_apart. intros i j ki kj pi pj _ Hi. simpl in Hi.
    by rewrite lookup_nil in Hi. }
  split; [|split]; [| |intros Hhash i j ki kj pi pj Hne Hi Hj;
    destruct (ClassifierSet_eq ki kj) eqn:Heq; [exfalso|done];
    destruct (decide (i < j)%nat) as [Hlt|Hge];
    [ pose proof (Hapart i j ki kj pi pj Hlt Hi Hj) as Hk;
      by rewrite (ClassifierSet_eq_key_eqb ki kj Hhash Heq) in Hk
    | assert (j < i)%nat as Hlt by lia;
      pose proof (Hapart j i kj ki pj pi Hlt Hj Hi) as Hk;
      apply ClassifierSet_eq_sym in Heq;
      by rewrite (ClassifierSet_eq_key_eqb kj ki Hhash Heq) in Hk ]].
  - intros record (e & -> & He)%list_elem_of_fmap.
    eexists. split; [apply distribution_json_distribution|].
    apply ages_strictly_sorted.
    unfold ages_distinct in Hdistinct. rewrite Forall_forall in Hdistinct.
    by apply (Hdistinct e).
  - intros ops1 a p cs ops2 -> Hlater. subst d.
    unfold add_all in *. rewrite fold_left_app in *. simpl in *.
    fold (add_all ops1 (new_AgeDistribution types)) in *.
    set (d0 := add_all ops1 (new_AgeDistribution types)) in *.
    destruct (add_puts a p cs d0) as (i & k & props & Hl & Hk & Hget & _).
    fold (add_all ops2 (add_here a p (Some cs) d0)) in *.
    destruct (add_all_keeps a p k ops2) with (d := add_here a p (Some cs) d0)
      (i := i) (props := props) as (props' & Hl' & Hget'); [|done|done|].
    { apply Forall_forall. intros [[a' p'] cs'] Hin. simpl.
      destruct (decide (a' = a)) as [->|Hne]; [|by left]. right.
      specialize (Hlater a p' cs' Hin eq_refl).
      destruct (keyb k cs') eqn:Ek; [|done]. exfalso.
      apply andb_true_iff in Ek as [_ Ek].
      destruct Hk as [->|Hk]; [congruence|].
      apply andb_true_iff in Hk as [_ Hk].
      apply ClassifierSet_eq_sym in Hk.
      pose proof (ClassifierSet_eq_trans _ _ _ Hk Ek). congruence. }
    exists i, k, props'. eexists. eexists.
    split; [exact Hl'|]. split.
    { destruct Hk as [->|Hk]; [by left|right]. by apply andb_true_iff in Hk as [_ Hk]. }
    split. { unfold to_json. by rewrite list_lookup_fmap, Hl'. }
    split; [apply distribution_json_distribution|].
    assert (NoDup props'.*1) as Hnd.
    { unfold ages_distinct in Hdistinct. rewrite Forall_forall in Hdistinct.
      apply (Hdistinct (k, props')). by eapply list_elem_of_lookup_2. }
    assert ((a, p) ∈ props') as Hin.
    { apply dict_get_Some in Hget' as (a' & Hin & ->%Z.eqb_eq). done. }
    split.
    + by rewrite sorted_perm.
    + intros p'. rewrite sorted_perm. intros Hin'.
      by apply (NoDup_fst_functional props' a).
Qed.

End DistributionFacts.

(** *** Runs on small inputs *)

(** A hash that satisfies the contract. *)
Definition demo_hash (v : pyval) : Z := 0.
Definition demo_hash_tuple (hs : list Z) : Z := foldr (fun h acc => h + 31 * acc) 7 hs.

Definition demo_cs1 : _ClassifierSet := [("species", PStr "pine"); ("region", PStr "north")].
Definition demo_cs2 : _ClassifierSet := [("region", PStr "north"); ("species", PStr "pine")].

Lemma classifier_sets_order_independent_witness :
  NoDup demo_cs1.*1 /\
  same_pairs demo_cs1 demo_cs2 /\
  ClassifierSet_eq demo_cs1 demo_cs2 = true /\
  ClassifierSet_hash demo_hash demo_hash_tuple demo_cs1 =
    ClassifierSet_hash demo_hash demo_hash_tuple demo_cs2.
Proof.
  assert (NoDup demo_cs1.*1) as Hnd.
  { apply (bool_decide_unpack _). vm_compute. exact I. }
  assert (same_pairs demo_cs1 demo_cs2) as Hsame.
  { exists demo_cs2. split; [apply Permutation_swap|].
    repeat (constructor; [split; reflexivity|]). constructor. }
  split; [exact Hnd|]. split; [exact Hsame|].
  destruct (classifier_sets_order_independent demo_hash demo_hash_tuple demo_cs1 demo_cs2)
    as (Heq & Hhash & _); [reflexivity|exact Hnd|exact Hsame|].
  split; [exact Heq|exact Hhash].
Defined.

(** Two rows with a blank species cell and the same age: the proportion
    of the second row is the one emitted for the age. *)
Lemma distribution_sorted_last_wins_witness :
  let d := add_all demo_hash demo_hash_tuple
             [(10, PFloat 1 (-1), [("species", PNaN)]);
              (10, PFloat 1 (-2), [("species", PNaN)])]
             (new_AgeDistribution None) in
  exists i record pairs,
    to_json d !! i = Some record /\
    dict_get String.eqb "distribution" record = Some (JDistribution pairs) /\
    (10, PFloat 1 (-2)) ∈ pairs /\
    (forall p', (10, p') ∈ pairs -> p' = PFloat 1 (-2)).
Proof.
  intros d.
  destruct (distribution_sorted_last_wins demo_hash demo_hash_tuple None
              [(10, PFloat 1 (-1), [("species", PNaN)]);
               (10, PFloat 1 (-2), [("species", PNaN)])]) as (_ & Hlast & _).
  destruct (Hlast [(10, PFloat 1 (-1), [("species", PNaN)])]
              10 (PFloat 1 (-2)) [("species", PNaN)] [])
    as (i & k & props & pairs & record & _ & _ & Hrecord & Hpairs & Hin & Huniq).
  - reflexivity.
  - intros a' p' cs' Hin. by apply elem_of_nil in Hin.
  - exists i, record, pairs. split; [exact Hrecord|]. split; [exact Hpairs|].
    split; [exact Hin|exact Huniq].
Defined.

(** Three rows, the third with the classifier set of the first two in
    another order, give one record, ages ascending, with the last
    proportion given for age 10. *)
Example to_json_demo :
  to_json (add_all demo_hash demo_hash_tuple
             [(10, PFloat 1 (-2), demo_cs1); (0, PFloat 1 (-1), demo_cs1);
              (10, PFloat 3 (-2), demo_cs2)]
             (new_AgeDistribution (Some [PStr "Wildfire"]))) =
  [[("disturbance_type", JTypes [PStr "Wildfire"]);
    ("species", JSingleton (PStr "pine"));
    ("region", JSingleton (PStr "north"));
    ("distribution", JDistribution [(0, PFloat 1 (-1)); (10, PFloat 3 (-2))])]].
Proof. reflexivity. Qed.

(** Two rows with a blank cell under a classifier of strings hold the one
    NaN object of pandas: their sets are equal, the rows share a record,
    and the proportion of the later row stands for the age they share. *)
Example blank_cells_share_a_record :
  ClassifierSet_eq [("species", PNaN)] [("species", PNaN)] = true /\
  to_json (add_all demo_hash demo_hash_tuple
             [(10, PFloat 1 (-1), [("species", PNaN)]);
              (10, PFloat 1 (-2), [("species", PNaN)])]
             (new_AgeDistribution None)) =
  [[("species", JSingleton PNaN);
    ("distribution", JDistribution [(10, PFloat 1 (-2))])]].
Proof. split; reflexivity. Qed.

(** Blank cells under a classifier of numbers are NaN objects of their
    own, one per row: the sets differ, and every such row has a record to
    itself. *)
Example boxed_blank_cells_stay_apart :
  ClassifierSet_eq [("zone", PNaNBoxed 1)] [("zone", PNaNBoxed 2)] = false /\
  to_json (add_all demo_hash demo_hash_tuple
             [(10, PFloat 1 (-1), [("zone", PNaNBoxed 1)]);
              (10, PFloat 1 (-2), [("zone", PNaNBoxed 2)])]
             (new_AgeDistribution None)) =
  [[("zone", JSingleton (PNaNBoxed 1));
    ("distribution", JDistribution [(10, PFloat 1 (-1))])];
   [("zone", JSingleton (PNaNBoxed 2));
    ("distribution", JDistribution [(10, PFloat 1 (-2))])]].
Proof. split; reflexivity. Qed.

(** *** The key of a row *)

Lemma classifier_set_of_keys (classifiers : list Classifier) (row_data : dict string pyval)
    (n : string) :
  n ∈ (classifier_set_of classifiers row_data).*1 <->
  (exists c, c ∈ classifiers /\ name c = n) /\ truthy (py_get n row_data) = true.
Proof.
  unfold classifier_set_of. rewrite dict_of_keys by apply String.eqb_eq.
  rewrite <- list_fmap_compose. rewrite list_elem_of_fmap. split.
  - intros (c & -> & [Ht Hc]%list_elem_of_filter). simpl. eauto.
  - intros [(c & Hc & <-) Ht]. exists c. split; [done|].
    by apply list_elem_of_filter.
Qed.

(** The key of a row depends on the cells under the classifier names
    only: not on the order of the columns, not on the other columns. *)
Lemma classifier_set_of_ext (classifiers : list Classifier)
    (row_data1 row_data2 : dict string pyval) :
  (forall c, c ∈ classifiers -> py_get (name c) row_data1 = py_get (name c) row_data2) ->
  classifier_set_of classifiers row_data1 = classifier_set_of classifiers row_data2.
Proof.
  intros Hsame. unfold classifier_set_of. f_equal.
  induction classifiers as [|c cs IH]; [done|].
  assert (py_get (name c) row_data1 = py_get (name c) row_data2) as Hc by (apply Hsame; left).
  rewrite !filter_cons, Hc.
  destruct (decide (truthy (py_get (name c) row_data2) = true)).
  - rewrite !fmap_cons, Hc. f_equal. apply IH. intros c' Hc'. apply Hsame. by right.
  - apply IH. intros c' Hc'. apply Hsame. by right.
Qed.

(** C9 (the code at a row with a blank classifier cell): the blank cell is
    NaN, NaN is true, and the classifier goes into the key with the value
    NaN; a cell holding the number zero is not blank and is left out. *)
Theorem classifier_set_keeps_blank_cell :
  let classifiers := [{| name := "species" |}; {| name := "zone" |}] in
  let row_data :=
    row_data_of ["species"; "zone"; "min_age"; "proportion"]
      [PNaN; PInt 0; PInt 10; PFloat 1 (-1)] in
  is_blank (py_get "species" row_data) = true /\
  is_blank (py_get "zone" row_data) = false /\
  classifier_set_of classifiers row_data = [("species", PNaN)].
Proof. repeat split. Qed.

(** *** Sheets without the required columns *)

Definition lacks_required_column (sheet : Sheet) : Prop :=
  "min_age" ∉ sheet_columns sheet \/ "proportion" ∉ sheet_columns sheet.

Lemma py_item_missing (key : string) (columns : list string) (row : list pyval) :
  key ∉ columns -> py_item key (row_data_of columns row) = Raise (KeyError key).
Proof.
  intros Hnot. unfold py_item, row_data_of.
  assert (dict_get String.eqb key (dict_of String.eqb (zip columns row)) = None) as ->; [|done].
  apply dict_get_None; [apply String.eqb_eq|].
  rewrite dict_of_keys by apply String.eqb_eq.
  intros ([c v] & -> & Hin)%list_elem_of_fmap. apply Hnot. simpl.
  by eapply elem_of_zip_l.
Qed.

Section MissingColumns.
Variable py_hash : pyval -> Z.
Variable hash_tuple : list Z -> Z.

Lemma add_row_missing classifiers (sheet : Sheet) distribution (row : list pyval) :
  lacks_required_column sheet ->
  exists e, add_row py_hash hash_tuple classifiers (sheet_columns sheet) distribution row
            = Raise e.
Proof.
  intros [Hage|Hprop]; unfold add_row.
  - rewrite (py_item_missing _ _ _ Hage). by eexists.
  - rewrite (py_item_missing _ _ _ Hprop).
    destruct (py_item "min_age" _) as [v|e]; simpl; [|by eexists].
    destruct (py_int v) as [z|e]; simpl; by eexists.
Qed.

Lemma add_rows_missing classifiers (sheet : Sheet) distribution :
  lacks_required_column sheet ->
  sheet_rows sheet <> [] ->
  exists e, add_rows py_hash hash_tuple classifiers (sheet_columns sheet) distribution
              (sheet_rows sheet) = Raise e.
Proof.
  intros Hlacks Hrows. destruct (sheet_rows sheet) as [|row rows]; [done|]. simpl.
  destruct (add_row_missing classifiers sheet distribution row Hlacks) as [e ->].
  by eexists.
Qed.

Lemma convert_sheets_missing (wb : Workbook) classifiers sheets (sheet_name : string)
    (types : list pyval) (sheet : Sheet) acc :
  (sheet_name, types) ∈ sheets ->
  read_excel wb sheet_name = Ok sheet ->
  lacks_required_column sheet ->
  sheet_rows sheet <> [] ->
  exists e, convert_sheets py_hash hash_tuple wb classifiers sheets acc = Raise e.
Proof.
  intros Hin Hread Hlacks Hrows. revert acc.
  induction sheets as [|[n t] sheets IH]; intros acc; [by apply elem_of_nil in Hin|].
  simpl. apply elem_of_cons in Hin as [[= <- <-]|Hin].
  - unfold convert_sheet. rewrite Hread. simpl.
    destruct (add_rows_missing classifiers sheet (new_AgeDistribution (Some types))
                Hlacks Hrows) as [e ->].
    by eexists.
  - destruct (convert_sheet _ _ _ _ _ _) as [records|e]; simpl; [|by eexists].
    by apply IH.
Qed.

(** C6, as the code has it: when a distribution sheet that has at least
    one data row lacks the [min_age] or the [proportion] column, the
    conversion raises and the file system is left as it was: no JSON file
    is written, not even for the sheets before the faulty one. *)
Theorem missing_column_aborts (age_distribution output_path : Fs.Path)
    (classifiers : list Classifier) (s : gmap Fs.Path (Fs.node content))
    (wb : Workbook) (root_sheet sheet : Sheet) (sheet_name : string) (types : list pyval) :
  Fs.read_file age_distribution s = Ok (Excel wb) ->
  read_excel wb "age_distribution" = Ok root_sheet ->
  (sheet_name, types) ∈ distribution_sheets root_sheet ->
  read_excel wb sheet_name = Ok sheet ->
  sheet_rows sheet <> [] ->
  lacks_required_column sheet ->
  exists e,
    _convert_age_distribution py_hash hash_tuple age_distribution classifiers output_path s
    = (Raise e, s).
Proof.
  intros Hfile Hroot Hin Hread Hrows Hlacks.
  unfold _convert_age_distribution. rewrite Hfile. simpl. rewrite Hroot. simpl.
  destruct (convert_sheets_missing wb classifiers (distribution_sheets root_sheet)
              sheet_name types sheet [] Hin Hread Hlacks Hrows) as [e ->].
  by eexists.
Qed.

End MissingColumns.

(** A workbook whose only distribution sheet has a header without
    [min_age] and [proportion], and no data row. *)
Definition headers_only_workbook : Workbook :=
  [("age_distribution",
    {| sheet_columns := ["fire"]; sheet_rows := [[PStr "Wildfire"]] |});
   ("fire", {| sheet_columns := ["species"]; sheet_rows := [] |})].

Definition headers_only_fs : gmap Fs.Path (Fs.node content) :=
  {[ ["ages.xlsx"] := Fs.File (Excel headers_only_workbook) ]}.

(** C6 as stated fails here: a distribution sheet lacks both columns, yet
    nothing is raised and the JSON file is written. *)
Lemma headers_only_sheet_is_converted :
  (exists sheet,
     read_excel headers_only_workbook "fire" = Ok sheet /\
     ("fire", [PStr "Wildfire"])
       ∈ distribution_sheets
           {| sheet_columns := ["fire"]; sheet_rows := [[PStr "Wildfire"]] |} /\
     lacks_required_column sheet) /\
  let run := _convert_age_distribution demo_hash demo_hash_tuple ["ages.xlsx"] []
               ["age_distribution.json"] headers_only_fs in
  run.1 = Ok tt /\
  run.2 !! ["age_distribution.json"] = Some (Fs.File (Json [])).
Proof.
  split.
  - eexists. split; [reflexivity|]. split; [left|].
    left. simpl. apply (bool_decide_unpack _). vm_compute. exact I.
  - split; vm_compute; reflexivity.
Qed.

Lemma missing_column_aborts_witness :
  let wb : Workbook :=
    [("age_distribution",
      {| sheet_columns := ["fire"]; sheet_rows := [[PStr "Wildfire"]] |});
     ("fire", {| sheet_columns := ["species"; "min_age"];
                 sheet_rows := [[PStr "pine"; PInt 0]] |})] in
  let s : gmap Fs.Path (Fs.node content) := {[ ["ages.xlsx"] := Fs.File (Excel wb) ]} in
  exists e,
    _convert_age_distribution demo_hash demo_hash_tuple ["ages.xlsx"] []
      ["age_distribution.json"] s = (Raise e, s).
Proof.
  intros wb s.
  apply (missing_column_aborts demo_hash demo_hash_tuple ["ages.xlsx"]
           ["age_distribution.json"] [] s wb
           {| sheet_columns := ["fire"]; sheet_rows := [[PStr "Wildfire"]] |}
           {| sheet_columns := ["species"; "min_age"];
              sheet_rows := [[PStr "pine"; PInt 0]] |}
           "fire" [PStr "Wildfire"]).
  - vm_compute. reflexivity.
  - reflexivity.
  - left.
  - reflexivity.
  - discriminate.
  - right. simpl. apply (bool_decide_unpack _). vm_compute. exact I.
Defined.

(** *** The order and the fields of the records *)

Section RecordOrder.
Variable py_hash : pyval -> Z.
Variable hash_tuple : list Z -> Z.

#[local] Abbreviation add_all_here := (add_all py_hash hash_tuple).
#[local] Abbreviation keyb := (key_eqb py_hash hash_tuple).

Lemma add_all_cons op ops (d : _AgeDistribution) :
  add_all_here (op :: ops) d =
  add_all_here ops (add py_hash hash_tuple op.1.1 op.1.2 (Some op.2) d).
Proof. done. Qed.

Lemma add_all_app ops1 ops2 (d : _AgeDistribution) :
  add_all_here (ops1 ++ ops2) d = add_all_here ops2 (add_all_here ops1 d).
Proof. unfold add_all. by rewrite fold_left_app. Qed.

(** The keys after a run of calls of [add]: the keys before, in their
    places, then new ones, each the classifier set of one of the calls. *)
Lemma add_all_keys ops (d : _AgeDistribution) :
  exists new,
    (distributions (add_all_here ops d)).*1 = (distributions d).*1 ++ new /\
    (length new <= length ops)%nat /\
    Forall (fun k => k ∈ ops.*2) new.
Proof.
  revert d. induction ops as [|[[a p] cs] ops IH]; intros d.
  - exists []. rewrite app_nil_r. split; [done|]. split; [done|constructor].
  - rewrite add_all_cons. cbn [fst snd].
    destruct (IH (add py_hash hash_tuple a p (Some cs) d)) as (new & Hk & Hlen & Hin).
    rewrite Hk. destruct (dict_find keyb cs (distributions d)) as [i|] eqn:E.
    + rewrite (add_keys_found py_hash hash_tuple a p cs d i E).
      exists new. split; [done|]. split; [simpl; lia|].
      eapply Forall_impl; [exact Hin|]. intros k Hk'. rewrite fmap_cons. by right.
    + rewrite add_distributions, E, fmap_app, <- app_assoc.
      exists (cs :: new). split; [done|]. split; [simpl; lia|].
      rewrite fmap_cons. constructor; [left|].
      eapply Forall_impl; [exact Hin|]. intros k Hk'. by right.
Qed.

(** The classifier sets of a run of rows, each where it is first seen: a
    set is put after the sets seen so far unless one of them is found
    under it. *)
Definition first_seen (sets seen : list _ClassifierSet) : list _ClassifierSet :=
  fold_left (fun seen cs => if existsb (fun k => keyb k cs) seen then seen else seen ++ [cs])
    sets seen.

Lemma existsb_dict_find (cs : _ClassifierSet) (d : dict _ClassifierSet (dict Z pyval)) :
  existsb (fun k => keyb k cs) d.*1 = bool_decide (is_Some (dict_find keyb cs d)).
Proof.
  induction d as [|[k props] d IH]; [done|]. rewrite fmap_cons.
  cbn [existsb dict_find fst]. destruct (keyb k cs); cbn [orb].
  - rewrite bool_decide_true; [done|by eexists].
  - rewrite IH. apply bool_decide_ext. by rewrite fmap_is_Some.
Qed.

Lemma add_all_first_seen ops (d : _AgeDistribution) :
  (distributions (add_all_here ops d)).*1 = first_seen ops.*2 (distributions d).*1.
Proof.
  revert d. induction ops as [|[[a p] cs] ops IH]; intros d; [done|].
  rewrite add_all_cons, IH. cbn [fst snd fmap list_fmap first_seen fold_left].
  f_equal. rewrite existsb_dict_find.
  destruct (dict_find keyb cs (distributions d)) as [i|] eqn:E.
  - rewrite bool_decide_true by by eexists.
    by apply (add_keys_found py_hash hash_tuple a p cs d i).
  - rewrite bool_decide_false by by intros [? [=]].
    by rewrite add_distributions, E, fmap_app.
Qed.

(** A record keeps its place, its key and the ages it has. *)
Lemma add_keeps_age (a a' : Z) (p' : pyval) (cs' k : _ClassifierSet) (props : dict Z pyval)
    (d : _AgeDistribution) (i : nat) :
  distributions d !! i = Some (k, props) -> a ∈ props.*1 ->
  exists props',
    distributions (add py_hash hash_tuple a' p' (Some cs') d) !! i = Some (k, props') /\
    a ∈ props'.*1.
Proof.
  intros Hl Ha. rewrite add_distributions.
  destruct (dict_find keyb cs' (distributions d)) as [j|] eqn:E.
  - destruct (decide (j = i)) as [->|Hne].
    + exists (dict_set Z.eqb a' p' props). split.
      * by rewrite list_lookup_alter_eq, Hl.
      * rewrite dict_set_keys. destruct (dict_find Z.eqb a' props); [done|].
        apply elem_of_app. by left.
    + exists props. split; [|done]. by rewrite list_lookup_alter_ne.
  - exists props. split; [|done]. rewrite lookup_app_l; [done|].
    by eapply lookup_lt_Some.
Qed.

Lemma add_all_keeps_age (a : Z) (k : _ClassifierSet) ops :
  forall (d : _AgeDistribution) (i : nat) (props : dict Z pyval),
  distributions d !! i = Some (k, props) -> a ∈ props.*1 ->
  exists props',
    distributions (add_all_here ops d) !! i = Some (k, props') /\ a ∈ props'.*1.
Proof.
  induction ops as [|[[a' p'] cs'] ops IH]; intros d i props Hl Ha.
  - by exists props.
  - rewrite add_all_cons. cbn [fst snd].
    destruct (add_keeps_age a a' p' cs' k props d i Hl Ha) as (props' & Hl' & Ha').
    by apply (IH _ _ props').
Qed.

(** Every row has its record. *)
Lemma add_all_covers ops (d : _AgeDistribution) (a : Z) (p : pyval) (cs : _ClassifierSet) :
  (a, p, cs) ∈ ops ->
  exists i k props,
    distributions (add_all_here ops d) !! i = Some (k, props) /\
    (k = cs \/ keyb k cs = true) /\ a ∈ props.*1.
Proof.
  intros (ops1 & ops2 & ->)%list_elem_of_split. rewrite add_all_app, add_all_cons.
  cbn [fst snd]. set (d0 := add_all_here ops1 d).
  destruct (add_puts py_hash hash_tuple a p cs d0) as (i & k & props & Hl & Hk & Hget & _).
  assert (a ∈ props.*1) as Ha.
  { apply dict_get_Some in Hget as (a' & Hin & ->%Z.eqb_eq).
    apply list_elem_of_fmap. by exists (a, p). }
  destruct (add_all_keeps_age a k ops2 _ i props Hl Ha) as (props' & Hl' & Ha').
  by exists i, k, props'.
Qed.

Lemma keyb_sym (k1 k2 : _ClassifierSet) : keyb k1 k2 = true -> keyb k2 k1 = true.
Proof.
  unfold key_eqb. rewrite !andb_true_iff, !Z.eqb_eq. intros [Hh He].
  split; [done|by apply ClassifierSet_eq_sym].
Qed.

(** X1: [to_json] gives one record per distinct classifier set, in the
    order in which the sets were first added.  The keys of the records are
    the sets of the rows, each where it is first seen; every row has a
    record under its own set or under one its set is found at, and that
    record has the age of the row; no key is found at another; and rows
    added later leave the records there are in their places and append
    records for sets of their own only. *)
Theorem records_in_first_seen_order (types : option (list pyval))
    (ops1 ops2 : list (Z * pyval * _ClassifierSet)) :
  let d1 := add_all_here ops1 (new_AgeDistribution types) in
  let d2 := add_all_here (ops1 ++ ops2) (new_AgeDistribution types) in
  (distributions d2).*1 = first_seen (ops1 ++ ops2).*2 [] /\
  (forall a p cs, (a, p, cs) ∈ ops1 ++ ops2 ->
     exists i k props,
       distributions d2 !! i = Some (k, props) /\
       (k = cs \/ keyb k cs = true) /\ a ∈ props.*1) /\
  (forall i j ki kj pi pj,
     i <> j ->
     distributions d2 !! i = Some (ki, pi) ->
     distributions d2 !! j = Some (kj, pj) ->
     keyb ki kj = false) /\
  (exists new,
     (distributions d2).*1 = (distributions d1).*1 ++ new /\
     Forall (fun k => k ∈ ops2.*2) new) /\
  length (to_json d2) = length (distributions d2) /\
  (forall i k props, distributions d2 !! i = Some (k, props) ->
     to_json d2 !! i = Some (distribution_json types k props)).
Proof.
  intros d1 d2. split; [|split; [|split; [|split; [|split]]]].
  - subst d2. by rewrite add_all_first_seen.
  - intros a p cs Hin. by apply (add_all_covers _ _ a p cs).
  - assert (keys_apart py_hash hash_tuple d2) as Hapart.
    { apply add_all_keys_apart. intros i j ki kj pi pj _ Hi. simpl in Hi.
      by rewrite lookup_nil in Hi. }
    intros i j ki kj pi pj Hne Hi Hj.
    destruct (decide (i < j)%nat) as [Hlt|Hge]; [by eapply Hapart|].
    destruct (keyb ki kj) eqn:E; [|done]. apply keyb_sym in E.
    assert (j < i)%nat as Hlt by lia.
    by rewrite (Hapart j i kj ki pj pi Hlt Hj Hi) in E.
  - subst d2. rewrite add_all_app. fold d1.
    destruct (add_all_keys ops2 d1) as (new & Hk & _ & Hin). by exists new.
  - unfold to_json. by rewrite length_fmap.
  - intros i k props Hl. unfold to_json. rewrite list_lookup_fmap, Hl. simpl.
    subst d2. by rewrite !add_all_disturbance_types.
Qed.

End RecordOrder.

(** Three rows, the third with the set of the first in another order: two
    records, the set of the first row before the set of the second. *)
Example first_seen_demo :
  first_seen demo_hash demo_hash_tuple
    [demo_cs1; [("species", PStr "fir")]; demo_cs2] [] =
  [demo_cs1; [("species", PStr "fir")]].
Proof. reflexivity. Qed.

(** The classifier fields of a record, as one run of assignments. *)
Lemma distribution_json_fields (classifier_set : _ClassifierSet) (d : dict string jval) :
  fold_left (fun d (kv : string * pyval) => dict_set String.eqb kv.1 (JSingleton kv.2) d)
    classifier_set d =
  fold_left (fun d (kv : string * jval) => dict_set String.eqb kv.1 kv.2 d)
    ((fun kv : string * pyval => (kv.1, JSingleton kv.2)) <$> classifier_set) d.
Proof.
  revert d. induction classifier_set as [|kv cs IH]; intros d; [done|]. simpl. by rewrite IH.
Qed.

(** X2: the fields of a record.  A classifier of the set has its value, as
    a list of one element, under its name, unless it is named
    [distribution]; the field [distribution] always holds the sorted
    pairs; the field [disturbance_type] holds the disturbance types when
    there are some and no classifier has that name (a classifier named
    [disturbance_type] takes the field over); and there is no other
    field. *)
Theorem record_fields (types : option (list pyval)) (classifier_set : _ClassifierSet)
    (proportions : dict Z pyval) :
  NoDup classifier_set.*1 ->
  let record := distribution_json types classifier_set proportions in
  (forall n v, (n, v) ∈ classifier_set -> n <> "distribution" ->
     dict_get String.eqb n record = Some (JSingleton v)) /\
  dict_get String.eqb "distribution" record =
    Some (JDistribution (sorted (fun ap1 ap2 : Z * pyval => ap1.1 <=? ap2.1) proportions)) /\
  ("disturbance_type" ∉ classifier_set.*1 ->
   dict_get String.eqb "disturbance_type" record =
     match types with
     | Some (t :: ts) => Some (JTypes (t :: ts))
     | _ => None
     end) /\
  (forall n, n ∈ record.*1 ->
     n = "distribution" \/ n ∈ classifier_set.*1 \/
     (n = "disturbance_type" /\ exists t ts, types = Some (t :: ts))).
Proof.
  intros Hnd record. subst record. unfold distribution_json.
  set (d0 := match types with
             | Some (t :: ts) => dict_set String.eqb "disturbance_type" (JTypes (t :: ts)) []
             | _ => []
             end).
  rewrite distribution_json_fields.
  set (pairs := (fun kv : string * pyval => (kv.1, JSingleton kv.2)) <$> classifier_set).
  assert (pairs.*1 = classifier_set.*1) as Hkeys.
  { subst pairs. rewrite <- list_fmap_compose. done. }
  split; [|split; [|split]].
  - intros n v Hin Hne.
    rewrite dict_get_set_ne; [|apply String.eqb_eq|done].
    apply assign_in; [apply String.eqb_eq|by rewrite Hkeys|].
    subst pairs. apply list_elem_of_fmap. by exists (n, v).
  - apply dict_get_set_eq. apply String.eqb_eq.
  - intros Hnot. rewrite dict_get_set_ne; [|apply String.eqb_eq|done].
    rewrite assign_notin; [|apply String.eqb_eq|by rewrite Hkeys].
    subst d0. by destruct types as [[|t ts]|].
  - intros n. rewrite dict_set_keys.
    assert (n ∈ (fold_left (fun d (kv : string * jval) => dict_set String.eqb kv.1 kv.2 d)
                   pairs d0).*1 ->
            n ∈ classifier_set.*1 \/
            (n = "disturbance_type" /\ exists t ts, types = Some (t :: ts))) as Hfields.
    { rewrite assign_keys by apply String.eqb_eq. rewrite Hkeys.
      intros [Hin|Hin]; [|by left]. right. subst d0.
      destruct types as [[|t ts]|]; simpl in Hin; try by apply elem_of_nil in Hin.
      apply list_elem_of_singleton in Hin. eauto. }
    destruct (dict_find _ _ _).
    + intros Hin. right. by apply Hfields.
    + rewrite elem_of_app, list_elem_of_singleton. intros [Hin | ->]; [right|by left].
      by apply Hfields.
Qed.

Lemma record_fields_witness :
  NoDup demo_cs1.*1 /\
  dict_get String.eqb "species"
    (distribution_json (Some [PStr "Wildfire"]) demo_cs1 [(10, PFloat 1 (-2))])
  = Some (JSingleton (PStr "pine")).
Proof.
  assert (NoDup demo_cs1.*1) as Hnd.
  { apply (bool_decide_unpack _). vm_compute. exact I. }
  split; [exact Hnd|].
  destruct (record_fields (Some [PStr "Wildfire"]) demo_cs1 [(10, PFloat 1 (-2))] Hnd)
    as [Hfield _].
  apply Hfield; [left|discriminate].
Defined.

(** *** The sheets named by the root sheet *)

Lemma imap_keys {A B} (f : nat -> A -> B) (l : list A) :
  (imap (fun j a => (a, f j a)) l).*1 = l.
Proof.
  apply list_eq. intros i. rewrite list_lookup_fmap, list_lookup_imap.
  by destruct (l !! i).
Qed.

(** X3: the root sheet gives one sheet to convert per column, under the
    name of the column, and a disturbance type listed for it is never a
    blank cell, None, an empty string or zero; with distinct column names
    the sheets come in the order of the columns, each with the non-blank
    cells of its column from top to bottom. *)
Theorem distribution_sheets_skip_blank_cells (root_sheet : Sheet) :
  let sheets := distribution_sheets root_sheet in
  NoDup sheets.*1 /\
  (forall n, n ∈ sheets.*1 <-> n ∈ sheet_columns root_sheet) /\
  Forall (fun st : string * list pyval =>
            Forall (fun t => truthy t = true /\ is_blank t = false /\ t <> PNone) st.2)
    sheets /\
  (NoDup (sheet_columns root_sheet) ->
   sheets =
     imap (fun j n =>
             (n, filter (fun v => truthy v = true)
                   (nan_to_none <$> column_values j (sheet_rows root_sheet))))
       (sheet_columns root_sheet)).
Proof.
  intros sheets. subst sheets. unfold distribution_sheets.
  split; [apply dict_of_NoDup, String.eqb_eq|]. split; [|split].
  - intros n. rewrite dict_of_keys by apply String.eqb_eq. by rewrite imap_keys.
  - apply Forall_forall. intros [n types] Hin.
    apply (assign_elem String.eqb String.eqb_eq) in Hin as [Hin|Hin];
      [by apply elem_of_nil in Hin|].
    apply list_elem_of_lookup in Hin as [j Hj]. rewrite list_lookup_imap in Hj.
    destruct (sheet_columns root_sheet !! j) as [n'|]; [|done]. injection Hj as <- <-.
    simpl. apply Forall_forall. intros t [Ht Hin]%list_elem_of_filter.
    split; [done|]. apply list_elem_of_fmap in Hin as (c & -> & _).
    destruct c; simpl in *; done.
  - intros Hnd. apply dict_of_NoDup_id; [apply String.eqb_eq|]. by rewrite imap_keys.
Qed.


(** *** Equality and hash of classifier sets *)

(** X4: [_ClassifierSet] keeps Python's rule for keys: two sets that
    compare equal hash alike, provided [hash] keeps that rule on the
    values; and [==] between sets is symmetric and transitive. *)
Theorem ClassifierSet_hash_respects_eq (py_hash : pyval -> Z) (hash_tuple : list Z -> Z)
    (k1 k2 : _ClassifierSet) :
  (forall v1 v2, py_eq v1 v2 = true -> py_hash v1 = py_hash v2) ->
  ClassifierSet_eq k1 k2 = true ->
  ClassifierSet_hash py_hash hash_tuple k1 = ClassifierSet_hash py_hash hash_tuple k2 /\
  ClassifierSet_eq k2 k1 = true /\
  (forall k3, ClassifierSet_eq k2 k3 = true -> ClassifierSet_eq k1 k3 = true).
Proof.
  intros Hhash Heq. split; [|split].
  - unfold ClassifierSet_hash. f_equal. apply hash_Forall2; [done|].
    by apply items_eq_Forall2.
  - by apply ClassifierSet_eq_sym.
  - intros k3. by apply ClassifierSet_eq_trans.
Qed.

Lemma ClassifierSet_hash_respects_eq_witness :
  ClassifierSet_eq demo_cs1 demo_cs2 = true /\
  ClassifierSet_hash demo_hash demo_hash_tuple demo_cs1 =
    ClassifierSet_hash demo_hash demo_hash_tuple demo_cs2.
Proof.
  split; [reflexivity|].
  apply (ClassifierSet_hash_respects_eq demo_hash demo_hash_tuple demo_cs1 demo_cs2);
    reflexivity.
Defined.

(** *** The key of a row, from the cells *)

Lemma zip_elem_lookup {A B} (l1 : list A) (l2 : list B) (a : A) (b : B) :
  (a, b) ∈ zip l1 l2 <-> exists j, l1 !! j = Some a /\ l2 !! j = Some b.
Proof.
  rewrite list_elem_of_lookup. split.
  - intros [j Hj]. exists j. apply lookup_zip_with_Some in Hj as (x & y & [= -> ->] & H1 & H2).
    done.
  - intros (j & H1 & H2). exists j. apply lookup_zip_with_Some. by exists a, b.
Qed.

(** With distinct column names, a cell is found under the name of its
    column. *)
Lemma row_data_of_get (columns : list string) (row : list pyval) (n : string) (v : pyval) :
  NoDup columns ->
  dict_get String.eqb n (row_data_of columns row) = Some v <->
  exists j, columns !! j = Some n /\ row !! j = Some v.
Proof.
  intros Hnd. unfold row_data_of.
  rewrite dict_get_elem; [|apply String.eqb_eq|apply dict_of_NoDup, String.eqb_eq].
  rewrite dict_of_elem; [apply zip_elem_lookup|apply String.eqb_eq|].
  intros v1 v2 (j1 & Hc1 & Hr1)%zip_elem_lookup (j2 & Hc2 & Hr2)%zip_elem_lookup.
  assert (j1 = j2) as -> by by eapply NoDup_lookup. congruence.
Qed.

(** X5: the key of a row, read off the sheet.  With distinct column names,
    the key holds the pair of a name and a value exactly when the name is
    the name of a configured classifier, the row has that value in the
    column of that name, and the value is true; columns that are no
    classifier, and the order of the columns, play no part. *)
Theorem classifier_set_from_cells (classifiers : list Classifier) (columns : list string)
    (row : list pyval) (n : string) (v : pyval) :
  NoDup columns ->
  (n, v) ∈ classifier_set_of classifiers (row_data_of columns row) <->
  (exists c, c ∈ classifiers /\ name c = n) /\
  truthy v = true /\
  exists j, columns !! j = Some n /\ row !! j = Some v.
Proof.
  intros Hnd. unfold classifier_set_of.
  set (row_data := row_data_of columns row).
  rewrite dict_of_elem; [|apply String.eqb_eq|].
  2:{ intros v1 v2 (c1 & [= E1 ->] & _)%list_elem_of_fmap
        (c2 & [= E2 ->] & _)%list_elem_of_fmap.
      by rewrite <- E1, <- E2. }
  rewrite list_elem_of_fmap. split.
  - intros (c & [= -> ->] & [Ht Hc]%list_elem_of_filter).
    split; [by exists c|]. split; [done|].
    apply row_data_of_get; [done|]. fold row_data. unfold py_get in *.
    destruct (dict_get String.eqb (name c) row_data); [done|]. done.
  - intros ((c & Hc & <-) & Ht & Hcell). apply row_data_of_get in Hcell; [|done].
    fold row_data in Hcell.
    assert (py_get (name c) row_data = v) as Hget by (unfold py_get; by rewrite Hcell).
    exists c. split; [by rewrite Hget|]. apply list_elem_of_filter. by rewrite Hget.
Qed.

Lemma classifier_set_from_cells_witness :
  NoDup ["zone"; "species"; "min_age"; "proportion"] /\
  ("species", PStr "pine")
    ∈ classifier_set_of [{| name := "species" |}]
        (row_data_of ["zone"; "species"; "min_age"; "proportion"]
           [PStr "north"; PStr "pine"; PInt 10; PFloat 1 (-1)]).
Proof.
  assert (NoDup ["zone"; "species"; "min_age"; "proportion"]) as Hnd.
  { apply (bool_decide_unpack _). vm_compute. exact I. }
  split; [exact Hnd|].
  apply (classifier_set_from_cells [{| name := "species" |}]
           ["zone"; "species"; "min_age"; "proportion"]
           [PStr "north"; PStr "pine"; PInt 10; PFloat 1 (-1)] "species" (PStr "pine") Hnd).
  split; [exists {| name := "species" |}; split; [left|reflexivity]|].
  split; [reflexivity|]. exists 1%nat. split; reflexivity.
Defined.

(** *** Sheets and rows that cannot be read *)

(** A value [int] raises on, however the digits of a number may be
    spelled: None, a NaN, a text without a digit. *)
Definition unreadable (v : pyval) : bool :=
  match v with
  | PNone | PNaN | PNaNBoxed _ => true
  | PStr s => no_digit s
  | PInt _ | PFloat _ _ => false
  end.

Lemma py_int_unreadable (v : pyval) : unreadable v = true -> is_ok (py_int v) = false.
Proof.
  destruct v as [| | |s| |]; try done. simpl. intros H.
  by rewrite (int_of_str_no_digit s H).
Qed.

(** A row without a [min_age] cell, or whose [min_age] cell is blank, None
    or a text without a digit. *)
Definition unreadable_age (columns : list string) (row : list pyval) : Prop :=
  unreadable (py_get "min_age" (row_data_of columns row)) = true.

(** A sheet that is not in the workbook, or that has such a row. *)
Definition faulty_sheet (wb : Workbook) (sheet_name : string) : Prop :=
  match read_excel wb sheet_name with
  | Raise _ => True
  | Ok sheet => exists row, row ∈ sheet_rows sheet /\ unreadable_age (sheet_columns sheet) row
  end.

Section FaultySheets.
Variable py_hash : pyval -> Z.
Variable hash_tuple : list Z -> Z.

Lemma add_row_unreadable classifiers columns distribution (row : list pyval) :
  unreadable_age columns row ->
  exists e, add_row py_hash hash_tuple classifiers columns distribution row = Raise e.
Proof.
  unfold unreadable_age, add_row, py_item, py_get. intros Hrow.
  destruct (dict_get String.eqb "min_age" (row_data_of columns row)) as [v|]; simpl in *.
  - apply py_int_unreadable in Hrow. destruct (py_int v) as [z|e]; [done|]. by eexists.
  - by eexists.
Qed.

Lemma add_rows_unreadable classifiers columns (rows : list (list pyval)) (row : list pyval) :
  row ∈ rows -> unreadable_age columns row ->
  forall distribution,
    exists e, add_rows py_hash hash_tuple classifiers columns distribution rows = Raise e.
Proof.
  intros Hin Hrow. induction rows as [|r rows IH]; intros distribution;
    [by apply elem_of_nil in Hin|]. simpl.
  apply elem_of_cons in Hin as [<-|Hin].
  - destruct (add_row_unreadable classifiers columns distribution row Hrow) as [e ->].
    by eexists.
  - destruct (add_row _ _ _ _ _ _) as [d'|e]; simpl; [by apply IH|by eexists].
Qed.

Lemma convert_sheet_faulty (wb : Workbook) classifiers (sheet_name : string) types :
  faulty_sheet wb sheet_name ->
  exists e, convert_sheet py_hash hash_tuple wb classifiers sheet_name types = Raise e.
Proof.
  unfold faulty_sheet, convert_sheet.
  destruct (read_excel wb sheet_name) as [sheet|e]; simpl; [|by eexists].
  intros (row & Hin & Hrow).
  destruct (add_rows_unreadable classifiers (sheet_columns sheet) (sheet_rows sheet) row
              Hin Hrow (new_AgeDistribution (Some types))) as [e ->].
  by eexists.
Qed.

Lemma convert_sheets_faulty (wb : Workbook) classifiers sheets (sheet_name : string) acc :
  sheet_name ∈ sheets.*1 -> faulty_sheet wb sheet_name ->
  exists e, convert_sheets py_hash hash_tuple wb classifiers sheets acc = Raise e.
Proof.
  intros Hin Hfaulty. revert acc.
  induction sheets as [|[n t] sheets IH]; intros acc; [by apply elem_of_nil in Hin|].
  simpl. rewrite fmap_cons in Hin. apply elem_of_cons in Hin as [Hn|Hin].
  - simpl in Hn. subst n. destruct (convert_sheet_faulty wb classifiers sheet_name t Hfaulty) as [e ->].
    by eexists.
  - destruct (convert_sheet _ _ _ _ _ _) as [records|e]; simpl; [|by eexists].
    by apply IH.
Qed.

(** X6: a column of the root sheet that names a sheet the workbook does
    not have, or a sheet with a row whose [min_age] cell is missing, blank,
    None or a text without a digit, makes the conversion raise, and the
    file system is left as it was: the records of the other sheets are not
    written either. *)
Theorem faulty_sheet_aborts (age_distribution output_path : Fs.Path)
    (classifiers : list Classifier) (s : gmap Fs.Path (Fs.node content))
    (wb : Workbook) (root_sheet : Sheet) (sheet_name : string) :
  Fs.read_file age_distribution s = Ok (Excel wb) ->
  read_excel wb "age_distribution" = Ok root_sheet ->
  sheet_name ∈ sheet_columns root_sheet ->
  faulty_sheet wb sheet_name ->
  exists e,
    _convert_age_distribution py_hash hash_tuple age_distribution classifiers output_path s
    = (Raise e, s).
Proof.
  intros Hfile Hroot Hin Hfaulty.
  unfold _convert_age_distribution. rewrite Hfile. simpl. rewrite Hroot. simpl.
  destruct (convert_sheets_faulty wb classifiers (distribution_sheets root_sheet)
              sheet_name [] ) as [e ->]; [|done|by eexists].
  unfold distribution_sheets. rewrite dict_of_keys by apply String.eqb_eq.
  by rewrite imap_keys.
Qed.

(** What a conversion that returns has written. *)
Lemma convert_sheets_Ok (wb : Workbook) classifiers sheets acc out :
  convert_sheets py_hash hash_tuple wb classifiers sheets acc = Ok out ->
  exists records,
    Forall2 (fun (st : string * list pyval) recs =>
               convert_sheet py_hash hash_tuple wb classifiers st.1 st.2 = Ok recs)
      sheets records /\
    out = acc ++ concat records.
Proof.
  revert acc. induction sheets as [|[n t] sheets IH]; intros acc; simpl.
  - intros [= <-]. exists []. split; [constructor|]. by rewrite app_nil_r.
  - destruct (convert_sheet _ _ _ _ n t) as [recs|e] eqn:E; simpl; [|done].
    intros (records & Hall & ->)%IH. exists (recs :: records). split.
    + by constructor.
    + simpl. by rewrite <- app_assoc.
Qed.

(** X7: a conversion that returns has read a workbook, converted every
    sheet the root sheet names, and written one JSON document that lists
    the records sheet by sheet, in the order of the columns of the root
    sheet; the output file is the only path of the file system that
    changed. *)
Theorem conversion_writes_sheets_in_order (age_distribution output_path : Fs.Path)
    (classifiers : list Classifier) (s s' : gmap Fs.Path (Fs.node content)) :
  _convert_age_distribution py_hash hash_tuple age_distribution classifiers output_path s
    = (Ok tt, s') ->
  exists wb root_sheet records,
    Fs.read_file age_distribution s = Ok (Excel wb) /\
    read_excel wb "age_distribution" = Ok root_sheet /\
    Forall2 (fun (st : string * list pyval) recs =>
               convert_sheet py_hash hash_tuple wb classifiers st.1 st.2 = Ok recs)
      (distribution_sheets root_sheet) records /\
    s' = <[output_path := Fs.File (Json (concat records))]> s /\
    (forall p, p <> output_path -> s' !! p = s !! p).
Proof.
  unfold _convert_age_distribution.
  destruct (Fs.read_file age_distribution s) as [[wb|doc]|e] eqn:Efile; simpl; try done.
  destruct (read_excel wb "age_distribution") as [root_sheet|e] eqn:Eroot; simpl; [|done].
  destruct (convert_sheets _ _ _ _ _ _) as [out|e] eqn:Esheets; [|done].
  apply convert_sheets_Ok in Esheets as (records & Hall & ->). simpl.
  unfold Fs.write_file.
  destruct (negb _); [done|]. destruct (Fs.is_dir s output_path); [done|].
  intros [= <-]. exists wb, root_sheet, records.
  split; [done|]. split; [done|]. split; [done|]. split; [done|].
  intros p Hne. by rewrite lookup_insert_ne.
Qed.

End FaultySheets.

(** A workbook with one sheet of two rows; the second row has no
    [min_age]. *)
Definition blank_age_workbook : Workbook :=
  [("age_distribution",
    {| sheet_columns := ["fire"]; sheet_rows := [[PStr "Wildfire"]] |});
   ("fire", {| sheet_columns := ["species"; "min_age"; "proportion"];
               sheet_rows := [[PStr "pine"; PFloat 0 0; PFloat 1 (-1)];
                              [PStr "pine"; PNaNBoxed 1; PFloat 1 (-1)]] |})].

Lemma faulty_sheet_aborts_witness :
  let s : gmap Fs.Path (Fs.node content) :=
    {[ ["ages.xlsx"] := Fs.File (Excel blank_age_workbook) ]} in
  faulty_sheet blank_age_workbook "fire" /\
  exists e,
    _convert_age_distribution demo_hash demo_hash_tuple ["ages.xlsx"] []
      ["age_distribution.json"] s = (Raise e, s).
Proof.
  intros s.
  assert (faulty_sheet blank_age_workbook "fire") as Hfaulty.
  { exists [PStr "pine"; PNaNBoxed 1; PFloat 1 (-1)]. split; [right; left|reflexivity]. }
  split; [exact Hfaulty|].
  apply (faulty_sheet_aborts demo_hash demo_hash_tuple ["ages.xlsx"]
           ["age_distribution.json"] [] s blank_age_workbook
           {| sheet_columns := ["fire"]; sheet_rows := [[PStr "Wildfire"]] |} "fire").
  - unfold Fs.read_file, s. by rewrite lookup_singleton_eq.
  - reflexivity.
  - left.
  - exact Hfaulty.
Defined.

(** A workbook with two distribution sheets.  In the first, two rows have
    a blank species cell and share a record; its third row has a species.
    The age of the last row of the second sheet is spelled with spaces. *)
Definition two_sheet_workbook : Workbook :=
  [("age_distribution",
    {| sheet_columns := ["fire"; "harvest"];
       sheet_rows := [[PStr "Wildfire"; PStr "Clearcut"]] |});
   ("fire", {| sheet_columns := ["species"; "min_age"; "proportion"];
               sheet_rows := [[PNaN; PInt 10; PFloat 1 (-1)];
                              [PNaN; PInt 0; PFloat 1 (-2)];
                              [PStr "pine"; PInt 0; PFloat 1 0]] |});
   ("harvest", {| sheet_columns := ["species"; "min_age"; "proportion"];
                  sheet_rows := [[PStr "fir"; PStr " 20 "; PFloat 1 0]] |})].

Definition two_sheet_fs : gmap Fs.Path (Fs.node content) :=
  {[ ["ages.xlsx"] := Fs.File (Excel two_sheet_workbook) ]}.

Definition two_sheet_document : list (dict string jval) :=
  [[("disturbance_type", JTypes [PStr "Wildfire"]);
    ("species", JSingleton PNaN);
    ("distribution", JDistribution [(0, PFloat 1 (-2)); (10, PFloat 1 (-1))])];
   [("disturbance_type", JTypes [PStr "Wildfire"]);
    ("species", JSingleton (PStr "pine"));
    ("distribution", JDistribution [(0, PFloat 1 0)])];
   [("disturbance_type", JTypes [PStr "Clearcut"]);
    ("species", JSingleton (PStr "fir"));
    ("distribution", JDistribution [(20, PFloat 1 0)])]].

Lemma two_sheet_run :
  (_convert_age_distribution demo_hash demo_hash_tuple ["ages.xlsx"]
     [{| name := "species" |}] ["age_distribution.json"] two_sheet_fs).1 = Ok tt.
Proof. vm_compute. reflexivity. Qed.

Lemma conversion_writes_sheets_in_order_witness :
  (_convert_age_distribution demo_hash demo_hash_tuple ["ages.xlsx"]
     [{| name := "species" |}] ["age_distribution.json"] two_sheet_fs).2
  = <[["age_distribution.json"] := Fs.File (Json two_sheet_document)]> two_sheet_fs.
Proof.
  destruct (_convert_age_distribution demo_hash demo_hash_tuple ["ages.xlsx"]
              [{| name := "species" |}] ["age_distribution.json"] two_sheet_fs)
    as [[[]|e] s'] eqn:E.
  - destruct (conversion_writes_sheets_in_order demo_hash demo_hash_tuple ["ages.xlsx"]
                ["age_distribution.json"] [{| name := "species" |}] two_sheet_fs s' E)
      as (wb & root_sheet & records & Hfile & Hroot & Hall & Hs' & _).
    unfold Fs.read_file, two_sheet_fs in Hfile. rewrite lookup_singleton_eq in Hfile.
    injection Hfile as <-. injection Hroot as <-.
    apply Forall2_cons_inv_l in Hall as (fire & rest & Hfire & Hall & ->).
    apply Forall2_cons_inv_l in Hall as (harvest & rest' & Hharvest & Hall & ->).
    apply Forall2_nil_inv_l in Hall as ->.
    injection Hfire as <-. injection Hharvest as <-. cbn [snd]. rewrite Hs'. reflexivity.
  - exfalso. pose proof two_sheet_run as Hok.
    rewrite E in Hok. discriminate Hok.
Defined.

End Rollback.

(** ** projectconverter.py: pandas frames and the relational extraction *)

Module ProjectConverter.

(** A column label: a string, or an integer (the ages of a growth curve
    become column labels under [pivot]). *)
Inductive label :=
  | LStr (s : string)
  | LInt (z : Z).

#[global] Instance label_eq_dec : EqDecision label.
Proof. solve_decision. Defined.

(** [label != ""] *)
Definition label_nonempty (l : label) : bool :=
  match l with
  | LStr s => negb (String.eqb s "")
  | LInt _ => true
  end.

(** [columns.get_level_values(level)] of two-level column labels. *)
Definition get_level_values (level : nat) (columns : list (label * label)) : list label :=
  match level with
  | O => fst <$> columns
  | _ => snd <$> columns
  end.

(** The list comprehension of [_flatten_pivot_columns], over
    [range(len(pivot_data.columns))]. *)
Definition _flatten_pivot_columns (columns : list (label * label)) : list label :=
  (fun i =>
     if label_nonempty (nth i (get_level_values 1 columns) (LStr ""))
     then nth i (get_level_values 1 columns) (LStr "")
     else nth i (get_level_values 0 columns) (LStr ""))
  <$> seq 0 (length columns).

(** A DataFrame: the names of the index levels, the column labels, and the
    rows, each with its index tuple and its cells. *)
Record DataFrame (L : Type) := {
  index_names : list string;
  columns : list L;
  rows : list (list pyval * list pyval)
}.
Arguments index_names {L} _.
Arguments columns {L} _.
Arguments rows {L} _.

(** The order pandas sorts index values and labels by.  Integers compare by
    value and strings by code point; the other cases do not arise for the
    keys of the queries below and are ordered by kind. *)
Definition pyval_rank (v : pyval) : Z :=
  match v with
  | PNone => 0 | PNaN | PNaNBoxed _ => 1 | PInt _ => 2 | PFloat _ _ => 3 | PStr _ => 4
  end.

Definition pyval_leb (v1 v2 : pyval) : bool :=
  match v1, v2 with
  | PInt z1, PInt z2 => z1 <=? z2
  | PStr s1, PStr s2 => String.leb s1 s2
  | _, _ => pyval_rank v1 <=? pyval_rank v2
  end.

Fixpoint tuple_leb (t1 t2 : list pyval) : bool :=
  match t1, t2 with
  | [], _ => true
  | _ :: _, [] => false
  | v1 :: t1', v2 :: t2' =>
      if bool_decide (v1 = v2) then tuple_leb t1' t2' else pyval_leb v1 v2
  end.

Definition label_leb (l1 l2 : label) : bool :=
  match l1, l2 with
  | LInt z1, LInt z2 => z1 <=? z2
  | LStr s1, LStr s2 => String.leb s1 s2
  | LInt _, LStr _ => true
  | LStr _, LInt _ => false
  end.

(** The distinct values of a list, in sorted order. *)
Definition sorted_unique {A} `{EqDecision A} (leb : A -> A -> bool) (l : list A) : list A :=
  foldr (fun x acc => if bool_decide (x ∈ acc) then acc else sorted_insert leb x acc) [] l.

(** The cell of a pivot at an index value and a column value. *)
Definition pivot_cell (data : list (list pyval * label * pyval)) (i : list pyval) (c : label)
    : pyval :=
  match List.find (fun r => bool_decide (r.1.1 = i /\ r.1.2 = c)) data with
  | Some r => r.2
  | None => PNaN
  end.

(** [DataFrame.pivot(index=..., columns=...)] with one remaining value
    column: sorted distinct index values, sorted distinct column values
    under the name of the value column, NaN where a combination has no row,
    and an error when a combination has more than one. *)
Definition pivot (index : list string) (value_name : string)
    (data : list (list pyval * label * pyval)) : result (DataFrame (label * label)) :=
  if bool_decide (NoDup ((fun r => r.1) <$> data)) then
    let idx := sorted_unique tuple_leb ((fun r => r.1.1) <$> data) in
    let cols := sorted_unique label_leb ((fun r => r.1.2) <$> data) in
    Ok {| index_names := index;
          columns := (fun c => (LStr value_name, c)) <$> cols;
          rows := (fun i => (i, pivot_cell data i <$> cols)) <$> idx |}
  else Raise (ValueError "Index contains duplicate entries, cannot reshape").

(** [DataFrame.reset_index()]: the index levels become the first columns
    ([mk] makes a column label of a level name) and the rows are numbered. *)
Definition reset_index {L} `{EqDecision L} (mk : string -> L) (df : DataFrame L)
    : result (DataFrame L) :=
  if bool_decide (Exists (fun n => mk n ∈ columns df) (index_names df)) then
    Raise (ValueError "cannot insert, already exists")
  else
    Ok {| index_names := [];
          columns := (mk <$> index_names df) ++ columns df;
          rows := imap (fun i r => ([PInt (Z.of_nat i)], r.1 ++ r.2)) (rows df) |}.

(** Position of the first column selected by a level-0 key. *)
Fixpoint column_position (key : string) (cols : list (label * label)) : option nat :=
  match cols with
  | [] => None
  | c :: cols' =>
      if bool_decide (c.1 = LStr key) then Some O else S <$> column_position key cols'
  end.

(** [DataFrame.set_index(key)] on two-level columns: the column moves into
    the index. *)
Definition set_index (key : string) (df : DataFrame (label * label))
    : result (DataFrame (label * label)) :=
  match column_position key (columns df) with
  | None => Raise (KeyError key)
  | Some n =>
      Ok {| index_names := [key];
            columns := delete n (columns df);
            rows := (fun r => ([nth n r.2 PNaN], delete n r.2)) <$> rows df |}
  end.

(** The frame after [_flatten_pivot_columns]: the labels change, the data
    stays. *)
Definition flattened (df : DataFrame (label * label)) : DataFrame label :=
  {| index_names := index_names df;
     columns := _flatten_pivot_columns (columns df);
     rows := rows df |}.

(** [left.join(right)]: a left join on the index.  A left row with no match
    is kept with NaN in the columns of [right]; labels the two frames share
    are an error. *)
Definition join (left right : DataFrame label) : result (DataFrame label) :=
  if bool_decide (Exists (fun c => c ∈ columns right) (columns left)) then
    Raise (ValueError "columns overlap but no suffix specified")
  else
    Ok {| index_names := index_names left;
          columns := columns left ++ columns right;
          rows := r ← rows left;
                  match filter (fun r' => r'.1 = r.1) (rows right) with
                  | [] => [(r.1, r.2 ++ replicate (length (columns right)) PNaN)]
                  | ms => (fun r' => (r.1, r.2 ++ r'.2)) <$> ms
                  end |}.

(** [DataFrame.drop(key, axis=1)] *)
Definition positions_of (key : label) (cols : list label) : list nat :=
  (fun ic => ic.1) <$> filter (fun ic => ic.2 = key) (imap pair cols).

Definition drop_positions {A} (ns : list nat) (l : list A) : list A :=
  (fun ia => ia.2) <$> filter (fun ia => ia.1 ∉ ns) (imap pair l).

Definition drop (key : string) (df : DataFrame label) : result (DataFrame label) :=
  match positions_of (LStr key) (columns df) with
  | [] => Raise (KeyError key)
  | ns => Ok {| index_names := index_names df;
                columns := drop_positions ns (columns df);
                rows := (fun r => (r.1, drop_positions ns r.2)) <$> rows df |}
  end.

(** What [to_csv(path, index=False)] writes: the header and the cells. *)
Record Csv := {
  header : list label;
  lines : list (list pyval)
}.

Definition to_csv (df : DataFrame label) : Csv :=
  {| header := columns df; lines := snd <$> rows df |}.

(** *** The relational input database *)

(** The tables the two queries read, with the columns they name.  The
    schema itself is generated outside this repository; identifiers are
    integers, and the species of a component may be NULL. *)
Record growth_curve_component := {
  gcc_id : Z;
  gcc_growth_curve_id : Z;
  gcc_species_id : option Z
}.

Record growth_curve_classifier_value := {
  gccv_growth_curve_id : Z;
  gccv_classifier_value_id : Z
}.

Record classifier_value := {
  cv_id : Z;
  cv_classifier_id : Z;
  cv_value : string
}.

Record classifier := {
  c_id : Z;
  c_name : string
}.

Record species := {
  s_id : Z;
  s_name : string
}.

Record growth_curve_component_value := {
  gcv_growth_curve_component_id : Z;
  gcv_age : Z;
  gcv_merchantable_volume : pyval
}.

Record transition := {
  t_id : Z;
  t_regen_delay : Z;
  t_age : Z
}.

Record transition_classifier_value := {
  tcv_transition_id : Z;
  tcv_classifier_value_id : Z
}.

Record Database := {
  growth_curve_components : list growth_curve_component;
  growth_curve_classifier_values : list growth_curve_classifier_value;
  classifier_values : list classifier_value;
  classifiers : list classifier;
  species_table : list species;
  growth_curve_component_values : list growth_curve_component_value;
  transitions : list transition;
  transition_classifier_values : list transition_classifier_value
}.

(** The classifier name and value a classifier value id stands for:
    [classifier_value cv INNER JOIN classifier c ON cv.classifier_id = c.id]
    restricted to one [cv.id]. *)
Definition classifier_of (db : Database) (cv_key : Z) : list (string * string) :=
  cv ← filter (fun cv => cv_id cv = cv_key) (classifier_values db);
  c ← filter (fun c => c_id c = cv_classifier_id cv) (classifiers db);
  [(c_name c, cv_value cv)].

(** The first query of [_convert_yields]:
    (growth_curve_component_id, classifier_name, classifier_value). *)
Definition component_classifiers_sql (db : Database) : list (Z * string * string) :=
  gcc ← growth_curve_components db;
  gccv ← filter (fun gccv => gccv_growth_curve_id gccv = gcc_growth_curve_id gcc)
         (growth_curve_classifier_values db);
  nv ← classifier_of db (gccv_classifier_value_id gccv);
  [(gcc_id gcc, nv.1, nv.2)].

(** The second query: (growth_curve_component_id, species). *)
Definition component_species_sql (db : Database) : list (Z * string) :=
  gcc ← growth_curve_components db;
  s ← filter (fun s => gcc_species_id gcc = Some (s_id s)) (species_table db);
  [(gcc_id gcc, s_name s)].

(** The third query: (growth_curve_component_id, age, merchantable_volume). *)
Definition component_values_sql (db : Database) : list (Z * Z * pyval) :=
  gcc ← growth_curve_components db;
  gcv ← filter (fun gcv => gcv_growth_curve_component_id gcv = gcc_id gcc)
        (growth_curve_component_values db);
  [(gcc_id gcc, gcv_age gcv, gcv_merchantable_volume gcv)].

(** The query of [_convert_transitions]:
    (id, regen_delay, age_after, classifier_name, classifier_value). *)
Definition transitions_sql (db : Database) : list (Z * Z * Z * string * string) :=
  t ← transitions db;
  tcv ← filter (fun tcv => tcv_transition_id tcv = t_id t) (transition_classifier_values db);
  nv ← classifier_of db (tcv_classifier_value_id tcv);
  [(t_id t, t_regen_delay t, t_age t, nv.1, nv.2)].

(** [components] of [_convert_yields], after [_flatten_pivot_columns]. *)
Definition components_frame (db : Database) : result (DataFrame label) :=
  bind (pivot ["growth_curve_component_id"] "classifier_value"
          ((fun r => ([PInt r.1.1], LStr r.1.2, PStr r.2)) <$> component_classifiers_sql db))
    (fun pivoted =>
  bind (reset_index (fun n => (LStr n, LStr "")) pivoted) (fun reset =>
  bind (set_index "growth_curve_component_id" reset) (fun components =>
  Ok (flattened components)))).

(** [component_species]: the query result indexed by component id. *)
Definition component_species_frame (db : Database) : DataFrame label :=
  {| index_names := ["growth_curve_component_id"];
     columns := [LStr "species"];
     rows := (fun r => ([PInt r.1], [PStr r.2])) <$> component_species_sql db |}.

(** [component_values], after [_flatten_pivot_columns]. *)
Definition component_values_frame (db : Database) : result (DataFrame label) :=
  bind (pivot ["growth_curve_component_id"] "merchantable_volume"
          ((fun r => ([PInt r.1.1], LInt r.1.2, r.2)) <$> component_values_sql db))
    (fun pivoted => Ok (flattened pivoted)).

(** [yield_curves] of [_convert_yields]. *)
Definition yield_curves (db : Database) : result (DataFrame label) :=
  bind (components_frame db) (fun components =>
  bind (component_values_frame db) (fun component_values =>
  bind (join components (component_species_frame db)) (fun with_species =>
  bind (join with_species component_values) (fun joined =>
  reset_index LStr joined)))).

(** What [_convert_yields] writes to [sit_yields.csv]. *)
Definition sit_yields (db : Database) : result Csv :=
  bind (yield_curves db) (fun curves =>
  bind (drop "growth_curve_component_id" curves) (fun dropped =>
  Ok (to_csv dropped))).

(** [transitions] of [_convert_transitions], after
    [_flatten_pivot_columns]. *)
Definition transitions_frame (db : Database) : result (DataFrame label) :=
  bind (pivot ["id"; "regen_delay"; "age_after"] "classifier_value"
          ((fun r => ([PInt r.1.1.1.1; PInt r.1.1.1.2; PInt r.1.1.2], LStr r.1.2, PStr r.2))
             <$> transitions_sql db))
    (fun pivoted =>
  bind (reset_index (fun n => (LStr n, LStr "")) pivoted) (fun reset =>
  Ok (flattened reset))).

(** What [_convert_transitions] writes to [sit_transitions.csv]. *)
Definition sit_transitions (db : Database) : result Csv :=
  bind (transitions_frame db) (fun frame => Ok (to_csv frame)).

(** *** [ProjectConverter.convert] *)

(** Modelled from the spec: the prepared project handed to [convert] is an
    object of a class that is not part of the sources at hand; [convert]
    and [_input_db_connection] read these attributes of it. *)
Record Project := {
  project_path : Fs.Path;
  has_rollback : bool;
  rollback_db_path : Fs.Path;
  input_db_path : Fs.Path;
  project_start_year : Z;
  project_disturbance_order : list string
}.

(** What a file holds. *)
Inductive content :=
  | Sqlite (db : Database)
  | CsvFile (csv : Csv)
  | Other (tag : string).

#[local] Abbreviation fs := (gmap Fs.Path (Fs.node content)).

(** Code that may raise and that changes the file system. *)
Definition IO (A : Type) : Type := fs -> result A * fs.

Definition io_bind {A B} (m : IO A) (k : A -> IO B) : IO B := fun s =>
  match m s with
  | (Ok a, s') => k a s'
  | (Raise e, s') => (Raise e, s')
  end.

(** A file without a byte. *)
Definition empty_file : content := Other "".

(** The path [_input_db_connection] connects to: the database of the
    rollback when there is one, the input database otherwise. *)
Definition database_path (project : Project) : Fs.Path :=
  if has_rollback project then rollback_db_path project else input_db_path project.

(** [_input_db_connection]: SQLite opens whatever file is at the path, and
    makes an empty file when there is none and the directory exists; it
    cannot open a directory or a file in a directory that is missing.  The
    connection gives the queries the database the file holds, if it holds
    one. *)
Definition _input_db_connection (project : Project) : IO (option Database) := fun s =>
  match s !! database_path project with
  | Some (Fs.File (Sqlite db)) => (Ok (Some db), s)
  | Some (Fs.File _) => (Ok None, s)
  | _ =>
      match Fs.write_file (database_path project) empty_file s with
      | Ok s' => (Ok None, s')
      | Raise _ => (Raise (External "sqlalchemy"), s)
      end
  end.

(** [pd.read_sql] on a connection: a file that holds no database has none
    of the tables the queries name. *)
Definition read_sql {A} (connection : option Database) (query : Database -> result A)
    : result A :=
  match connection with
  | Some db => query db
  | None => Raise (External "sqlalchemy")
  end.

(** Connecting, querying, then writing the table in one go. *)
Definition write_table (project : Project) (table : Database -> result Csv)
    (path : Fs.Path) : IO unit :=
  io_bind (_input_db_connection project) (fun connection s =>
    match read_sql connection table with
    | Raise e => (Raise e, s)
    | Ok csv =>
        match Fs.write_file path (CsvFile csv) s with
        | Ok s' => (Ok tt, s')
        | Raise e => (Raise e, s)
        end
    end).

Definition _convert_yields (project : Project) (output_path : Fs.Path) : IO unit :=
  write_table project sit_yields (output_path ++ ["sit_yields.csv"]).

Definition _convert_transitions (project : Project) (output_path : Fs.Path) : IO unit :=
  write_table project sit_transitions (output_path ++ ["sit_transitions.csv"]).

Section Convert.
(** The two last steps are calls into cbm_defaults and arrow_space; what
    they do to the file system is up to them. *)
Variable _build_input_database : Project -> Fs.Path -> option Fs.Path -> IO Fs.Path.
Variable _convert_spatial_data : Fs.Path -> Project -> Fs.Path -> IO unit.

(** [convert], from [output_path.mkdir] on. *)
Definition convert_into (project : Project) (output_path : Fs.Path)
    (aidb_path : option Fs.Path) : IO unit := fun s =>
  match Fs.mkdir_parents output_path s with
  | Raise e => (Raise e, s)
  | Ok s' =>
      io_bind (_convert_yields project output_path) (fun _ =>
      io_bind (_convert_transitions project output_path) (fun _ =>
      io_bind (_build_input_database project output_path aidb_path)
        (fun cbm_defaults_path =>
      _convert_spatial_data cbm_defaults_path project output_path))) s'
  end.

(** [ProjectConverter.convert] *)
Definition convert (project : Project) (output_path : Fs.Path)
    (aidb_path : option Fs.Path) : IO unit := fun s =>
  convert_into project output_path aidb_path (Fs.rmtree output_path s).

End Convert.

(** *** Flattening *)

(** The rule for one column. *)
Definition flat_label (column : label * label) : label :=
  if label_nonempty column.2 then column.2 else column.1.

Lemma _flatten_pivot_columns_fmap (columns : list (label * label)) :
  _flatten_pivot_columns columns = flat_label <$> columns.
Proof.
  unfold _flatten_pivot_columns. apply list_eq. intros i.
  rewrite !list_lookup_fmap.
  destruct (columns !! i) as [[outer inner]|] eqn:E; simpl.
  - rewrite lookup_seq_lt by by eapply lookup_lt_Some. simpl.
    rewrite !nth_lookup, !list_lookup_fmap, E. done.
  - rewrite lookup_seq_ge; [done|]. by apply lookup_ge_None.
Qed.

(** C8: flattening keeps the number and the order of the columns, and the
    label of each column is its inner label when that is not the empty
    string and its outer label otherwise, whatever the other columns are. *)
Theorem flatten_pivot_columns_rule (columns : list (label * label)) :
  length (_flatten_pivot_columns columns) = length columns /\
  (forall i outer inner,
     columns !! i = Some (outer, inner) ->
     _flatten_pivot_columns columns !! i =
       Some (if label_nonempty inner then inner else outer)) /\
  (forall before after column,
     _flatten_pivot_columns (before ++ column :: after) =
     _flatten_pivot_columns before ++ flat_label column :: _flatten_pivot_columns after).
Proof.
  rewrite _flatten_pivot_columns_fmap. split; [by rewrite length_fmap|]. split.
  - intros i outer inner E. by rewrite list_lookup_fmap, E.
  - intros before after column.
    by rewrite !_flatten_pivot_columns_fmap, fmap_app, fmap_cons.
Qed.

(** *** Counting rows *)

Lemma filter_fmap_length {A B} (f : A -> B) (P : B -> Prop) `{!forall b, Decision (P b)}
    (l : list A) :
  length (filter P (f <$> l)) = length (filter (fun a => P (f a)) l).
Proof.
  induction l as [|a l IH]; [done|]. rewrite fmap_cons, !filter_cons.
  destruct (decide (P (f a))); simpl; by rewrite IH.
Qed.

Lemma filter_imap_length {A B} (f : nat -> A -> B) (P : B -> Prop) (Q : A -> Prop)
    `{!forall b, Decision (P b)} `{!forall a, Decision (Q a)} (l : list A) :
  (forall i a, a ∈ l -> P (f i a) <-> Q a) ->
  length (filter P (imap f l)) = length (filter Q l).
Proof.
  revert f. induction l as [|a l IH]; intros f Hf; [done|].
  rewrite imap_cons, !filter_cons.
  assert (forall i a0, a0 ∈ l -> P ((f ∘ S) i a0) <-> Q a0) as Hf'.
  { intros i a0 Ha0. apply Hf. by right. }
  destruct (decide (P (f 0%nat a))) as [HP|HP], (decide (Q a)) as [HQ|HQ]; simpl.
  - by rewrite (IH (f ∘ S)).
  - apply Hf in HP; [done|left].
  - apply (Hf 0%nat) in HQ; [done|left].
  - by rewrite (IH (f ∘ S)).
Qed.

Lemma filter_none {A} (P : A -> Prop) `{!forall a, Decision (P a)} (l : list A) :
  (forall x, x ∈ l -> ~ P x) -> filter P l = [].
Proof.
  induction l as [|x l IH]; intros Hall; [done|].
  rewrite filter_cons_False by (apply Hall; left).
  apply IH. intros y Hy. apply Hall. by right.
Qed.

Lemma filter_ext_in {A} (P Q : A -> Prop) `{!forall a, Decision (P a)}
    `{!forall a, Decision (Q a)} (l : list A) :
  (forall x, x ∈ l -> P x <-> Q x) -> filter P l = filter Q l.
Proof.
  induction l as [|x l IH]; intros Hall; [done|]. rewrite !filter_cons.
  rewrite IH by (intros y Hy; apply Hall; by right).
  destruct (decide (P x)) as [HP|HP], (decide (Q x)) as [HQ|HQ]; try done.
  - apply Hall in HP; [done|left].
  - apply Hall in HQ; [done|left].
Qed.

Lemma filter_eq_NoDup_length {A} `{EqDecision A} (x : A) (l : list A) :
  NoDup l ->
  length (filter (fun y => y = x) l) = if bool_decide (x ∈ l) then 1%nat else 0%nat.
Proof.
  induction 1 as [|y l Hnot Hl IH]; [done|]. rewrite filter_cons.
  destruct (decide (y = x)) as [->|Hne]; simpl.
  - rewrite bool_decide_true by left. rewrite IH, bool_decide_false; done.
  - rewrite IH. apply (f_equal (fun b : bool => if b then 1%nat else 0%nat)).
    apply bool_decide_ext. rewrite elem_of_cons.
    split; [by right|]. intros [Heq|Hin]; [by subst|done].
Qed.

(** *** The distinct sorted values *)

Section SortedUnique.
Context {A : Type} `{EqDecision A} (leb : A -> A -> bool).

Lemma sorted_unique_elem (x : A) (l : list A) : x ∈ sorted_unique leb l <-> x ∈ l.
Proof.
  induction l as [|y l IH]; simpl; [done|].
  destruct (bool_decide_reflect (y ∈ sorted_unique leb l)) as [Hin|Hnot].
  - rewrite IH, elem_of_cons. split; [tauto|]. intros [->|?]; [by apply IH|done].
  - by rewrite sorted_insert_perm, !elem_of_cons, IH.
Qed.

Lemma sorted_unique_NoDup (l : list A) : NoDup (sorted_unique leb l).
Proof.
  induction l as [|y l IH]; simpl; [constructor|].
  destruct (bool_decide_reflect (y ∈ sorted_unique leb l)) as [Hin|Hnot]; [done|].
  rewrite sorted_insert_perm. by constructor.
Qed.

End SortedUnique.

(** *** What the frame operations return *)

Lemma bind_Ok {A B} (r : result A) (k : A -> result B) (b : B) :
  bind r k = Ok b -> exists a, r = Ok a /\ k a = Ok b.
Proof. destruct r as [a|e]; [|done]. simpl. eauto. Qed.

Lemma pivot_Ok (index : list string) (value_name : string)
    (data : list (list pyval * label * pyval)) (df : DataFrame (label * label)) :
  pivot index value_name data = Ok df ->
  df = {| index_names := index;
          columns := (fun c => (LStr value_name, c))
                       <$> sorted_unique label_leb ((fun r => r.1.2) <$> data);
          rows := (fun i => (i, pivot_cell data i
                                  <$> sorted_unique label_leb ((fun r => r.1.2) <$> data)))
                    <$> sorted_unique tuple_leb ((fun r => r.1.1) <$> data) |}.
Proof. unfold pivot. case_bool_decide; [|done]. by intros [= <-]. Qed.

Lemma reset_index_Ok {L} `{EqDecision L} (mk : string -> L) (df out : DataFrame L) :
  reset_index mk df = Ok out ->
  out = {| index_names := [];
           columns := (mk <$> index_names df) ++ columns df;
           rows := imap (fun i r => ([PInt (Z.of_nat i)], r.1 ++ r.2)) (rows df) |}.
Proof. unfold reset_index. case_bool_decide; [done|]. by intros [= <-]. Qed.

(** With distinct index values on the right, a join keeps the rows of the
    left frame one for one. *)
Definition joined_cells (right : DataFrame label) (i : list pyval) : list pyval :=
  match filter (fun r' : list pyval * list pyval => r'.1 = i) (rows right) with
  | [] => replicate (length (columns right)) PNaN
  | m :: _ => m.2
  end.

Lemma filter_key_NoDup {A B} `{EqDecision B} (f : A -> B) (k : B) (l : list A) :
  NoDup (f <$> l) ->
  filter (fun x => f x = k) l = [] \/ exists m, filter (fun x => f x = k) l = [m].
Proof.
  induction l as [|x l IH]; [by left|]. rewrite fmap_cons, NoDup_cons. intros [Hnot Hnd].
  rewrite filter_cons. destruct (decide (f x = k)) as [<-|Hne]; [|by apply IH].
  right. exists x. f_equal. apply filter_none.
  intros y Hy Heq. apply Hnot. rewrite <- Heq. by apply list_elem_of_fmap_2.
Qed.

Lemma join_Ok (left right out : DataFrame label) :
  join left right = Ok out ->
  NoDup (fst <$> rows right) ->
  out = {| index_names := index_names left;
           columns := columns left ++ columns right;
           rows := (fun r => (r.1, r.2 ++ joined_cells right r.1)) <$> rows left |}.
Proof.
  unfold join. case_bool_decide; [done|]. intros [= <-] Hnd. f_equal.
  induction (rows left) as [|r l IH]; [done|].
  rewrite fmap_cons. simpl. rewrite <- IH. unfold joined_cells.
  destruct (filter_key_NoDup fst r.1 (rows right) Hnd) as [->|[m ->]]; done.
Qed.

(** Moving the only index level into the columns and back. *)
Lemma set_index_reset_index_rows (l : list (list pyval * list pyval)) :
  Forall (fun r => exists v, r.1 = [v]) l ->
  (fun r : list pyval * list pyval => ([nth 0%nat r.2 PNaN], delete 0%nat r.2))
    <$> imap (fun i r => ([PInt (Z.of_nat i)], r.1 ++ r.2)) l = l.
Proof.
  intros Hl. apply list_eq. intros i.
  rewrite list_lookup_fmap, list_lookup_imap.
  destruct (l !! i) as [[ix cells]|] eqn:E; [|done]. simpl.
  rewrite Forall_forall in Hl. destruct (Hl (ix, cells)) as [v Hv].
  { by eapply list_elem_of_lookup_2. }
  simpl in Hv. by subst ix.
Qed.

(** *** The frames of [_convert_yields] *)

(** The rows of the first query as [pivot] takes them, its index values and
    its column values. *)
Definition classifier_data (db : Database) : list (list pyval * label * pyval) :=
  (fun r => ([PInt r.1.1], LStr r.1.2, PStr r.2)) <$> component_classifiers_sql db.

Definition component_index (db : Database) : list (list pyval) :=
  sorted_unique tuple_leb ((fun r => r.1.1) <$> classifier_data db).

Definition classifier_labels (db : Database) : list label :=
  sorted_unique label_leb ((fun r => r.1.2) <$> classifier_data db).

Definition value_data (db : Database) : list (list pyval * label * pyval) :=
  (fun r => ([PInt r.1.1], LInt r.1.2, r.2)) <$> component_values_sql db.

Definition value_index (db : Database) : list (list pyval) :=
  sorted_unique tuple_leb ((fun r => r.1.1) <$> value_data db).

Definition age_labels (db : Database) : list label :=
  sorted_unique label_leb ((fun r => r.1.2) <$> value_data db).

(** A component with a row in the first, second, third query. *)
Definition has_classifier (db : Database) (id : Z) : Prop :=
  id ∈ (fun r => r.1.1) <$> component_classifiers_sql db.

Definition has_species (db : Database) (id : Z) : Prop :=
  id ∈ fst <$> component_species_sql db.

Definition has_values (db : Database) (id : Z) : Prop :=
  id ∈ (fun r => r.1.1) <$> component_values_sql db.

Lemma component_index_elem (db : Database) (ix : list pyval) :
  ix ∈ component_index db <-> exists id, ix = [PInt id] /\ has_classifier db id.
Proof.
  unfold component_index, classifier_data, has_classifier.
  rewrite sorted_unique_elem, <- list_fmap_compose, !list_elem_of_fmap. split.
  - intros (r & -> & Hr). exists r.1.1. split; [done|].
    apply list_elem_of_fmap. by exists r.
  - intros (id & -> & (r & -> & Hr)%list_elem_of_fmap). by exists r.
Qed.

Lemma value_index_elem (db : Database) (ix : list pyval) :
  ix ∈ value_index db <-> exists id, ix = [PInt id] /\ has_values db id.
Proof.
  unfold value_index, value_data, has_values.
  rewrite sorted_unique_elem, <- list_fmap_compose, !list_elem_of_fmap. split.
  - intros (r & -> & Hr). exists r.1.1. split; [done|].
    apply list_elem_of_fmap. by exists r.
  - intros (id & -> & (r & -> & Hr)%list_elem_of_fmap). by exists r.
Qed.

Lemma components_frame_Ok (db : Database) (components : DataFrame label) :
  components_frame db = Ok components ->
  components =
    {| index_names := ["growth_curve_component_id"];
       columns := flat_label
                    <$> ((fun c => (LStr "classifier_value", c)) <$> classifier_labels db);
       rows := (fun i => (i, pivot_cell (classifier_data db) i <$> classifier_labels db))
                 <$> component_index db |}.
Proof.
  unfold components_frame. fold (classifier_data db).
  intros (pivoted & ->%pivot_Ok & (reset & ->%reset_index_Ok & Hset)%bind_Ok)%bind_Ok.
  apply bind_Ok in Hset as (indexed & Hset & [= <-]).
  unfold set_index in Hset. cbn [columns index_names fmap list_fmap app
    column_position fst] in Hset.
  rewrite bool_decide_true in Hset by done. injection Hset as <-.
  unfold flattened. cbn [index_names columns rows delete list_delete].
  fold (classifier_labels db) (component_index db).
  rewrite _flatten_pivot_columns_fmap. f_equal.
  apply set_index_reset_index_rows.
  rewrite Forall_forall. intros r (ix & -> & Hix)%list_elem_of_fmap. simpl.
  apply component_index_elem in Hix as (id & -> & _). by eexists.
Qed.

Lemma component_values_frame_Ok (db : Database) (component_values : DataFrame label) :
  component_values_frame db = Ok component_values ->
  component_values =
    {| index_names := ["growth_curve_component_id"];
       columns := flat_label <$> ((fun c => (LStr "merchantable_volume", c)) <$> age_labels db);
       rows := (fun i => (i, pivot_cell (value_data db) i <$> age_labels db))
                 <$> value_index db |}.
Proof.
  unfold component_values_frame. fold (value_data db).
  intros (pivoted & ->%pivot_Ok & [= <-])%bind_Ok.
  unfold flattened. cbn [index_names columns rows].
  by rewrite _flatten_pivot_columns_fmap.
Qed.

Lemma species_rows_of (db : Database) (gcc : growth_curve_component) :
  NoDup (s_id <$> species_table db) ->
  let found :=
    s ← filter (fun s => gcc_species_id gcc = Some (s_id s)) (species_table db);
    [(gcc_id gcc, s_name s)] in
  found = [] \/ exists n, found = [(gcc_id gcc, n)].
Proof.
  intros Hnd found. subst found.
  destruct (gcc_species_id gcc) as [k|].
  - rewrite (filter_ext_in _ (fun s => s_id s = k)).
    2:{ intros s _. split; [by intros [= <-]|by intros <-]. }
    destruct (filter_key_NoDup s_id k (species_table db) Hnd) as [->|[m ->]];
      [by left|right]. by eexists.
  - rewrite (filter_none _ (species_table db)); [by left|]. done.
Qed.

Lemma component_species_ids (db : Database) (id : Z) :
  id ∈ fst <$> component_species_sql db -> id ∈ gcc_id <$> growth_curve_components db.
Proof.
  unfold component_species_sql.
  intros ([id' n] & -> & (gcc & Hin & Hgcc)%list_elem_of_bind)%list_elem_of_fmap.
  apply list_elem_of_bind in Hin as (sp & Hin & _).
  apply list_elem_of_singleton in Hin as [= -> ->]. simpl. by apply list_elem_of_fmap_2.
Qed.

(** With primary keys a component has at most one species row. *)
Lemma component_species_ids_NoDup (db : Database) :
  NoDup (gcc_id <$> growth_curve_components db) ->
  NoDup (s_id <$> species_table db) ->
  NoDup (fst <$> component_species_sql db).
Proof.
  intros Hgcc Hs. unfold component_species_sql.
  assert (forall id, id ∈ fst <$> component_species_sql db ->
                     id ∈ gcc_id <$> growth_curve_components db) as Hsub
    by apply component_species_ids.
  unfold component_species_sql in Hsub.
  induction (growth_curve_components db) as [|gcc l IH]; [constructor|].
  rewrite fmap_cons, NoDup_cons in Hgcc. destruct Hgcc as [Hnot Hl].
  rewrite bind_cons, fmap_app.
  assert (NoDup (fst <$> (gcc0 ← l;
            s ← filter (fun s => gcc_species_id gcc0 = Some (s_id s)) (species_table db);
            [(gcc_id gcc0, s_name s)]))) as Hrest.
  { apply IH; [done|]. clear IH Hsub Hnot Hl.
    intros id ([id' n] & -> & (gcc' & Hin & Hgcc')%list_elem_of_bind)%list_elem_of_fmap.
    apply list_elem_of_bind in Hin as (sp & Hin & _).
    apply list_elem_of_singleton in Hin as [= -> ->]. simpl. by apply list_elem_of_fmap_2. }
  destruct (species_rows_of db gcc Hs) as [->|[n ->]]; [done|].
  simpl. constructor; [|done]. intros Hin. apply Hnot.
  apply list_elem_of_fmap in Hin as ([id' n'] & -> & (gcc' & Hin & Hgcc')%list_elem_of_bind).
  apply list_elem_of_bind in Hin as (sp & Hin & _).
  apply list_elem_of_singleton in Hin as [= -> ->]. simpl. by apply list_elem_of_fmap_2.
Qed.

(** The cells a join adds for a component. *)
Lemma joined_species (db : Database) (id : Z) :
  exists species_cell,
    joined_cells (component_species_frame db) [PInt id] = [species_cell] /\
    (~ has_species db id -> species_cell = PNaN).
Proof.
  unfold joined_cells.
  destruct (filter _ (rows (component_species_frame db))) as [|m ms] eqn:E.
  - by exists PNaN.
  - assert (m ∈ filter (fun r' : list pyval * list pyval => r'.1 = [PInt id])
                (rows (component_species_frame db))) as Hm by (rewrite E; left).
    apply list_elem_of_filter in Hm as [Hkey Hm]. simpl in Hm.
    apply list_elem_of_fmap in Hm as ([id' n] & -> & Hin). simpl in *.
    injection Hkey as ->. exists (PStr n). split; [done|]. intros Hnot. exfalso.
    apply Hnot. unfold has_species. apply list_elem_of_fmap. by exists (id, n).
Qed.

Lemma joined_values (db : Database) (component_values : DataFrame label) (id : Z) :
  component_values_frame db = Ok component_values ->
  length (joined_cells component_values [PInt id]) = length (columns component_values) /\
  (~ has_values db id ->
   joined_cells component_values [PInt id]
   = replicate (length (columns component_values)) PNaN).
Proof.
  intros ->%component_values_frame_Ok. unfold joined_cells. cbn [rows columns].
  destruct (filter _ _) as [|m ms] eqn:E.
  - split; [by rewrite length_replicate|done].
  - assert (m ∈ filter (fun r' : list pyval * list pyval => r'.1 = [PInt id])
                ((fun i => (i, pivot_cell (value_data db) i <$> age_labels db))
                   <$> value_index db)) as Hm by (rewrite E; left).
    apply list_elem_of_filter in Hm as [Hkey Hm].
    apply list_elem_of_fmap in Hm as (ix & -> & Hin). simpl in *. subst ix.
    split; [by rewrite !length_fmap|]. intros Hnot. exfalso. apply Hnot.
    apply value_index_elem in Hin as (id' & [= <-] & Hv). done.
Qed.

Lemma species_frame_index_NoDup (db : Database) :
  NoDup (gcc_id <$> growth_curve_components db) ->
  NoDup (s_id <$> species_table db) ->
  NoDup (fst <$> rows (component_species_frame db)).
Proof.
  intros Hgcc Hs. cbn [rows component_species_frame].
  rewrite <- list_fmap_compose.
  assert ((fst ∘ (fun r : Z * string => ([PInt r.1], [PStr r.2]))) <$> component_species_sql db
          = (fun id => [PInt id]) <$> (fst <$> component_species_sql db)) as ->.
  { by rewrite <- list_fmap_compose. }
  apply NoDup_fmap_2; [by intros ?? [= ->]|].
  by apply component_species_ids_NoDup.
Qed.

Lemma values_frame_index_NoDup (db : Database) (component_values : DataFrame label) :
  component_values_frame db = Ok component_values ->
  NoDup (fst <$> rows component_values).
Proof.
  intros ->%component_values_frame_Ok. cbn [rows].
  rewrite <- list_fmap_compose.
  assert (forall l : list (list pyval),
            (fst ∘ (fun i => (i, pivot_cell (value_data db) i <$> age_labels db))) <$> l = l)
    as ->; [|apply sorted_unique_NoDup].
  intros l. apply list_eq. intros i. rewrite list_lookup_fmap. by destruct (l !! i).
Qed.

(** [yield_curves] laid out: the component id, the classifier cells, the
    species cell, the cells of the ages. *)
Lemma yield_curves_Ok (db : Database) (curves : DataFrame label) :
  NoDup (gcc_id <$> growth_curve_components db) ->
  NoDup (s_id <$> species_table db) ->
  yield_curves db = Ok curves ->
  exists components component_values,
    components_frame db = Ok components /\
    component_values_frame db = Ok component_values /\
    curves =
      {| index_names := [];
         columns := LStr "growth_curve_component_id"
                      :: (columns components ++ [LStr "species"])
                      ++ columns component_values;
         rows := imap (fun i r => ([PInt (Z.of_nat i)], r.1 ++ r.2))
                   ((fun r => (r.1, r.2 ++ joined_cells component_values r.1))
                      <$> ((fun r => (r.1, r.2 ++ joined_cells (component_species_frame db) r.1))
                             <$> rows components)) |}.
Proof.
  intros Hgcc Hs. unfold yield_curves.
  intros (components & Hc & (component_values & Hv & Hrest)%bind_Ok)%bind_Ok.
  apply bind_Ok in Hrest as (with_species & Hj1 & (joined & Hj2 & Hreset)%bind_Ok).
  apply join_Ok in Hj1; [|by apply species_frame_index_NoDup].
  apply join_Ok in Hj2; [|by eapply values_frame_index_NoDup].
  apply reset_index_Ok in Hreset.
  exists components, component_values. split; [done|]. split; [done|].
  subst curves joined with_species. cbn [index_names columns rows].
  rewrite (components_frame_Ok db components Hc). done.
Qed.

(** The rows of [yield_curves] for one component id. *)
Lemma yield_curves_count (db : Database) (curves : DataFrame label) (id : Z) :
  NoDup (gcc_id <$> growth_curve_components db) ->
  NoDup (s_id <$> species_table db) ->
  yield_curves db = Ok curves ->
  length (filter (fun r : list pyval * list pyval => head r.2 = Some (PInt id)) (rows curves))
  = if bool_decide ([PInt id] ∈ component_index db) then 1%nat else 0%nat.
Proof.
  intros Hgcc Hs (components & component_values & Hc & Hv & ->)%yield_curves_Ok; [|done..].
  rewrite (components_frame_Ok db components Hc). cbn [rows].
  rewrite !imap_fmap.
  rewrite (filter_imap_length _ _ (fun ix => ix = [PInt id])).
  - apply filter_eq_NoDup_length, sorted_unique_NoDup.
  - intros n ix (id' & -> & _)%component_index_elem. simpl.
    split; [by intros [= ->]|by intros [= ->]].
Qed.

Lemma yield_curves_rows (db : Database) (curves : DataFrame label) :
  NoDup (gcc_id <$> growth_curve_components db) ->
  NoDup (s_id <$> species_table db) ->
  yield_curves db = Ok curves ->
  exists classifier_columns age_columns,
    columns curves = LStr "growth_curve_component_id"
                       :: (classifier_columns ++ [LStr "species"]) ++ age_columns /\
    forall r, r ∈ rows curves ->
      exists id classifier_cells species_cell age_cells,
        r.2 = PInt id :: (classifier_cells ++ [species_cell]) ++ age_cells /\
        has_classifier db id /\
        length classifier_cells = length classifier_columns /\
        length age_cells = length age_columns /\
        (~ has_species db id -> species_cell = PNaN) /\
        (~ has_values db id -> age_cells = replicate (length age_columns) PNaN).
Proof.
  intros Hgcc Hs (components & component_values & Hc & Hv & ->)%yield_curves_Ok; [|done..].
  exists (columns components), (columns component_values). split; [done|].
  cbn [rows]. intros r Hr.
  apply list_elem_of_lookup in Hr as [n Hr].
  rewrite list_lookup_imap, !list_lookup_fmap in Hr.
  rewrite (components_frame_Ok db components Hc) in Hr |- *. cbn [rows columns] in Hr |- *.
  rewrite list_lookup_fmap in Hr.
  destruct (component_index db !! n) as [ix|] eqn:E; [|done].
  apply list_elem_of_lookup_2 in E.
  apply component_index_elem in E as (id & -> & Hid).
  simpl in Hr. injection Hr as <-. cbn [snd fst].
  destruct (joined_species db id) as (species_cell & -> & Hspecies).
  destruct (joined_values db component_values id Hv) as [Hlen Hvalues].
  exists id, (pivot_cell (classifier_data db) [PInt id] <$> classifier_labels db),
    species_cell, (joined_cells component_values [PInt id]).
  split; [done|]. split; [done|]. split; [by rewrite !length_fmap|].
  split; [done|]. split; done.
Qed.

(** *** The frame of [_convert_transitions] *)

Definition transition_data (db : Database) : list (list pyval * label * pyval) :=
  (fun r => ([PInt r.1.1.1.1; PInt r.1.1.1.2; PInt r.1.1.2], LStr r.1.2, PStr r.2))
    <$> transitions_sql db.

Definition transition_index (db : Database) : list (list pyval) :=
  sorted_unique tuple_leb ((fun r => r.1.1) <$> transition_data db).

(** A transition key with a row in the query. *)
Definition has_transition_classifier (db : Database) (id regen_delay age_after : Z) : Prop :=
  (id, regen_delay, age_after)
    ∈ (fun r => (r.1.1.1.1, r.1.1.1.2, r.1.1.2)) <$> transitions_sql db.

Lemma transition_index_elem (db : Database) (ix : list pyval) :
  ix ∈ transition_index db <->
  exists id regen_delay age_after,
    ix = [PInt id; PInt regen_delay; PInt age_after] /\
    has_transition_classifier db id regen_delay age_after.
Proof.
  unfold transition_index, transition_data, has_transition_classifier.
  rewrite sorted_unique_elem, <- list_fmap_compose, list_elem_of_fmap. split.
  - intros (r & -> & Hr). exists r.1.1.1.1, r.1.1.1.2, r.1.1.2. split; [done|].
    apply list_elem_of_fmap. by exists r.
  - intros (id & rd & age & -> & (r & [= -> -> ->] & Hr)%list_elem_of_fmap). by exists r.
Qed.

Lemma transitions_frame_Ok (db : Database) (frame : DataFrame label) :
  transitions_frame db = Ok frame ->
  exists cells : list pyval -> list pyval,
    rows frame = imap (fun i r => ([PInt (Z.of_nat i)], r.1 ++ r.2))
                   ((fun ix => (ix, cells ix)) <$> transition_index db).
Proof.
  unfold transitions_frame. fold (transition_data db).
  intros (pivoted & ->%pivot_Ok & (reset & ->%reset_index_Ok & [= <-])%bind_Ok)%bind_Ok.
  eexists. unfold flattened. cbn [rows]. reflexivity.
Qed.

Lemma transitions_frame_count (db : Database) (frame : DataFrame label)
    (id regen_delay age_after : Z) :
  transitions_frame db = Ok frame ->
  length (filter (fun r : list pyval * list pyval =>
                    take 3 r.2 = [PInt id; PInt regen_delay; PInt age_after])
            (rows frame))
  = if bool_decide ([PInt id; PInt regen_delay; PInt age_after] ∈ transition_index db)
    then 1%nat else 0%nat.
Proof.
  intros [cells ->]%transitions_frame_Ok. rewrite imap_fmap.
  rewrite (filter_imap_length _ _
             (fun ix => ix = [PInt id; PInt regen_delay; PInt age_after])).
  - apply filter_eq_NoDup_length, sorted_unique_NoDup.
  - intros n ix (id' & rd' & age' & -> & _)%transition_index_elem. simpl.
    split; [by intros [= -> -> ->]|by intros [= -> -> ->]].
Qed.

(** *** Which entities get a row *)

(** [has_classifier] in terms of the tables: some classifier value is
    attached to the growth curve of the component, and its classifier
    exists. *)
Lemma has_classifier_iff (db : Database) (id : Z) :
  has_classifier db id <->
  exists gcc gccv nv,
    gcc ∈ growth_curve_components db /\ gcc_id gcc = id /\
    gccv ∈ growth_curve_classifier_values db /\
    gccv_growth_curve_id gccv = gcc_growth_curve_id gcc /\
    nv ∈ classifier_of db (gccv_classifier_value_id gccv).
Proof.
  unfold has_classifier, component_classifiers_sql. rewrite list_elem_of_fmap. split.
  - intros (r & -> & (gcc & Hr & Hgcc)%list_elem_of_bind).
    apply list_elem_of_bind in Hr as (gccv & Hr & [Hkey Hgccv]%list_elem_of_filter).
    apply list_elem_of_bind in Hr as (nv & Hr & Hnv).
    apply list_elem_of_singleton in Hr as ->. by exists gcc, gccv, nv.
  - intros (gcc & gccv & nv & Hgcc & <- & Hgccv & Hkey & Hnv).
    exists (gcc_id gcc, nv.1, nv.2). split; [done|].
    apply list_elem_of_bind. exists gcc. split; [|done].
    apply list_elem_of_bind. exists gccv. split; [|by apply list_elem_of_filter].
    apply list_elem_of_bind. exists nv. split; [|done]. by apply list_elem_of_singleton.
Qed.

Lemma sit_yields_Ok (db : Database) (csv : Csv) :
  sit_yields db = Ok csv ->
  exists curves, yield_curves db = Ok curves /\ length (lines csv) = length (rows curves).
Proof.
  unfold sit_yields. intros (curves & Hc & (dropped & Hd & [= <-])%bind_Ok)%bind_Ok.
  exists curves. split; [done|]. unfold drop in Hd.
  destruct (positions_of _ _); [done|]. injection Hd as <-.
  unfold to_csv. cbn [lines rows]. by rewrite !length_fmap.
Qed.

Lemma sit_transitions_Ok (db : Database) (csv : Csv) :
  sit_transitions db = Ok csv ->
  exists frame, transitions_frame db = Ok frame /\ lines csv = snd <$> rows frame.
Proof.
  unfold sit_transitions. intros (frame & Hf & [= <-])%bind_Ok. by exists frame.
Qed.

(** *** When the extraction returns *)

(** The data [_convert_yields] can pivot and join: at most one value per
    component and classifier, at most one volume per component and age,
    and no classifier named like the two other string columns. *)
Definition yields_well_formed (db : Database) : Prop :=
  NoDup ((fun r => r.1) <$> component_classifiers_sql db) /\
  NoDup ((fun r => r.1) <$> component_values_sql db) /\
  forall r, r ∈ component_classifiers_sql db ->
    r.1.2 <> "species" /\ r.1.2 <> "growth_curve_component_id".

(** The data [_convert_transitions] can pivot: at most one value per
    transition key and classifier. *)
Definition transitions_well_formed (db : Database) : Prop :=
  NoDup ((fun r => r.1) <$> transitions_sql db).

Lemma pivot_succeeds (index : list string) (value_name : string)
    (data : list (list pyval * label * pyval)) :
  NoDup ((fun r => r.1) <$> data) -> exists df, pivot index value_name data = Ok df.
Proof. intros Hnd. unfold pivot. rewrite bool_decide_true by done. by eexists. Qed.

Lemma components_frame_succeeds (db : Database) :
  NoDup ((fun r => r.1) <$> component_classifiers_sql db) ->
  exists components, components_frame db = Ok components.
Proof.
  intros Hnd. unfold components_frame. fold (classifier_data db).
  destruct (pivot_succeeds ["growth_curve_component_id"] "classifier_value"
              (classifier_data db)) as [pivoted Hp].
  { unfold classifier_data. rewrite <- list_fmap_compose.
    assert (((fun r : list pyval * label * pyval => r.1)
               ∘ (fun r : Z * string * string => ([PInt r.1.1], LStr r.1.2, PStr r.2)))
              <$> component_classifiers_sql db
            = (fun k : Z * string => ([PInt k.1], LStr k.2))
                <$> ((fun r => r.1) <$> component_classifiers_sql db)) as ->.
    { by rewrite <- list_fmap_compose. }
    apply NoDup_fmap_2; [|done]. by intros [??] [??] [= -> ->]. }
  rewrite Hp. apply pivot_Ok in Hp as ->. simpl bind.
  unfold reset_index. cbn [index_names columns].
  rewrite bool_decide_false.
  2:{ intros (n & Hn & Hin)%Exists_exists.
      apply list_elem_of_fmap in Hin as (c & Heq & _). injection Heq as -> _.
      repeat (apply elem_of_cons in Hn as [Hn|Hn]; [discriminate Hn|]).
      by apply elem_of_nil in Hn. }
  simpl bind. unfold set_index. cbn [columns fmap list_fmap app column_position fst].
  by eexists.
Qed.

Lemma component_values_frame_succeeds (db : Database) :
  NoDup ((fun r => r.1) <$> component_values_sql db) ->
  exists component_values, component_values_frame db = Ok component_values.
Proof.
  intros Hnd. unfold component_values_frame. fold (value_data db).
  destruct (pivot_succeeds ["growth_curve_component_id"] "merchantable_volume"
              (value_data db)) as [pivoted Hp].
  { unfold value_data. rewrite <- list_fmap_compose.
    assert (((fun r : list pyval * label * pyval => r.1)
               ∘ (fun r : Z * Z * pyval => ([PInt r.1.1], LInt r.1.2, r.2)))
              <$> component_values_sql db
            = (fun k : Z * Z => ([PInt k.1], LInt k.2))
                <$> ((fun r => r.1) <$> component_values_sql db)) as ->.
    { by rewrite <- list_fmap_compose. }
    apply NoDup_fmap_2; [|done]. by intros [??] [??] [= -> ->]. }
  rewrite Hp. simpl. by eexists.
Qed.

(** The labels of the classifier columns are strings, none of them one of
    the two excluded names. *)
Lemma classifier_column_labels (db : Database) (c : label) :
  (forall r, r ∈ component_classifiers_sql db ->
     r.1.2 <> "species" /\ r.1.2 <> "growth_curve_component_id") ->
  c ∈ flat_label <$> ((fun c => (LStr "classifier_value", c)) <$> classifier_labels db) ->
  exists n, c = LStr n /\ n <> "species" /\ n <> "growth_curve_component_id".
Proof.
  intros Hnames (cc & -> & (l & -> & Hl)%list_elem_of_fmap)%list_elem_of_fmap.
  unfold classifier_labels, classifier_data in Hl.
  rewrite sorted_unique_elem, <- list_fmap_compose in Hl.
  apply list_elem_of_fmap in Hl as (r & -> & Hr). destruct (Hnames r Hr) as [Hs Hg].
  unfold flat_label. simpl. destruct (String.eqb r.1.2 ""); simpl; eauto.
Qed.

Lemma age_column_labels (db : Database) (c : label) :
  c ∈ flat_label <$> ((fun c => (LStr "merchantable_volume", c)) <$> age_labels db) ->
  exists z, c = LInt z.
Proof.
  intros (cc & -> & (l & -> & Hl)%list_elem_of_fmap)%list_elem_of_fmap.
  unfold age_labels, value_data in Hl.
  rewrite sorted_unique_elem, <- list_fmap_compose in Hl.
  apply list_elem_of_fmap in Hl as (r & -> & Hr). by eexists.
Qed.

Lemma sit_yields_succeeds (db : Database) :
  yields_well_formed db -> exists csv, sit_yields db = Ok csv.
Proof.
  intros (Hc & Hv & Hnames). unfold sit_yields, yield_curves.
  destruct (components_frame_succeeds db Hc) as [components Ec].
  destruct (component_values_frame_succeeds db Hv) as [component_values Ev].
  rewrite Ec, Ev. simpl bind.
  apply components_frame_Ok in Ec as ->. apply component_values_frame_Ok in Ev as ->.
  unfold join at 1. cbn [columns component_species_frame].
  rewrite bool_decide_false.
  2:{ intros (c & Hin & ->%list_elem_of_singleton)%Exists_exists.
      destruct (classifier_column_labels db _ Hnames Hin) as (n & [= <-] & Hs & _). done. }
  simpl bind. unfold join. cbn [columns].
  rewrite bool_decide_false.
  2:{ intros (c & Hin & [z ->]%age_column_labels)%Exists_exists.
      apply elem_of_app in Hin as [Hin|Hin%list_elem_of_singleton]; [|done].
      by destruct (classifier_column_labels db _ Hnames Hin) as (n & ? & _). }
  simpl bind. unfold reset_index. cbn [columns index_names].
  rewrite bool_decide_false.
  2:{ intros (n & ->%list_elem_of_singleton & Hin)%Exists_exists.
      apply elem_of_app in Hin as [Hin|[z [=]]%age_column_labels].
      apply elem_of_app in Hin as [Hin|Hin%list_elem_of_singleton]; [|done].
      destruct (classifier_column_labels db _ Hnames Hin) as (n & [= <-] & _ & Hg). done. }
  simpl bind. unfold drop. cbn [columns fmap list_fmap app].
  by eexists.
Qed.

Lemma sit_transitions_succeeds (db : Database) :
  transitions_well_formed db -> exists csv, sit_transitions db = Ok csv.
Proof.
  intros Hnd. unfold sit_transitions, transitions_frame. fold (transition_data db).
  destruct (pivot_succeeds ["id"; "regen_delay"; "age_after"] "classifier_value"
              (transition_data db)) as [pivoted Hp].
  { unfold transition_data. rewrite <- list_fmap_compose.
    assert (((fun r : list pyval * label * pyval => r.1)
               ∘ (fun r : Z * Z * Z * string * string =>
                    ([PInt r.1.1.1.1; PInt r.1.1.1.2; PInt r.1.1.2], LStr r.1.2, PStr r.2)))
              <$> transitions_sql db
            = (fun k : Z * Z * Z * string =>
                 ([PInt k.1.1.1; PInt k.1.1.2; PInt k.1.2], LStr k.2))
                <$> ((fun r => r.1) <$> transitions_sql db)) as ->.
    { by rewrite <- list_fmap_compose. }
    apply NoDup_fmap_2; [|done]. by intros [[[??]?]?] [[[??]?]?] [= -> -> -> ->]. }
  rewrite Hp. apply pivot_Ok in Hp as ->. simpl bind.
  unfold reset_index. cbn [index_names columns].
  rewrite bool_decide_false.
  2:{ intros (n & Hn & Hin)%Exists_exists.
      apply list_elem_of_fmap in Hin as (c & Heq & _). injection Heq as -> _.
      repeat (apply elem_of_cons in Hn as [Hn|Hn]; [discriminate Hn|]).
      by apply elem_of_nil in Hn. }
  simpl. by eexists.
Qed.

(** *** A small database *)

(** Component 1 has a classifier value, a species and volumes; component 2
    has no classifier value; component 3 has a classifier value only.
    Transition 1 has no classifier value, transition 2 has one. *)
Definition demo_db : Database := {|
  growth_curve_components :=
    [{| gcc_id := 1; gcc_growth_curve_id := 10; gcc_species_id := Some 7 |};
     {| gcc_id := 2; gcc_growth_curve_id := 20; gcc_species_id := Some 7 |};
     {| gcc_id := 3; gcc_growth_curve_id := 30; gcc_species_id := None |}];
  growth_curve_classifier_values :=
    [{| gccv_growth_curve_id := 10; gccv_classifier_value_id := 100 |};
     {| gccv_growth_curve_id := 30; gccv_classifier_value_id := 101 |}];
  classifier_values :=
    [{| cv_id := 100; cv_classifier_id := 1; cv_value := "pine" |};
     {| cv_id := 101; cv_classifier_id := 2; cv_value := "north" |}];
  classifiers := [{| c_id := 1; c_name := "spp" |}; {| c_id := 2; c_name := "region" |}];
  species_table := [{| s_id := 7; s_name := "Pine" |}];
  growth_curve_component_values :=
    [{| gcv_growth_curve_component_id := 1; gcv_age := 10;
        gcv_merchantable_volume := PFloat 5 0 |};
     {| gcv_growth_curve_component_id := 1; gcv_age := 0;
        gcv_merchantable_volume := PFloat 0 0 |}];
  transitions :=
    [{| t_id := 1; t_regen_delay := 0; t_age := 0 |};
     {| t_id := 2; t_regen_delay := 5; t_age := 1 |}];
  transition_classifier_values :=
    [{| tcv_transition_id := 2; tcv_classifier_value_id := 100 |}]
|}.

Example sit_yields_demo :
  sit_yields demo_db =
  Ok {| header := [LStr "region"; LStr "spp"; LStr "species"; LInt 0; LInt 10];
        lines := [[PNaN; PStr "pine"; PStr "Pine"; PFloat 0 0; PFloat 5 0];
                  [PStr "north"; PNaN; PNaN; PNaN; PNaN]] |}.
Proof. vm_compute. reflexivity. Qed.

Example sit_transitions_demo :
  sit_transitions demo_db =
  Ok {| header := [LStr "id"; LStr "regen_delay"; LStr "age_after"; LStr "spp"];
        lines := [[PInt 2; PInt 5; PInt 1; PStr "pine"]] |}.
Proof. vm_compute. reflexivity. Qed.

(** C2 as stated: every component of the database has exactly one row. *)
Definition every_component_has_a_row (db : Database) : Prop :=
  forall curves, yield_curves db = Ok curves ->
  forall gcc, gcc ∈ growth_curve_components db ->
    length (filter (fun r : list pyval * list pyval => head r.2 = Some (PInt (gcc_id gcc)))
              (rows curves)) = 1%nat.

(** It fails on the small database: component 2, which has no classifier
    value, has no row. *)
Lemma component_without_classifier_is_dropped : ~ every_component_has_a_row demo_db.
Proof.
  intros Hall.
  destruct (yield_curves demo_db) as [curves|e] eqn:E; [|by vm_compute in E].
  specialize (Hall curves E
                {| gcc_id := 2; gcc_growth_curve_id := 20; gcc_species_id := Some 7 |}).
  vm_compute in E. injection E as <-.
  assert (0 = 1)%nat; [|done]. rewrite <- Hall; [done|]. right; left.
Qed.

(** *** [convert] and the previous output *)



Section ConvertProperties.
Variable _build_input_database : Project -> Fs.Path -> option Fs.Path -> IO Fs.Path.
Variable _convert_spatial_data : Fs.Path -> Project -> Fs.Path -> IO unit.

#[local] Abbreviation convert_here :=
  (convert _build_input_database _convert_spatial_data).


End ConvertProperties.


Definition lost_project : Project :=
  {| project_path := ["project"]; has_rollback := false;
     rollback_db_path := ["project"; "rollback.db"];
     input_db_path := ["project"; "gcbm_input.db"];
     project_start_year := 2000; project_disturbance_order := [] |}.




(** *** The shape of the frames *)

(** Every row has a cell for every column. *)
Definition rectangular {L} (df : DataFrame L) : Prop :=
  Forall (fun r : list pyval * list pyval => length r.2 = length (columns df)) (rows df).

(** Every index tuple has [n] levels. *)
Definition index_levels {L} (n : nat) (df : DataFrame L) : Prop :=
  Forall (fun r : list pyval * list pyval => length r.1 = n) (rows df).

Lemma reset_index_shape {L} `{EqDecision L} (mk : string -> L) (df out : DataFrame L) :
  rectangular df -> index_levels (length (index_names df)) df ->
  reset_index mk df = Ok out -> rectangular out.
Proof.
  intros Hrect Hidx ->%reset_index_Ok. unfold rectangular in *. cbn [rows columns].
  apply Forall_lookup. intros i r Hr. rewrite list_lookup_imap in Hr.
  destruct (rows df !! i) as [r0|] eqn:E; [|done]. injection Hr as <-. simpl.
  unfold index_levels in Hidx. rewrite Forall_lookup in Hrect, Hidx.
  rewrite !length_app, length_fmap, (Hrect i r0 E), (Hidx i r0 E). done.
Qed.

Lemma join_names (left right out : DataFrame label) :
  join left right = Ok out ->
  index_names out = index_names left /\
  columns out = columns left ++ columns right /\
  ~ Exists (fun c => c ∈ columns right) (columns left).
Proof. unfold join. case_bool_decide; [done|]. by intros [= <-]. Qed.

Lemma join_shape (left right out : DataFrame label) (n : nat) :
  rectangular left -> rectangular right -> index_levels n left ->
  join left right = Ok out -> rectangular out /\ index_levels n out.
Proof.
  unfold join. case_bool_decide; [done|]. intros Hl Hr Hn [= <-].
  unfold rectangular, index_levels in *. cbn [rows columns].
  rewrite Forall_forall in Hl, Hr, Hn.
  apply Forall_and, Forall_forall.
  intros r (r0 & Hin & Hr0)%list_elem_of_bind. rewrite length_app.
  destruct (filter _ (rows right)) as [|m ms] eqn:E.
  - apply list_elem_of_singleton in Hin as ->. simpl.
    rewrite length_app, length_replicate, (Hl r0 Hr0). split; [done|by apply Hn].
  - change (r ∈ (fun r' : list pyval * list pyval => (r0.1, r0.2 ++ r'.2)) <$> (m :: ms))
      in Hin.
    apply list_elem_of_fmap in Hin as (r' & -> & Hr'). simpl.
    assert (r' ∈ rows right) as Hright.
    { rewrite <- E in Hr'. by apply list_elem_of_filter in Hr' as [_ ?]. }
    rewrite length_app, (Hl r0 Hr0), (Hr r' Hright). split; [done|by apply Hn].
Qed.

Lemma drop_positions_length {A B} (ns : list nat) (l : list A) (l' : list B) :
  length l = length l' -> length (drop_positions ns l) = length (drop_positions ns l').
Proof.
  unfold drop_positions. rewrite !length_fmap.
  change (@pair nat A) with (fun (i : nat) (a : A) => (id i, a)).
  change (@pair nat B) with (fun (i : nat) (b : B) => (id i, b)).
  generalize (@id nat). revert l'.
  induction l as [|a l IH]; intros [|b l'] g Hlen; try done.
  rewrite !imap_cons, !filter_cons. simpl.
  injection Hlen as Hlen.
  destruct (decide (g 0%nat ∉ ns)); simpl; [f_equal|]; apply (IH l' (g ∘ S) Hlen).
Qed.

Lemma drop_shape (key : string) (df out : DataFrame label) :
  rectangular df -> drop key df = Ok out -> rectangular out.
Proof.
  unfold drop. destruct (positions_of (LStr key) (columns df)) as [|n ns]; [done|].
  intros Hrect [= <-]. unfold rectangular in *. cbn [rows columns].
  apply Forall_fmap. eapply Forall_impl; [exact Hrect|]. intros r Hr. simpl.
  by apply drop_positions_length.
Qed.

Lemma components_frame_shape (db : Database) (components : DataFrame label) :
  components_frame db = Ok components ->
  rectangular components /\ index_levels 1 components /\
  index_names components = ["growth_curve_component_id"].
Proof.
  intros ->%components_frame_Ok. unfold rectangular, index_levels. cbn [rows columns].
  split; [|split; [|done]]; apply Forall_fmap, Forall_forall; intros ix Hix; simpl.
  - by rewrite !length_fmap.
  - by apply component_index_elem in Hix as (id & -> & _).
Qed.

Lemma component_values_frame_shape (db : Database) (component_values : DataFrame label) :
  component_values_frame db = Ok component_values -> rectangular component_values.
Proof.
  intros ->%component_values_frame_Ok. unfold rectangular. cbn [rows columns].
  apply Forall_fmap, Forall_forall. intros ix Hix. simpl. by rewrite !length_fmap.
Qed.

Lemma component_species_frame_shape (db : Database) :
  rectangular (component_species_frame db).
Proof.
  unfold rectangular. cbn [rows columns component_species_frame].
  by apply Forall_fmap, Forall_forall.
Qed.

Lemma yield_curves_shape (db : Database) (curves : DataFrame label) :
  yield_curves db = Ok curves ->
  rectangular curves /\
  exists cols, columns curves = LStr "growth_curve_component_id" :: cols /\
               LStr "growth_curve_component_id" ∉ cols.
Proof.
  unfold yield_curves.
  intros (components & Hc & (component_values & Hv & Hrest)%bind_Ok)%bind_Ok.
  apply bind_Ok in Hrest as (with_species & Hj1 & (joined & Hj2 & Hreset)%bind_Ok).
  destruct (components_frame_shape db components Hc) as (Rc & Ic & Nc).
  pose proof (component_values_frame_shape db component_values Hv) as Rv.
  destruct (join_shape _ _ _ 1%nat Rc (component_species_frame_shape db) Ic Hj1) as [R1 I1].
  destruct (join_shape _ _ _ 1%nat R1 Rv I1 Hj2) as [R2 I2].
  destruct (join_names _ _ _ Hj1) as (N1 & _ & _).
  destruct (join_names _ _ _ Hj2) as (N2 & _ & _).
  assert (index_names joined = ["growth_curve_component_id"]) as Nj by congruence.
  split.
  - eapply reset_index_shape; [exact R2| |exact Hreset]. by rewrite Nj.
  - unfold reset_index in Hreset. rewrite Nj in Hreset.
    case_bool_decide as Hex; [done|]. injection Hreset as <-. cbn [columns].
    eexists. split; [reflexivity|]. intros Hin. apply Hex. by constructor.
Qed.

Lemma transition_index_levels (db : Database) (ix : list pyval) :
  ix ∈ transition_index db -> length ix = 3%nat.
Proof. by intros (id & rd & age & -> & _)%transition_index_elem. Qed.

Lemma flat_labels_length (cols : list (label * label)) :
  length (_flatten_pivot_columns cols) = length cols.
Proof. by rewrite _flatten_pivot_columns_fmap, length_fmap. Qed.

Lemma transitions_frame_shape (db : Database) (frame : DataFrame label) :
  transitions_frame db = Ok frame -> rectangular frame.
Proof.
  unfold transitions_frame. fold (transition_data db).
  intros (pivoted & Hp & (reset & Hr & [= <-])%bind_Ok)%bind_Ok.
  apply pivot_Ok in Hp. fold (transition_index db) in Hp.
  assert (rectangular reset) as Hrect.
  { eapply reset_index_shape; [| |exact Hr]; subst pivoted;
      unfold rectangular, index_levels; cbn [rows columns index_names];
      apply Forall_fmap, Forall_forall; intros ix Hix; simpl.
    - by rewrite !length_fmap.
    - by apply transition_index_levels in Hix. }
  unfold rectangular, flattened in *. cbn [rows columns].
  eapply Forall_impl; [exact Hrect|]. intros r Hlen. by rewrite flat_labels_length.
Qed.

(** X8: both tables are rectangular.  Whatever the database holds, every
    line written to [sit_yields.csv] and to [sit_transitions.csv] has
    exactly one cell per column of the header. *)
Theorem csv_lines_match_header (db : Database) :
  (forall csv, sit_yields db = Ok csv ->
     Forall (fun line => length line = length (header csv)) (lines csv)) /\
  (forall csv, sit_transitions db = Ok csv ->
     Forall (fun line => length line = length (header csv)) (lines csv)).
Proof.
  split.
  - intros csv. unfold sit_yields.
    intros (curves & Hc & (dropped & Hd & [= <-])%bind_Ok)%bind_Ok.
    destruct (yield_curves_shape db curves Hc) as [Hrect _].
    pose proof (drop_shape _ _ _ Hrect Hd) as Hdropped.
    unfold to_csv. cbn [header lines]. by apply Forall_fmap.
  - intros csv. unfold sit_transitions. intros (frame & Hf & [= <-])%bind_Ok.
    pose proof (transitions_frame_shape db frame Hf) as Hrect.
    unfold to_csv. cbn [header lines]. by apply Forall_fmap.
Qed.

(** *** The column that [_convert_yields] drops *)

Lemma positions_of_head (key : label) (cols : list label) :
  key ∉ cols -> positions_of key (key :: cols) = [0%nat].
Proof.
  intros Hnot. unfold positions_of. rewrite imap_cons, filter_cons_True by done.
  rewrite fmap_cons. simpl. f_equal.
  rewrite filter_none; [done|]. intros [i c] Hin Heq. simpl in Heq. subst c.
  apply list_elem_of_lookup in Hin as [j Hj]. rewrite list_lookup_imap in Hj.
  destruct (cols !! j) as [c|] eqn:E; [|done]. injection Hj as _ ->.
  apply Hnot. by eapply list_elem_of_lookup_2.
Qed.

Lemma drop_positions_none {A} (ns : list nat) (g : nat -> nat) (l : list A) :
  (forall i, g i ∉ ns) ->
  (fun ia : nat * A => ia.2) <$> filter (fun ia : nat * A => ia.1 ∉ ns)
                                   (imap (fun i a => (g i, a)) l) = l.
Proof.
  revert g. induction l as [|x l IH]; intros g Hg; [done|].
  rewrite imap_cons, filter_cons_True by apply Hg. rewrite fmap_cons. simpl. f_equal.
  apply (IH (g ∘ S)). intros i. apply Hg.
Qed.

Lemma drop_positions_head {A} (l : list A) : drop_positions [0%nat] l = tail l.
Proof.
  destruct l as [|x l]; [done|]. unfold drop_positions.
  rewrite imap_cons, filter_cons_False.
  2:{ simpl. intros Hnot. apply Hnot. left. }
  simpl. apply (drop_positions_none [0%nat] S). intros i [=]%list_elem_of_singleton.
Qed.

(** X9: [sit_yields.csv] is [yield_curves] without its first column, the
    component id, and without anything else removed: the header is the
    rest of the columns, no column of the file is named
    [growth_curve_component_id], and the lines are the rows, in their
    order, each without its first cell. *)
Theorem sit_yields_drops_component_id (db : Database) (csv : Csv) :
  sit_yields db = Ok csv ->
  exists curves,
    yield_curves db = Ok curves /\
    columns curves = LStr "growth_curve_component_id" :: header csv /\
    (LStr "growth_curve_component_id" ∉ header csv) /\
    lines csv = (fun r => tail r.2) <$> rows curves.
Proof.
  unfold sit_yields. intros (curves & Hc & (dropped & Hd & [= <-])%bind_Ok)%bind_Ok.
  exists curves. split; [done|].
  destruct (yield_curves_shape db curves Hc) as [_ (cols & Hcols & Hnot)].
  unfold drop in Hd. rewrite Hcols, positions_of_head in Hd by done.
  injection Hd as <-. unfold to_csv. cbn [header lines columns rows].
  rewrite drop_positions_head. simpl. split; [done|]. split; [done|].
  rewrite <- list_fmap_compose. apply list_fmap_ext. intros i r _. simpl.
  apply drop_positions_head.
Qed.

Lemma sit_yields_drops_component_id_witness :
  exists curves,
    yield_curves demo_db = Ok curves /\
    columns curves = [LStr "growth_curve_component_id"; LStr "region"; LStr "spp";
                      LStr "species"; LInt 0; LInt 10].
Proof.
  destruct (sit_yields_drops_component_id demo_db _ sit_yields_demo)
    as (curves & Hc & Hcols & _).
  exists curves. split; [exact Hc|exact Hcols].
Defined.

(** *** What [pivot] puts in a cell *)

Lemma pivot_NoDup (index : list string) (value_name : string)
    (data : list (list pyval * label * pyval)) (df : DataFrame (label * label)) :
  pivot index value_name data = Ok df -> NoDup (fst <$> data).
Proof. unfold pivot. by case_bool_decide. Qed.

Lemma pivot_cell_found (data : list (list pyval * label * pyval)) (i : list pyval)
    (c : label) (v : pyval) :
  NoDup (fst <$> data) -> (i, c, v) ∈ data -> pivot_cell data i c = v.
Proof.
  intros Hnd Hin. unfold pivot_cell.
  destruct (List.find _ data) as [r|] eqn:E.
  - apply find_some in E as [Hr Hkey]. apply bool_decide_eq_true in Hkey as [Hi Hc].
    apply list_elem_of_In in Hr. destruct r as [[i' c'] v']. simpl in *. subst i' c'.
    by apply (Rollback.NoDup_fst_functional data (i, c)).
  - apply list_elem_of_In in Hin. pose proof (find_none _ _ E _ Hin) as Hkey.
    simpl in Hkey. by rewrite bool_decide_true in Hkey.
Qed.

Lemma pivot_cell_missing (data : list (list pyval * label * pyval)) (i : list pyval)
    (c : label) :
  (forall v, (i, c, v) ∉ data) -> pivot_cell data i c = PNaN.
Proof.
  intros Hnot. unfold pivot_cell.
  destruct (List.find _ data) as [r|] eqn:E; [|done].
  apply find_some in E as [Hr Hkey]. apply bool_decide_eq_true in Hkey as [Hi Hc].
  apply list_elem_of_In in Hr. destruct r as [[i' c'] v']. simpl in *. subst i' c'.
  by destruct (Hnot v').
Qed.

(** The header of a classifier column: its name, or the name of the value
    column when the name is empty. *)
Definition classifier_column (n : string) : label :=
  if String.eqb n "" then LStr "classifier_value" else LStr n.

Lemma flat_label_classifier (n : string) :
  flat_label (LStr "classifier_value", LStr n) = classifier_column n.
Proof. unfold flat_label, classifier_column. simpl. by destruct (String.eqb n ""). Qed.

Lemma transition_data_elem (db : Database) (id rd age : Z) (n : string) (cell : pyval) :
  ([PInt id; PInt rd; PInt age], LStr n, cell) ∈ transition_data db <->
  exists v, cell = PStr v /\ (id, rd, age, n, v) ∈ transitions_sql db.
Proof.
  unfold transition_data. rewrite list_elem_of_fmap. split.
  - intros ([[[[id' rd'] age'] n'] v] & [= -> -> -> -> ->] & Hin). by exists v.
  - intros (v & -> & Hin). by exists (id, rd, age, n, v).
Qed.

(** The names behind string labels. *)
Definition label_name (l : label) : string :=
  match l with LStr s => s | LInt _ => "" end.

Lemma string_labels (l : list label) :
  Forall (fun c => exists n, c = LStr n) l -> l = LStr <$> (label_name <$> l).
Proof.
  induction 1 as [|c l [n ->] _ IH]; [done|]. rewrite !fmap_cons. simpl. by rewrite <- IH.
Qed.

(** The header and the lines of [sit_transitions.csv]. *)
Lemma sit_transitions_cells (db : Database) (csv : Csv) :
  sit_transitions db = Ok csv ->
  exists names : list string,
    header csv = LStr "id" :: LStr "regen_delay" :: LStr "age_after"
                   :: (classifier_column <$> names) /\
    NoDup names /\
    (forall n, n ∈ names <-> exists r, r ∈ transitions_sql db /\ r.1.2 = n) /\
    forall line, line ∈ lines csv ->
      exists id regen_delay age_after cells,
        line = PInt id :: PInt regen_delay :: PInt age_after :: cells /\
        has_transition_classifier db id regen_delay age_after /\
        length cells = length names /\
        forall j n, names !! j = Some n ->
          (forall v, (id, regen_delay, age_after, n, v) ∈ transitions_sql db ->
             cells !! j = Some (PStr v)) /\
          ((forall v, (id, regen_delay, age_after, n, v) ∉ transitions_sql db) ->
             cells !! j = Some PNaN).
Proof.
  unfold sit_transitions, transitions_frame. fold (transition_data db).
  intros (frame & (pivoted & Hp & (reset & Hr & [= <-])%bind_Ok)%bind_Ok & [= <-])%bind_Ok.
  pose proof (pivot_NoDup _ _ _ _ Hp) as Hnd.
  apply pivot_Ok in Hp. fold (transition_index db) in Hp.
  set (labels := sorted_unique label_leb ((fun r => r.1.2) <$> transition_data db)) in *.
  subst pivoted. apply reset_index_Ok in Hr. subst reset.
  unfold to_csv, flattened. cbn [header lines rows columns index_names].
  assert (forall c, c ∈ labels <-> exists r, r ∈ transitions_sql db /\ c = LStr r.1.2)
    as Hlabels.
  { intros c. subst labels. rewrite sorted_unique_elem. unfold transition_data.
    rewrite <- list_fmap_compose, list_elem_of_fmap. split.
    - intros (r & -> & Hin). by exists r.
    - intros (r & Hin & ->). by exists r. }
  assert (labels = LStr <$> (label_name <$> labels)) as Hnames.
  { apply string_labels, Forall_forall. intros c (r & _ & ->)%Hlabels. by eexists. }
  exists (label_name <$> labels). split; [|split; [|split]].
  - rewrite _flatten_pivot_columns_fmap, fmap_app. simpl. do 3 f_equal.
    rewrite Hnames at 1. rewrite <- !list_fmap_compose. apply list_fmap_ext.
    intros i c _. simpl. apply flat_label_classifier.
  - apply (NoDup_fmap_1 LStr). rewrite <- Hnames. apply sorted_unique_NoDup.
  - intros n. split.
    + intros (c & -> & (r & Hin & ->)%Hlabels)%list_elem_of_fmap. by exists r.
    + intros (r & Hin & <-). apply list_elem_of_fmap. exists (LStr r.1.2).
      split; [done|]. apply Hlabels. by exists r.
  - intros line (r & -> & Hin)%list_elem_of_fmap.
    apply list_elem_of_lookup in Hin as [k Hk]. rewrite list_lookup_imap in Hk.
    rewrite list_lookup_fmap in Hk.
    destruct (transition_index db !! k) as [ix|] eqn:E; [|done].
    simpl in Hk. injection Hk as <-. cbn [snd fst].
    apply list_elem_of_lookup_2 in E.
    apply transition_index_elem in E as (id & rd & age & -> & Hkey).
    exists id, rd, age, (pivot_cell (transition_data db) [PInt id; PInt rd; PInt age] <$> labels).
    split; [done|]. split; [done|]. split; [by rewrite !length_fmap|].
    intros j n Hj. rewrite list_lookup_fmap in Hj.
    destruct (labels !! j) as [c|] eqn:Ej; [|done]. injection Hj as <-.
    assert (c = LStr (label_name c)) as Hc.
    { apply list_elem_of_lookup_2, Hlabels in Ej as (r & _ & ->). done. }
    rewrite list_lookup_fmap, Ej. simpl. split.
    + intros v Hv. f_equal. apply pivot_cell_found; [done|]. rewrite Hc.
      apply transition_data_elem. by exists v.
    + intros Hnone. f_equal. apply pivot_cell_missing. intros cell. rewrite Hc.
      intros (v & -> & Hv)%transition_data_elem. by apply (Hnone v).
Qed.


(** X10: what [sit_transitions.csv] holds.  The header is [id],
    [regen_delay], [age_after], then one column per distinct classifier
    name of the query; a line starts with the key of a transition that has
    a classifier value, and its cell under a classifier is the value the
    transition has for that classifier, or NaN when it has none. *)
Theorem transition_cells (db : Database) (csv : Csv) :
  sit_transitions db = Ok csv ->
  exists names : list string,
    header csv = LStr "id" :: LStr "regen_delay" :: LStr "age_after"
                   :: (classifier_column <$> names) /\
    NoDup names /\
    (forall n, n ∈ names <-> exists r, r ∈ transitions_sql db /\ r.1.2 = n) /\
    forall line, line ∈ lines csv ->
      exists id regen_delay age_after cells,
        line = PInt id :: PInt regen_delay :: PInt age_after :: cells /\
        has_transition_classifier db id regen_delay age_after /\
        length cells = length names /\
        forall j n, names !! j = Some n ->
          (forall v, (id, regen_delay, age_after, n, v) ∈ transitions_sql db ->
             cells !! j = Some (PStr v)) /\
          ((forall v, (id, regen_delay, age_after, n, v) ∉ transitions_sql db) ->
             cells !! j = Some PNaN).
Proof. apply sit_transitions_cells. Qed.

Lemma transition_cells_witness :
  exists names : list string,
    header {| header := [LStr "id"; LStr "regen_delay"; LStr "age_after"; LStr "spp"];
              lines := [[PInt 2; PInt 5; PInt 1; PStr "pine"]] |}
    = LStr "id" :: LStr "regen_delay" :: LStr "age_after" :: (classifier_column <$> names).
Proof.
  destruct (transition_cells demo_db _ sit_transitions_demo) as (names & Hheader & _).
  exists names. exact Hheader.
Defined.

(** *** The cells of the yield curves *)

Lemma classifier_data_elem (db : Database) (id : Z) (n : string) (cell : pyval) :
  ([PInt id], LStr n, cell) ∈ classifier_data db <->
  exists v, cell = PStr v /\ (id, n, v) ∈ component_classifiers_sql db.
Proof.
  unfold classifier_data. rewrite list_elem_of_fmap. split.
  - intros ([[id' n'] v] & [= -> -> ->] & Hin). by exists v.
  - intros (v & -> & Hin). by exists (id, n, v).
Qed.

Lemma value_data_elem (db : Database) (id a : Z) (cell : pyval) :
  ([PInt id], LInt a, cell) ∈ value_data db <-> (id, a, cell) ∈ component_values_sql db.
Proof.
  unfold value_data. rewrite list_elem_of_fmap. split.
  - by intros ([[id' a'] v] & [= -> -> ->] & Hin).
  - intros Hin. by exists (id, a, cell).
Qed.

Lemma classifier_labels_elem (db : Database) (c : label) :
  c ∈ classifier_labels db <-> exists r, r ∈ component_classifiers_sql db /\ c = LStr r.1.2.
Proof.
  unfold classifier_labels, classifier_data.
  rewrite sorted_unique_elem, <- list_fmap_compose, list_elem_of_fmap. split.
  - intros (r & -> & Hin). by exists r.
  - intros (r & Hin & ->). by exists r.
Qed.

Lemma age_labels_elem (db : Database) (c : label) :
  c ∈ age_labels db <-> exists r, r ∈ component_values_sql db /\ c = LInt r.1.2.
Proof.
  unfold age_labels, value_data.
  rewrite sorted_unique_elem, <- list_fmap_compose, list_elem_of_fmap. split.
  - intros (r & -> & Hin). by exists r.
  - intros (r & Hin & ->). by exists r.
Qed.

(** The ages behind integer labels. *)
Definition label_age (l : label) : Z :=
  match l with LInt z => z | LStr _ => 0 end.

Lemma int_labels (l : list label) :
  Forall (fun c => exists a, c = LInt a) l -> l = LInt <$> (label_age <$> l).
Proof.
  induction 1 as [|c l [a ->] _ IH]; [done|]. rewrite !fmap_cons. simpl. by rewrite <- IH.
Qed.

(** The species cell a join adds for a component. *)
Lemma joined_species_cell (db : Database) (id : Z) :
  NoDup (fst <$> component_species_sql db) ->
  exists species_cell,
    joined_cells (component_species_frame db) [PInt id] = [species_cell] /\
    (forall s, (id, s) ∈ component_species_sql db -> species_cell = PStr s) /\
    (~ has_species db id -> species_cell = PNaN).
Proof.
  intros Hnd. unfold joined_cells.
  destruct (filter _ (rows (component_species_frame db))) as [|m ms] eqn:E.
  - exists PNaN. split; [done|]. split; [|done]. intros s Hin. exfalso.
    assert (([PInt id], [PStr s]) ∈ filter
              (fun r' : list pyval * list pyval => r'.1 = [PInt id])
              (rows (component_species_frame db))) as Hm.
    { apply list_elem_of_filter. split; [done|]. simpl.
      apply list_elem_of_fmap. by exists (id, s). }
    rewrite E in Hm. by apply elem_of_nil in Hm.
  - assert (m ∈ filter (fun r' : list pyval * list pyval => r'.1 = [PInt id])
                (rows (component_species_frame db))) as Hm by (rewrite E; left).
    apply list_elem_of_filter in Hm as [Hkey Hm]. simpl in Hm.
    apply list_elem_of_fmap in Hm as ([id' n] & -> & Hin). simpl in *.
    injection Hkey as ->. exists (PStr n). split; [done|]. split.
    + intros s Hs. f_equal.
      by apply (Rollback.NoDup_fst_functional (component_species_sql db) id).
    + intros Hnot. exfalso. apply Hnot. unfold has_species.
      apply list_elem_of_fmap. by exists (id, n).
Qed.

(** The cells of the ages a join adds for a component. *)
Lemma joined_value_cells (db : Database) (id : Z) :
  let component_values :=
    {| index_names := ["growth_curve_component_id"];
       columns := flat_label <$> ((fun c => (LStr "merchantable_volume", c)) <$> age_labels db);
       rows := (fun i => (i, pivot_cell (value_data db) i <$> age_labels db))
                 <$> value_index db |} in
  length (joined_cells component_values [PInt id]) = length (age_labels db) /\
  (forall j a, age_labels db !! j = Some (LInt a) ->
     (forall v, (id, a, v) ∉ component_values_sql db) ->
     joined_cells component_values [PInt id] !! j = Some PNaN) /\
  (~ has_values db id ->
   joined_cells component_values [PInt id] = replicate (length (age_labels db)) PNaN).
Proof.
  intros component_values. unfold joined_cells. subst component_values. cbn [rows columns].
  rewrite !length_fmap.
  destruct (filter _ _) as [|m ms] eqn:E.
  - split; [by rewrite length_replicate|]. split; [|done].
    intros j a Hj _. apply lookup_replicate_2. by eapply lookup_lt_Some.
  - assert (m ∈ filter (fun r' : list pyval * list pyval => r'.1 = [PInt id])
                ((fun i => (i, pivot_cell (value_data db) i <$> age_labels db))
                   <$> value_index db)) as Hm by (rewrite E; left).
    apply list_elem_of_filter in Hm as [Hkey Hm].
    apply list_elem_of_fmap in Hm as (ix & -> & Hin). simpl in *. subst ix.
    split; [by rewrite length_fmap|]. split.
    + intros j a Hj Hnone. rewrite list_lookup_fmap, Hj. simpl. f_equal.
      apply pivot_cell_missing. intros v Hv%value_data_elem. by apply (Hnone v).
    + intros Hnot. exfalso. apply Hnot.
      apply value_index_elem in Hin as (id' & [= <-] & Hv). done.
Qed.

(** [yield_curves] cell by cell. *)
Lemma yield_curves_cells (db : Database) (curves : DataFrame label) :
  NoDup (gcc_id <$> growth_curve_components db) ->
  NoDup (s_id <$> species_table db) ->
  yield_curves db = Ok curves ->
  exists (names : list string) (ages : list Z),
    columns curves = LStr "growth_curve_component_id"
                       :: ((classifier_column <$> names) ++ [LStr "species"])
                       ++ (LInt <$> ages) /\
    NoDup names /\
    (forall n, n ∈ names <-> exists r, r ∈ component_classifiers_sql db /\ r.1.2 = n) /\
    NoDup ages /\
    (forall a, a ∈ ages <-> exists r, r ∈ component_values_sql db /\ r.1.2 = a) /\
    forall r, r ∈ rows curves ->
      exists id classifier_cells species_cell age_cells,
        r.2 = PInt id :: (classifier_cells ++ [species_cell]) ++ age_cells /\
        has_classifier db id /\
        length classifier_cells = length names /\
        length age_cells = length ages /\
        (forall j n, names !! j = Some n ->
           (forall v, (id, n, v) ∈ component_classifiers_sql db ->
              classifier_cells !! j = Some (PStr v)) /\
           ((forall v, (id, n, v) ∉ component_classifiers_sql db) ->
              classifier_cells !! j = Some PNaN)) /\
        (forall s, (id, s) ∈ component_species_sql db -> species_cell = PStr s) /\
        (~ has_species db id -> species_cell = PNaN) /\
        (forall j a, ages !! j = Some a ->
           (forall v, (id, a, v) ∉ component_values_sql db) ->
           age_cells !! j = Some PNaN) /\
        (~ has_values db id -> age_cells = replicate (length ages) PNaN).
Proof.
  intros Hgcc Hs Hc.
  destruct (yield_curves_Ok db curves Hgcc Hs Hc)
    as (components & component_values & Hcomp & Hval & ->).
  assert (NoDup (fst <$> classifier_data db)) as Hnd.
  { unfold components_frame in Hcomp. fold (classifier_data db) in Hcomp.
    by apply bind_Ok in Hcomp as (pivoted & Hp%pivot_NoDup & _). }
  apply components_frame_Ok in Hcomp as ->.
  apply component_values_frame_Ok in Hval as Hframe.
  assert (classifier_labels db = LStr <$> (label_name <$> classifier_labels db)) as Hnames.
  { apply string_labels, Forall_forall. intros c (r & _ & ->)%classifier_labels_elem.
    by eexists. }
  assert (age_labels db = LInt <$> (label_age <$> age_labels db)) as Hages.
  { apply int_labels, Forall_forall. intros c (r & _ & ->)%age_labels_elem. by eexists. }
  exists (label_name <$> classifier_labels db), (label_age <$> age_labels db).
  split; [|split; [|split; [|split; [|split]]]].
  - rewrite Hframe. cbn [columns]. f_equal. f_equal; [f_equal|].
    + rewrite Hnames at 1. rewrite <- !list_fmap_compose. apply list_fmap_ext.
      intros i c _. simpl. apply flat_label_classifier.
    + rewrite Hages at 1. rewrite <- !list_fmap_compose. by apply list_fmap_ext.
  - apply (NoDup_fmap_1 LStr). rewrite <- Hnames. apply sorted_unique_NoDup.
  - intros n. split.
    + intros (c & -> & (r & Hin & ->)%classifier_labels_elem)%list_elem_of_fmap.
      by exists r.
    + intros (r & Hin & <-). apply list_elem_of_fmap. exists (LStr r.1.2).
      split; [done|]. apply classifier_labels_elem. by exists r.
  - apply (NoDup_fmap_1 LInt). rewrite <- Hages. apply sorted_unique_NoDup.
  - intros a. split.
    + intros (c & -> & (r & Hin & ->)%age_labels_elem)%list_elem_of_fmap. by exists r.
    + intros (r & Hin & <-). apply list_elem_of_fmap. exists (LInt r.1.2).
      split; [done|]. apply age_labels_elem. by exists r.
  - cbn [rows]. intros r Hr.
    apply list_elem_of_lookup in Hr as [k Hr].
    rewrite list_lookup_imap, !list_lookup_fmap in Hr.
    destruct (component_index db !! k) as [ix|] eqn:E; [|done].
    apply list_elem_of_lookup_2 in E.
    apply component_index_elem in E as (id & -> & Hid).
    simpl in Hr. injection Hr as <-. cbn [snd fst].
    destruct (joined_species_cell db id) as (species_cell & -> & Hfound & Hmissing).
    { by apply component_species_ids_NoDup. }
    destruct (joined_value_cells db id) as (Hlen & Hcells & Hnone).
    rewrite <- Hframe in Hlen, Hcells, Hnone.
    exists id, (pivot_cell (classifier_data db) [PInt id] <$> classifier_labels db),
      species_cell, (joined_cells component_values [PInt id]).
    split; [done|]. split; [done|]. split; [by rewrite !length_fmap|].
    split; [by rewrite length_fmap|]. split; [|split; [done|split; [done|split]]].
    + intros j n Hj. rewrite list_lookup_fmap in Hj.
      destruct (classifier_labels db !! j) as [c|] eqn:Ej; [|done]. injection Hj as <-.
      assert (c = LStr (label_name c)) as Hlabel.
      { apply list_elem_of_lookup_2, classifier_labels_elem in Ej as (r & _ & ->). done. }
      rewrite list_lookup_fmap, Ej. simpl. split.
      * intros v Hv. f_equal. apply pivot_cell_found; [done|]. rewrite Hlabel.
        apply classifier_data_elem. by exists v.
      * intros Hnot. f_equal. apply pivot_cell_missing. intros cell. rewrite Hlabel.
        intros (v & -> & Hv)%classifier_data_elem. by apply (Hnot v).
    + intros j a Hj. rewrite list_lookup_fmap in Hj.
      destruct (age_labels db !! j) as [c|] eqn:Ej; [|done]. injection Hj as <-.
      assert (c = LInt (label_age c)) as Hlabel.
      { apply list_elem_of_lookup_2, age_labels_elem in Ej as (r & _ & ->). done. }
      intros Hnot. apply (Hcells j (label_age c)); [by rewrite <- Hlabel|done].
    + intros Hnot. rewrite length_fmap. by apply Hnone.
Qed.

(** C2, as the code has it: with primary keys on the component and species
    tables, a growth-curve component that has a classifier value gets
    exactly one row.  The row holds, under each classifier, the value the
    component has for it, or NaN when it has none; the name of its species,
    or NaN when it has no species row; and NaN under every age it has no
    volume for.  A transition key that has a classifier value gets exactly
    one line, with the value or NaN under each classifier in the same way.
    A component or a transition without any classifier value gets none:
    the queries start from an inner join with the classifier values.  On
    well-formed data both extractions return their table, and the lines of
    [sit_yields.csv] are the rows without the component id. *)
Theorem extraction_keeps_classified_entities (db : Database) :
  NoDup (gcc_id <$> growth_curve_components db) ->
  NoDup (s_id <$> species_table db) ->
  (forall csv, sit_yields db = Ok csv ->
     exists curves (names : list string) (ages : list Z),
       yield_curves db = Ok curves /\
       lines csv = (fun r => tail r.2) <$> rows curves /\
       columns curves = LStr "growth_curve_component_id"
                          :: ((classifier_column <$> names) ++ [LStr "species"])
                          ++ (LInt <$> ages) /\
       NoDup names /\
       (forall n, n ∈ names <-> exists r, r ∈ component_classifiers_sql db /\ r.1.2 = n) /\
       NoDup ages /\
       (forall a, a ∈ ages <-> exists r, r ∈ component_values_sql db /\ r.1.2 = a) /\
       (forall id,
          let n := length (filter (fun r : list pyval * list pyval =>
                                     head r.2 = Some (PInt id)) (rows curves)) in
          (has_classifier db id -> n = 1%nat) /\ (~ has_classifier db id -> n = 0%nat)) /\
       (forall r, r ∈ rows curves ->
          exists id classifier_cells species_cell age_cells,
            r.2 = PInt id :: (classifier_cells ++ [species_cell]) ++ age_cells /\
            has_classifier db id /\
            length classifier_cells = length names /\
            length age_cells = length ages /\
            (forall j n, names !! j = Some n ->
               (forall v, (id, n, v) ∈ component_classifiers_sql db ->
                  classifier_cells !! j = Some (PStr v)) /\
               ((forall v, (id, n, v) ∉ component_classifiers_sql db) ->
                  classifier_cells !! j = Some PNaN)) /\
            (forall s, (id, s) ∈ component_species_sql db -> species_cell = PStr s) /\
            (~ has_species db id -> species_cell = PNaN) /\
            (forall j a, ages !! j = Some a ->
               (forall v, (id, a, v) ∉ component_values_sql db) ->
               age_cells !! j = Some PNaN) /\
            (~ has_values db id -> age_cells = replicate (length ages) PNaN))) /\
  (forall csv, sit_transitions db = Ok csv ->
     (forall id regen_delay age_after,
        let n := length (filter (fun line : list pyval =>
                                   take 3 line = [PInt id; PInt regen_delay; PInt age_after])
                           (lines csv)) in
        (has_transition_classifier db id regen_delay age_after -> n = 1%nat) /\
        (~ has_transition_classifier db id regen_delay age_after -> n = 0%nat)) /\
     exists names : list string,
       header csv = LStr "id" :: LStr "regen_delay" :: LStr "age_after"
                      :: (classifier_column <$> names) /\
       NoDup names /\
       (forall n, n ∈ names <-> exists r, r ∈ transitions_sql db /\ r.1.2 = n) /\
       forall line, line ∈ lines csv ->
         exists id regen_delay age_after cells,
           line = PInt id :: PInt regen_delay :: PInt age_after :: cells /\
           has_transition_classifier db id regen_delay age_after /\
           length cells = length names /\
           forall j n, names !! j = Some n ->
             (forall v, (id, regen_delay, age_after, n, v) ∈ transitions_sql db ->
                cells !! j = Some (PStr v)) /\
             ((forall v, (id, regen_delay, age_after, n, v) ∉ transitions_sql db) ->
                cells !! j = Some PNaN)) /\
  (yields_well_formed db -> exists csv, sit_yields db = Ok csv) /\
  (transitions_well_formed db -> exists csv, sit_transitions db = Ok csv).
Proof.
  intros Hgcc Hs. split; [|split; [|split;
    [apply sit_yields_succeeds|apply sit_transitions_succeeds]]].
  - intros csv Hcsv. pose proof Hcsv as (curves & Hc & Hlen)%sit_yields_Ok.
    destruct (yield_curves_cells db curves Hgcc Hs Hc)
      as (names & ages & Hcols & Hnames & Hn & Hages & Ha & Hrows).
    exists curves, names, ages. split; [done|]. split.
    { unfold sit_yields in Hcsv. rewrite Hc in Hcsv. simpl in Hcsv.
      apply bind_Ok in Hcsv as (dropped & Hd & [= <-]).
      destruct (yield_curves_shape db curves Hc) as [_ (cols & Hcols' & Hnot)].
      unfold drop in Hd. rewrite Hcols', positions_of_head in Hd by done.
      injection Hd as <-. unfold to_csv. cbn [lines rows].
      rewrite <- list_fmap_compose. apply list_fmap_ext. intros i r _. simpl.
      apply drop_positions_head. }
    do 5 (split; [done|]). split; [|done]. intros id n. subst n.
    rewrite (yield_curves_count db curves id Hgcc Hs Hc).
    case_bool_decide as Hin.
    + split; [done|]. intros Hnot. exfalso. apply Hnot.
      apply component_index_elem in Hin as (id' & [= <-] & Hid). done.
    + split; [|done]. intros Hid. exfalso. apply Hin.
      apply component_index_elem. by exists id.
  - intros csv Hcsv. split; [|by apply sit_transitions_cells].
    apply sit_transitions_Ok in Hcsv as (frame & Hf & ->). intros id rd age n. subst n.
    rewrite filter_fmap_length.
    rewrite (transitions_frame_count db frame id rd age Hf).
    case_bool_decide as Hin.
    + split; [done|]. intros Hnot. exfalso. apply Hnot.
      apply transition_index_elem in Hin as (id' & rd' & age' & [= <- <- <-] & Hid). done.
    + split; [|done]. intros Hid. exfalso. apply Hin.
      apply transition_index_elem. by exists id, rd, age.
Qed.

(** On the small database: component 3 has a value for the classifier
    [region] only, no species and no volumes, and its row holds NaN
    everywhere else. *)
Lemma extraction_keeps_classified_entities_witness :
  NoDup (gcc_id <$> growth_curve_components demo_db) /\
  NoDup (s_id <$> species_table demo_db) /\
  exists curves,
    yield_curves demo_db = Ok curves /\
    length (rows curves) = 2%nat /\
    (forall r, r ∈ rows curves -> head r.2 = Some (PInt 3) ->
       r.2 = [PInt 3; PStr "north"; PNaN; PNaN; PNaN; PNaN]).
Proof.
  assert (NoDup (gcc_id <$> growth_curve_components demo_db)) as Hgcc.
  { apply (bool_decide_unpack _). vm_compute. exact I. }
  assert (NoDup (s_id <$> species_table demo_db)) as Hs.
  { apply (bool_decide_unpack _). vm_compute. exact I. }
  split; [exact Hgcc|]. split; [exact Hs|].
  destruct (extraction_keeps_classified_entities demo_db Hgcc Hs) as [Hyields _].
  destruct (Hyields _ sit_yields_demo)
    as (curves & names & ages & Hc & Hlines & Hcols & _ & _ & _ & _ & _ & Hrows).
  exists curves. split; [exact Hc|]. split.
  { apply (f_equal length) in Hlines. rewrite length_fmap in Hlines.
    rewrite <- Hlines. reflexivity. }
  assert (yield_curves demo_db = Ok curves) as Hc' by exact Hc.
  vm_compute in Hc'. injection Hc' as <-.
  intros r Hr Hhead.
  repeat (apply elem_of_cons in Hr as [->|Hr]; [done || discriminate Hhead|]).
  by apply elem_of_nil in Hr.
Defined.

(** *** When the extraction raises, and what *)

Lemma bind_Raise {A B} (r : result A) (k : A -> result B) (e : exn) :
  bind r k = Raise e -> r = Raise e \/ exists a, r = Ok a /\ k a = Raise e.
Proof. destruct r as [a|e']; simpl; [right; by exists a|left; congruence]. Qed.

Lemma is_ok_Ok {A} (r : result A) : is_ok r = true <-> exists a, r = Ok a.
Proof. destruct r; simpl; split; try done; [by eexists|by intros [? ?]]. Qed.

Definition is_ValueError (e : exn) : Prop := exists msg, e = ValueError msg.

Lemma pivot_Raise (index : list string) (value_name : string)
    (data : list (list pyval * label * pyval)) (e : exn) :
  pivot index value_name data = Raise e -> is_ValueError e.
Proof. unfold pivot. case_bool_decide; [done|]. intros [= <-]. by eexists. Qed.

Lemma reset_index_Raise {L} `{EqDecision L} (mk : string -> L) (df : DataFrame L) (e : exn) :
  reset_index mk df = Raise e -> is_ValueError e.
Proof. unfold reset_index. case_bool_decide; [|done]. intros [= <-]. by eexists. Qed.

Lemma join_Raise (left right : DataFrame label) (e : exn) :
  join left right = Raise e -> is_ValueError e.
Proof. unfold join. case_bool_decide; [|done]. intros [= <-]. by eexists. Qed.

Lemma classifier_keys (db : Database) :
  fst <$> classifier_data db =
  (fun k : Z * string => ([PInt k.1], LStr k.2)) <$> (fst <$> component_classifiers_sql db).
Proof. unfold classifier_data. by rewrite <- !list_fmap_compose. Qed.

Lemma value_keys (db : Database) :
  fst <$> value_data db =
  (fun k : Z * Z => ([PInt k.1], LInt k.2)) <$> (fst <$> component_values_sql db).
Proof. unfold value_data. by rewrite <- !list_fmap_compose. Qed.

Lemma transition_keys (db : Database) :
  fst <$> transition_data db =
  (fun k : Z * Z * Z * string => ([PInt k.1.1.1; PInt k.1.1.2; PInt k.1.2], LStr k.2))
    <$> (fst <$> transitions_sql db).
Proof. unfold transition_data. by rewrite <- !list_fmap_compose. Qed.

Lemma components_frame_pivot (db : Database) (components : DataFrame label) :
  components_frame db = Ok components -> NoDup (fst <$> component_classifiers_sql db).
Proof.
  unfold components_frame. fold (classifier_data db).
  intros (pivoted & Hp%pivot_NoDup & _)%bind_Ok.
  rewrite classifier_keys in Hp. by apply NoDup_fmap_1 in Hp.
Qed.

Lemma component_values_frame_pivot (db : Database) (component_values : DataFrame label) :
  component_values_frame db = Ok component_values ->
  NoDup (fst <$> component_values_sql db).
Proof.
  unfold component_values_frame. fold (value_data db).
  intros (pivoted & Hp%pivot_NoDup & _)%bind_Ok.
  rewrite value_keys in Hp. by apply NoDup_fmap_1 in Hp.
Qed.

Lemma components_frame_Raise (db : Database) (e : exn) :
  components_frame db = Raise e -> is_ValueError e.
Proof.
  unfold components_frame. fold (classifier_data db).
  intros [Hp|(pivoted & Hp & Hrest)]%bind_Raise; [by eapply pivot_Raise|].
  apply bind_Raise in Hrest as [Hr|(reset & Hr & Hrest)]; [by eapply reset_index_Raise|].
  exfalso. apply pivot_Ok in Hp. subst pivoted. apply reset_index_Ok in Hr. subst reset.
  unfold set_index in Hrest. cbn [columns index_names fmap list_fmap app
    column_position fst] in Hrest.
  by rewrite bool_decide_true in Hrest.
Qed.

Lemma component_values_frame_Raise (db : Database) (e : exn) :
  component_values_frame db = Raise e -> is_ValueError e.
Proof.
  unfold component_values_frame.
  intros [Hp|(pivoted & Hp & Hrest)]%bind_Raise; [by eapply pivot_Raise|done].
Qed.

(** The columns of [yield_curves], and the names they exclude. *)
Lemma yield_curves_columns (db : Database) (curves : DataFrame label) :
  yield_curves db = Ok curves ->
  exists components component_values,
    components_frame db = Ok components /\
    component_values_frame db = Ok component_values /\
    columns curves = LStr "growth_curve_component_id"
                       :: (columns components ++ [LStr "species"])
                       ++ columns component_values /\
    (LStr "species" ∉ columns components) /\
    (LStr "growth_curve_component_id" ∉ columns components).
Proof.
  unfold yield_curves.
  intros (components & Hc & (component_values & Hv & Hrest)%bind_Ok)%bind_Ok.
  apply bind_Ok in Hrest as (with_species & Hj1 & (joined & Hj2 & Hreset)%bind_Ok).
  destruct (components_frame_shape db components Hc) as (_ & _ & Nc).
  destruct (join_names _ _ _ Hj1) as (N1 & C1 & O1).
  destruct (join_names _ _ _ Hj2) as (N2 & C2 & _).
  exists components, component_values. split; [done|]. split; [done|].
  unfold reset_index in Hreset. rewrite N2, N1, Nc, C2, C1 in Hreset.
  case_bool_decide as Hex; [done|]. injection Hreset as <-. cbn [columns].
  split; [done|]. split.
  - intros Hin. apply O1, Exists_exists. exists (LStr "species"). split; [done|]. left.
  - intros Hin. apply Hex. constructor. apply elem_of_app. left. apply elem_of_app. by left.
Qed.

Lemma yield_curves_Raise (db : Database) (e : exn) :
  yield_curves db = Raise e -> is_ValueError e.
Proof.
  unfold yield_curves.
  intros [Hc|(components & Hc & Hrest)]%bind_Raise; [by eapply components_frame_Raise|].
  apply bind_Raise in Hrest as [Hv|(component_values & Hv & Hrest)];
    [by eapply component_values_frame_Raise|].
  apply bind_Raise in Hrest as [Hj|(with_species & Hj & Hrest)]; [by eapply join_Raise|].
  apply bind_Raise in Hrest as [Hj2|(joined & Hj2 & Hrest)]; [by eapply join_Raise|].
  by eapply reset_index_Raise.
Qed.

(** X11: the extraction raises on ill-formed data only, and then a
    ValueError.  [sit_yields.csv] is computed exactly when no component has
    two values for one classifier or two volumes for one age, and no
    classifier of a growth curve is named [species] or
    [growth_curve_component_id]; [sit_transitions.csv] exactly when no
    transition has two values for one classifier. *)
Theorem extraction_raises_on_ill_formed_data_only (db : Database) :
  (is_ok (sit_yields db) = true <-> yields_well_formed db) /\
  (is_ok (sit_transitions db) = true <-> transitions_well_formed db) /\
  (forall e, sit_yields db = Raise e \/ sit_transitions db = Raise e -> is_ValueError e).
Proof.
  split; [|split].
  - rewrite is_ok_Ok. split; [|apply sit_yields_succeeds].
    intros [csv Hcsv]. unfold sit_yields in Hcsv. apply bind_Ok in Hcsv as (curves & Hc & _).
    apply yield_curves_columns in Hc
      as (components & component_values & Hc & Hv & _ & Hspecies & Hid).
    split; [by eapply components_frame_pivot|].
    split; [by eapply component_values_frame_pivot|].
    intros r Hr.
    assert (LStr r.1.2 ∈ classifier_labels db) as Hlabel.
    { unfold classifier_labels, classifier_data.
      rewrite sorted_unique_elem, <- list_fmap_compose. apply list_elem_of_fmap. by exists r. }
    assert (r.1.2 <> "" -> LStr r.1.2 ∈ columns components) as Hcol.
    { intros Hne. rewrite (components_frame_Ok db components Hc). cbn [columns].
      rewrite <- list_fmap_compose. apply list_elem_of_fmap. exists (LStr r.1.2).
      split; [|done]. simpl. rewrite flat_label_classifier. unfold classifier_column.
      by apply String.eqb_neq in Hne as ->. }
    split; intros Heq; [apply Hspecies|apply Hid]; rewrite <- Heq; apply Hcol;
      by rewrite Heq.
  - rewrite is_ok_Ok. split; [|apply sit_transitions_succeeds].
    intros [csv Hcsv]. unfold sit_transitions, transitions_frame in Hcsv.
    fold (transition_data db) in Hcsv.
    apply bind_Ok in Hcsv as (frame & (pivoted & Hp%pivot_NoDup & _)%bind_Ok & _).
    rewrite transition_keys in Hp. by apply NoDup_fmap_1 in Hp.
  - intros e [He|He].
    + unfold sit_yields in He.
      apply bind_Raise in He as [Hc|(curves & Hc & Hrest)]; [by eapply yield_curves_Raise|].
      exfalso. destruct (yield_curves_shape db curves Hc) as [_ (cols & Hcols & Hnot)].
      unfold drop in Hrest. by rewrite Hcols, positions_of_head in Hrest.
    + unfold sit_transitions, transitions_frame in He.
      apply bind_Raise in He as [Hf|(frame & _ & ?)]; [|done].
      apply bind_Raise in Hf as [Hp|(pivoted & _ & Hrest)]; [by eapply pivot_Raise|].
      apply bind_Raise in Hrest as [Hr|(reset & _ & ?)]; [|done].
      by eapply reset_index_Raise.
Qed.

(** *** [convert] and the output directory *)

Lemma is_dir_missing (s : fs) (p : Fs.Path) : s !! p = None -> p <> [] -> Fs.is_dir s p = false.
Proof. intros Hp Hne. unfold Fs.is_dir. destruct p; [done|]. by rewrite Hp. Qed.

Lemma is_dir_insert_other (s : fs) (p q : Fs.Path) (x : Fs.node content) :
  Fs.is_dir s p = true -> p <> q -> Fs.is_dir (<[q := x]> s) p = true.
Proof.
  unfold Fs.is_dir. destruct p; [done|]. intros Hp Hne. by rewrite lookup_insert_ne.
Qed.

(** A database that is there is what the connection gives, and nothing
    changes. *)
Lemma connection_found (project : Project) (s : fs) (db : Database) :
  s !! database_path project = Some (Fs.File (Sqlite db)) ->
  _input_db_connection project s = (Ok (Some db), s).
Proof. unfold _input_db_connection. by intros ->. Qed.

(** A table that can be computed is written into an existing directory. *)
Lemma write_table_Ok (project : Project) (table : Database -> result Csv)
    (output_path : Fs.Path) (file : string) (s : fs) (db : Database) (csv : Csv) :
  Fs.is_dir s output_path = true ->
  s !! (output_path ++ [file]) = None ->
  s !! database_path project = Some (Fs.File (Sqlite db)) ->
  table db = Ok csv ->
  write_table project table (output_path ++ [file]) s =
  (Ok tt, <[output_path ++ [file] := Fs.File (CsvFile csv)]> s).
Proof.
  intros Hdir Hfile Hdb Htable. unfold write_table, io_bind.
  rewrite (connection_found _ _ _ Hdb). simpl. rewrite Htable.
  unfold Fs.write_file. rewrite Fs.parent_snoc, Hdir. simpl.
  rewrite is_dir_missing; [done|done|]. by destruct output_path.
Qed.

Lemma write_table_Raise (project : Project) (table : Database -> result Csv)
    (path : Fs.Path) (s : fs) (db : Database) (e : exn) :
  s !! database_path project = Some (Fs.File (Sqlite db)) ->
  table db = Raise e ->
  write_table project table path s = (Raise e, s).
Proof.
  intros Hdb Htable. unfold write_table, io_bind.
  rewrite (connection_found _ _ _ Hdb). simpl. by rewrite Htable.
Qed.

Section ConvertSteps.
Variable _build_input_database : Project -> Fs.Path -> option Fs.Path -> IO Fs.Path.
Variable _convert_spatial_data : Fs.Path -> Project -> Fs.Path -> IO unit.

#[local] Abbreviation convert_run :=
  (convert _build_input_database _convert_spatial_data).

(** X12: [convert] is not all-or-nothing.  Once the output directory is
    made afresh (which a regular file at the output path prevents) and with
    the database of the project in place, it writes [sit_yields.csv] first;
    when the transitions cannot be extracted, the call fails and leaves the
    output directory with that one file; when they can,
    [sit_transitions.csv] is written next, and the two remaining steps
    start on a directory that holds the two tables. *)
Theorem convert_writes_tables_first (project : Project) (output_path : Fs.Path)
    (aidb_path : option Fs.Path) (s s1 : fs) (db : Database) (yields : Csv) :
  Fs.is_file s output_path = false ->
  Fs.mkdir_parents output_path (Fs.rmtree output_path s) = Ok s1 ->
  s1 !! database_path project = Some (Fs.File (Sqlite db)) ->
  sit_yields db = Ok yields ->
  let s2 := <[output_path ++ ["sit_yields.csv"] := Fs.File (CsvFile yields)]> s1 in
  match sit_transitions db with
  | Raise e => convert_run project output_path aidb_path s = (Raise e, s2)
  | Ok transitions =>
      convert_run project output_path aidb_path s =
      io_bind (_build_input_database project output_path aidb_path)
        (fun cbm_defaults_path =>
           _convert_spatial_data cbm_defaults_path project output_path)
        (<[output_path ++ ["sit_transitions.csv"] := Fs.File (CsvFile transitions)]> s2)
  end.
Proof.
  intros Hnofile Hmk Hdb Hyields s2.
  assert (forall file, s1 !! (output_path ++ [file]) = None) as Hfresh.
  { intros file. rewrite (Fs.mkdir_parents_below _ _ _ _ Hmk).
    - apply Fs.rmtree_below; [done|]. by exists [file].
    - by exists [file].
    - intros Heq. apply (f_equal length) in Heq. rewrite length_app in Heq.
      simpl in Heq. lia. }
  pose proof (Fs.mkdir_parents_is_dir _ _ _ Hmk) as Hdir.
  assert (_convert_yields project output_path s1 = (Ok tt, s2)) as Hstep1.
  { unfold _convert_yields. by apply (write_table_Ok _ _ _ _ _ db). }
  assert (s2 !! database_path project = Some (Fs.File (Sqlite db))) as Hdb2.
  { subst s2. rewrite lookup_insert_ne; [done|]. intros Heq.
    rewrite <- Heq, Hfresh in Hdb. discriminate Hdb. }
  destruct (sit_transitions db) as [transitions|e] eqn:Et;
    unfold convert, convert_into; rewrite Hmk; unfold io_bind at 1; rewrite Hstep1;
    unfold io_bind at 1, _convert_transitions.
  - rewrite (write_table_Ok project sit_transitions output_path "sit_transitions.csv"
               s2 db transitions); [done| |  |done|done].
    + apply is_dir_insert_other; [done|]. intros Heq. apply (f_equal length) in Heq.
      rewrite length_app in Heq. simpl in Heq. lia.
    + subst s2. rewrite lookup_insert_ne; [apply Hfresh|].
      intros Heq. apply app_inv_head in Heq. discriminate Heq.
  - by rewrite (write_table_Raise project sit_transitions _ s2 db e).
Qed.


End ConvertSteps.

(** A project whose input database is in place, and one whose input
    database lies in the directory it is converted into. *)
Definition ready_fs : fs :=
  {[ ["project"] := Fs.Dir;
     ["project"; "gcbm_input.db"] := Fs.File (Sqlite demo_db) ]}.



Lemma ready_fs_no_file : Fs.is_file ready_fs ["out"] = false.
Proof. unfold Fs.is_file, ready_fs. by rewrite lookup_insert_ne, lookup_singleton_ne. Qed.

Lemma convert_writes_tables_first_witness :
  exists s3 : fs,
    convert (fun _ out _ s => (Ok (out ++ ["cbm_defaults.db"]), s))
      (fun _ _ _ s => (Ok tt, s)) lost_project ["out"] None ready_fs = (Ok tt, s3) /\
    s3 !! ["out"; "sit_transitions.csv"] =
      Some (Fs.File (CsvFile
        {| header := [LStr "id"; LStr "regen_delay"; LStr "age_after"; LStr "spp"];
           lines := [[PInt 2; PInt 5; PInt 1; PStr "pine"]] |})).
Proof.
  assert (Fs.mkdir_parents ["out"] (Fs.rmtree ["out"] ready_fs)
          = Ok (<[["out"] := Fs.Dir]> (Fs.rmtree ["out"] ready_fs))) as Hmk.
  { unfold Fs.mkdir_parents. rewrite bool_decide_false; [done|].
    intros (q & Hq & Hfile)%Exists_exists.
    apply list_elem_of_singleton in Hq as ->.
    unfold Fs.is_file in Hfile.
    by rewrite (Fs.rmtree_below _ _ _ ready_fs_no_file) in Hfile. }
  assert ((<[["out"] := Fs.Dir]> (Fs.rmtree ["out"] ready_fs)) !! database_path lost_project
          = Some (Fs.File (Sqlite demo_db))) as Hdb.
  { cbn [database_path has_rollback input_db_path lost_project].
    rewrite lookup_insert_ne by done.
    rewrite Fs.rmtree_outside by (intros [k Hk]; discriminate Hk).
    unfold ready_fs. by rewrite lookup_insert_ne, lookup_singleton_eq. }
  pose proof (convert_writes_tables_first
                (fun _ out _ s => (Ok (out ++ ["cbm_defaults.db"]), s))
                (fun _ _ _ s => (Ok tt, s)) lost_project ["out"] None ready_fs _ demo_db _
                ready_fs_no_file Hmk Hdb sit_yields_demo) as Hrun.
  rewrite sit_transitions_demo in Hrun. cbv beta iota zeta in Hrun.
  eexists. split; [exact Hrun|]. apply lookup_insert_eq.
Defined.


(** *** [_find_aidb_path] and [_build_input_database] *)

Unset Elimination Schemes.

(** What [json.load] returns; an object is the dict built from it. *)
Inductive json :=
  | JNull
  | JBool (b : bool)
  | JInt (z : Z)
  | JFloat (m e : Z)
  | JString (s : string)
  | JArray (items : list json)
  | JObject (members : dict string json).

Set Elimination Schemes.

(** [bool(value)] *)
Definition json_truthy (value : json) : bool :=
  match value with
  | JNull => false
  | JBool b => b
  | JInt z => negb (z =? 0)
  | JFloat m _ => negb (m =? 0)
  | JString s => negb (String.eqb s "")
  | JArray items => match items with [] => false | _ => true end
  | JObject members => match members with [] => false | _ => true end
  end.

(** What the two functions can raise: the exceptions above, and
    AttributeError. *)
Inductive raised :=
  | Builtin (e : exn)
  | AttributeError (msg : string).

Inductive outcome (A : Type) :=
  | Returns (a : A)
  | Raises (r : raised).
Arguments Returns {A} a.
Arguments Raises {A} r.

(** [json_data.get(aidb_key)]: only a dict has the method. *)
Definition json_get (key : string) (json_data : json) : outcome json :=
  match json_data with
  | JObject members => Returns (default JNull (dict_get String.eqb key members))
  | _ => Raises (AttributeError "object has no attribute 'get'")
  end.

Definition aidb_keys : list string := ["aidb"; "AIDBPath"].

(** The two arguments of [Path(...)] in the last resort. *)
Definition default_aidb_path : Fs.Path :=
  ["C:\Program Files (x86)\Operational-Scale CBM-CFS3\Admin\DBs";
   "ArchiveIndex_Beta_Install.mdb"].

Section FindAidb.
(** [project.path.rglob("*.json")], in the order the file system gives,
    each file with what [json.load(open(json_file))] makes of it. *)
Variable rglob_json : Fs.Path -> list (Fs.Path * result json).
(** [json_file.parent.joinpath(aidb_path).absolute()] for a string. *)
Variable joinpath_absolute : Fs.Path -> string -> Fs.Path.

(** The loop over the keys for one file: the path to return, or None to
    go on with the next file. *)
Fixpoint try_keys (s : fs) (json_file : Fs.Path) (json_data : json) (keys : list string)
    : outcome (option Fs.Path) :=
  match keys with
  | [] => Returns None
  | aidb_key :: keys' =>
      match json_get aidb_key json_data with
      | Raises r => Raises r
      | Returns aidb_path =>
          if json_truthy aidb_path then
            match aidb_path with
            | JString path =>
                let aidb_path := joinpath_absolute json_file path in
                if Fs.path_exists s aidb_path then Returns (Some aidb_path)
                else try_keys s json_file json_data keys'
            | _ => Raises (Builtin (TypeError "expected str, bytes or os.PathLike object"))
            end
          else try_keys s json_file json_data keys'
      end
  end.

(** The loop over the files. *)
Fixpoint search (s : fs) (json_files : list (Fs.Path * result json))
    : outcome (option Fs.Path) :=
  match json_files with
  | [] => Returns None
  | (json_file, loaded) :: rest =>
      match loaded with
      | Raise e => Raises (Builtin e)
      | Ok json_data =>
          match try_keys s json_file json_data aidb_keys with
          | Returns None => search s rest
          | found => found
          end
      end
  end.

(** [_find_aidb_path] *)
Definition _find_aidb_path (project : Project) (s : fs) : outcome Fs.Path :=
  match search s (rglob_json (project_path project)) with
  | Raises r => Raises r
  | Returns (Some aidb_path) => Returns aidb_path
  | Returns None =>
      if Fs.path_exists s default_aidb_path then Returns default_aidb_path
      else Raises (Builtin (OSError "Failed to locate AIDB."))
  end.

(** [shutil.copyfile]: the two paths must differ, the source is read and
    the target written whole. *)
Definition copyfile (src dst : Fs.Path) : IO unit := fun s =>
  if bool_decide (src = dst) then (Raise (OSError "are the same file"), s)
  else
    match Fs.read_file src s with
    | Raise e => (Raise e, s)
    | Ok data =>
        match Fs.write_file dst data s with
        | Ok s' => (Ok tt, s')
        | Raise e => (Raise e, s)
        end
    end.

(** [make_cbm_defaults] of the cbm_defaults package, with the output path
    and the archive index path of its configuration. *)
Variable make_cbm_defaults : Fs.Path -> Fs.Path -> IO unit.

(** [_build_input_database] *)
Definition _build_input_database (project : Project) (output_path : Fs.Path)
    (aidb_path : option Fs.Path) (s : fs) : outcome Fs.Path * fs :=
  let located :=
    match aidb_path with
    | Some given => Returns given
    | None => _find_aidb_path project s
    end in
  match located with
  | Raises r => (Raises r, s)
  | Returns aidb_path =>
      let output_cbm_defaults_path := output_path ++ ["cbm_defaults.db"] in
      let run :=
        if String.eqb (Fs.suffix aidb_path) ".db"
        then copyfile aidb_path output_cbm_defaults_path s
        else make_cbm_defaults output_cbm_defaults_path aidb_path s in
      match run with
      | (Ok _, s') => (Returns output_cbm_defaults_path, s')
      | (Raise e, s') => (Raises (Builtin e), s')
      end
  end.

(** A file that gives nothing: it loads, and none of its keys leads to an
    existing path. *)
Definition quiet (s : fs) (file : Fs.Path * result json) : Prop :=
  exists json_data,
    file.2 = Ok json_data /\ try_keys s file.1 json_data aidb_keys = Returns None.

Lemma try_keys_found (s : fs) (json_file : Fs.Path) (json_data : json) (keys : list string)
    (found : Fs.Path) :
  try_keys s json_file json_data keys = Returns (Some found) ->
  Fs.path_exists s found = true /\
  exists members aidb_key path,
    json_data = JObject members /\ aidb_key ∈ keys /\
    dict_get String.eqb aidb_key members = Some (JString path) /\ path <> "" /\
    found = joinpath_absolute json_file path.
Proof.
  induction keys as [|key keys IH]; [done|]. simpl.
  destruct json_data as [| | | | |items|members]; try done. simpl.
  assert (try_keys s json_file (JObject members) keys = Returns (Some found) ->
          Fs.path_exists s found = true /\
          exists members0 aidb_key path,
            JObject members = JObject members0 /\ aidb_key ∈ key :: keys /\
            dict_get String.eqb aidb_key members0 = Some (JString path) /\ path <> "" /\
            found = joinpath_absolute json_file path) as Hnext.
  { intros (Hex & m & k & p & Hm & Hk & Hrest)%IH. split; [done|].
    exists m, k, p. split; [done|]. split; [by right|done]. }
  destruct (dict_get String.eqb key members) as [value|] eqn:Eget; simpl; [|done].
  destruct (json_truthy value) eqn:Et; [|done].
  destruct value as [| | | |path| |]; try done.
  destruct (Fs.path_exists s (joinpath_absolute json_file path)) eqn:Eex; [|done].
  intros [= <-]. split; [done|]. exists members, key, path.
  split; [done|]. split; [left|]. split; [done|]. split; [|done].
  intros ->. done.
Qed.

Lemma search_found (s : fs) (json_files : list (Fs.Path * result json)) (found : Fs.Path) :
  search s json_files = Returns (Some found) ->
  Fs.path_exists s found = true /\
  exists json_file members aidb_key path,
    (json_file, Ok (JObject members)) ∈ json_files /\ aidb_key ∈ aidb_keys /\
    dict_get String.eqb aidb_key members = Some (JString path) /\ path <> "" /\
    found = joinpath_absolute json_file path.
Proof.
  induction json_files as [|[json_file loaded] rest IH]; [done|]. cbn [search].
  destruct loaded as [json_data|e]; [|done].
  destruct (try_keys s json_file json_data aidb_keys) as [[p|]|r] eqn:Ekeys;
    [| |intros [=]].
  - intros [= ->]. apply try_keys_found in Ekeys as (Hex & m & k & path & -> & Hrest).
    split; [done|]. exists json_file, m, k, path. split; [left|done].
  - intros (Hex & f & m & k & path & Hin & Hrest)%IH. split; [done|].
    exists f, m, k, path. split; [by right|done].
Qed.

(** X14: the path [_find_aidb_path] returns exists, and it is either named
    by a non-empty string under the key [aidb] or [AIDBPath] of a JSON
    object found below the project path, taken relative to the directory
    of that file, or the default location of the archive index. *)
Theorem found_aidb_exists (project : Project) (s : fs) (found : Fs.Path) :
  _find_aidb_path project s = Returns found ->
  Fs.path_exists s found = true /\
  (found = default_aidb_path \/
   exists json_file members aidb_key path,
     (json_file, Ok (JObject members)) ∈ rglob_json (project_path project) /\
     aidb_key ∈ aidb_keys /\
     dict_get String.eqb aidb_key members = Some (JString path) /\ path <> "" /\
     found = joinpath_absolute json_file path).
Proof.
  unfold _find_aidb_path.
  destruct (search s (rglob_json (project_path project))) as [[p|]|r] eqn:E; [| |done].
  - intros [= ->]. apply search_found in E as [Hex Hfrom]. split; [done|by right].
  - destruct (Fs.path_exists s default_aidb_path) eqn:Eex; [|done].
    intros [= <-]. split; [done|by left].
Qed.

Lemma search_quiet (s : fs) (before rest : list (Fs.Path * result json)) :
  Forall (quiet s) before -> search s (before ++ rest) = search s rest.
Proof.
  induction 1 as [|[json_file loaded] before (json_data & Hload & Hkeys) _ IH]; [done|].
  cbn [fst snd] in *. subst loaded. rewrite <- app_comm_cons. cbn [search].
  by rewrite Hkeys.
Qed.

(** X15: the first file that is not quiet decides, and the files after it
    are not looked at.  After files that load and give nothing, a file
    that cannot be read or parsed makes the search raise what the loading
    raised; a file whose JSON value is no object makes it raise an
    AttributeError, even when a later file names the archive index; and an
    object whose key [aidb] holds a non-empty string naming an existing
    path gives that path, whatever its key [AIDBPath] and the later files
    hold. *)
Theorem first_telling_file_decides (project : Project) (s : fs)
    (before after : list (Fs.Path * result json)) (json_file : Fs.Path)
    (loaded : result json) :
  rglob_json (project_path project) = before ++ (json_file, loaded) :: after ->
  Forall (quiet s) before ->
  match loaded with
  | Raise e => _find_aidb_path project s = Raises (Builtin e)
  | Ok (JObject members) =>
      forall path,
        dict_get String.eqb "aidb" members = Some (JString path) ->
        path <> "" ->
        Fs.path_exists s (joinpath_absolute json_file path) = true ->
        _find_aidb_path project s = Returns (joinpath_absolute json_file path)
  | Ok _ =>
      _find_aidb_path project s = Raises (AttributeError "object has no attribute 'get'")
  end.
Proof.
  intros Hfiles Hquiet. unfold _find_aidb_path. rewrite Hfiles, search_quiet by done.
  destruct loaded as [json_data|e]; [|done].
  destruct json_data as [| | | | |items|members]; try done.
  intros path Hget Hne Hex. simpl. rewrite Hget. simpl.
  apply String.eqb_neq in Hne. rewrite Hne. simpl. by rewrite Hex.
Qed.

(** X16: an archive index whose file name ends in [.db] is copied, not
    converted.  Whether it was given or found, when the copy can be made
    the call returns [cbm_defaults.db] under the output path, that file
    holds what the archive index holds, nothing else changes, and
    [make_cbm_defaults] plays no part; an archive index given to the call
    keeps the project's JSON files from being read at all. *)
Theorem db_archive_index_is_copied (project : Project) (output_path dir : Fs.Path)
    (stem : string) (aidb_path : option Fs.Path) (s : fs) (data : content) :
  let archive := dir ++ [String.append stem ".db"] in
  let target := output_path ++ ["cbm_defaults.db"] in
  stem <> "" ->
  aidb_path = Some archive \/ (aidb_path = None /\ _find_aidb_path project s = Returns archive) ->
  s !! archive = Some (Fs.File data) ->
  archive <> target ->
  Fs.is_dir s output_path = true ->
  Fs.is_dir s target = false ->
  _build_input_database project output_path aidb_path s =
  (Returns target, <[target := Fs.File data]> s).
Proof.
  intros archive target Hstem Hfrom Hfile Hne Hdir Hnodir.
  unfold _build_input_database.
  assert (match aidb_path with
          | Some given => Returns given
          | None => _find_aidb_path project s
          end = Returns archive) as ->.
  { by destruct Hfrom as [->|[-> ->]]. }
  fold target. subst archive. rewrite Fs.suffix_db by done. simpl.
  unfold copyfile. rewrite bool_decide_false by done.
  unfold Fs.read_file. rewrite Hfile. unfold Fs.write_file.
  subst target. rewrite Fs.parent_snoc, Hdir. simpl. by rewrite Hnodir.
Qed.

End FindAidb.

(** A project with two JSON files: a list, and an object that names the
    archive index. *)
Definition demo_json_files (p : Fs.Path) : list (Fs.Path * result json) :=
  [(p ++ ["layers.json"], Ok (JObject [("layers", JArray [])]));
   (p ++ ["config.json"], Ok (JObject [("aidb", JString "aidb.db")]))].

Definition demo_joinpath (json_file : Fs.Path) (path : string) : Fs.Path :=
  Fs.parent json_file ++ [path].

Definition aidb_fs : fs :=
  {[ ["project"; "aidb.db"] := Fs.File (Other "archive index") ]}.

Lemma demo_find_aidb :
  _find_aidb_path demo_json_files demo_joinpath lost_project aidb_fs
  = Returns ["project"; "aidb.db"].
Proof.
  assert (Fs.path_exists aidb_fs ["project"; "aidb.db"] = true) as Hex.
  { unfold Fs.path_exists. apply bool_decide_eq_true. unfold aidb_fs.
    rewrite lookup_singleton_eq. by eexists. }
  unfold _find_aidb_path, demo_json_files.
  cbn [search try_keys aidb_keys json_get dict_get default project_path lost_project app
       String.eqb Ascii.eqb Bool.eqb json_truthy negb demo_joinpath Fs.parent removelast id].
  by rewrite Hex.
Qed.

Lemma found_aidb_exists_witness :
  Fs.path_exists aidb_fs ["project"; "aidb.db"] = true.
Proof.
  apply (found_aidb_exists demo_json_files demo_joinpath lost_project aidb_fs
           ["project"; "aidb.db"] demo_find_aidb).
Defined.

Lemma first_telling_file_decides_witness :
  _find_aidb_path demo_json_files demo_joinpath lost_project aidb_fs
  = Returns (demo_joinpath ["project"; "config.json"] "aidb.db").
Proof.
  apply (first_telling_file_decides demo_json_files demo_joinpath lost_project aidb_fs
           [(["project"; "layers.json"], Ok (JObject [("layers", JArray [])]))] []
           ["project"; "config.json"] (Ok (JObject [("aidb", JString "aidb.db")]))).
  - reflexivity.
  - constructor; [|constructor]. eexists. split; reflexivity.
  - reflexivity.
  - discriminate.
  - unfold Fs.path_exists. apply bool_decide_eq_true. unfold aidb_fs.
    rewrite lookup_singleton_eq. by eexists.
Defined.

Lemma db_archive_index_is_copied_witness :
  let s : fs := <[["out"] := Fs.Dir]> aidb_fs in
  _build_input_database demo_json_files demo_joinpath (fun _ _ s => (Ok tt, s))
    lost_project ["out"] (Some ["project"; "aidb.db"]) s
  = (Returns ["out"; "cbm_defaults.db"],
     <[["out"; "cbm_defaults.db"] := Fs.File (Other "archive index")]> s).
Proof.
  intros s.
  apply (db_archive_index_is_copied demo_json_files demo_joinpath (fun _ _ s => (Ok tt, s))
           lost_project ["out"] ["project"] "aidb" (Some ["project"; "aidb.db"]) s
           (Other "archive index")).
  - discriminate.
  - left. reflexivity.
  - unfold s, aidb_fs. rewrite lookup_insert_ne by discriminate.
    apply lookup_singleton_eq.
  - discriminate.
  - unfold Fs.is_dir, s. by rewrite lookup_insert_eq.
  - unfold Fs.is_dir, s, aidb_fs. cbn [app].
    rewrite lookup_insert_ne by discriminate. by rewrite lookup_singleton_ne.
Defined.

End ProjectConverter.

(** ** walltowall.py: the merge command *)

Module WallToWall.

Abbreviation Path := (list string).

(** [Path.joinpath] *)
Definition joinpath (p : Path) (parts : list string) : Path := p ++ parts.

(** Modelled from the spec: the class [PreparedProject] of
    [gcbmwalltowall.component.preparedproject] is not part of the sources at
    hand; the spec describes it as a handle rooted at a path that exposes
    immutable metadata, of which [merge] reads the path and the two years. *)
Record PreparedProject := {
  path : Path;
  start_year : Z;
  end_year : Z
}.

(** Modelled from the spec: the class [Configuration] of
    [gcbmwalltowall.configuration.configuration]; [merge] reads the run
    template path and the disturbance order from it. *)
Record Configuration := {
  gcbm_template_path : Path;
  gcbm_disturbance_order : list string
}.

(** Modelled from the spec: the constructor arguments of [GCBMConfigurer]
    (tiled layer paths, template path, database path, output path, start and
    end year, disturbance order). *)
Record GCBMConfigurer := {
  layer_paths : list Path;
  template_path : Path;
  input_db_path : Path;
  configurer_output_path : Path;
  configurer_start_year : Z;
  configurer_end_year : Z;
  disturbance_order : list string
}.

(** The parsed command line of [merge]. *)
Record Args := {
  config_path : Path;
  project_paths : list Path;
  output_path : Path;
  include_index_layer : bool
}.

(** [min(iterable)] and [max(iterable)] over integers. *)
Definition py_min (l : list Z) : result Z :=
  match l with
  | [] => Raise (ValueError "min() arg is an empty sequence")
  | x :: l' => Ok (fold_left (fun m y => if y <? m then y else m) l' x)
  end.

Definition py_max (l : list Z) : result Z :=
  match l with
  | [] => Raise (ValueError "max() arg is an empty sequence")
  | x :: l' => Ok (fold_left (fun m y => if m <? y then y else m) l' x)
  end.

(** [virtual_memory().available * 0.75 // 1024**2], in whole megabytes. *)
Definition memory_limit_MB (available : Z) : Z := (available * 3) / (4 * 1024 ^ 2).

Section Merge.
(** What the spatial_inventory_rollback package hands back. *)
Context {Inventory MergedData : Type}.

(** The calls [merge] makes that touch the outside world, with their
    arguments. *)
Inductive call :=
  | CTemporaryDirectory
  | CPreparedProject (p : Path)
  | CPrepareMerge (project : PreparedProject) (tmp : Path) (i : nat)
  | CMerge (inventories : list Inventory) (merged_output_path db_output_path : Path)
      (start : Z) (memory_limit : Z)
  | CTile (tiled_output_path : Path) (merged : MergedData)
      (inventories : list Inventory) (index_layer : bool)
  | CReplaceTransitionRules (db csv : Path)
  | CConfigurationLoad (config output : Path)
  | CConfigure (configurer : GCBMConfigurer)
  | CCleanup (tmp : Path)
  | COpenLog (p : Path).

(** A call and whether it returned ([true]) or raised ([false]). *)
#[local] Abbreviation event := (call * bool)%type.

(** Code that may raise and that appends to the log of calls. *)
Definition M (A : Type) : Type := list event -> result A * list event.

Definition ret {A} (a : A) : M A := fun tr => (Ok a, tr).

Definition mbind {A B} (m : M A) (k : A -> M B) : M B := fun tr =>
  match m tr with
  | (Ok a, tr') => k a tr'
  | (Raise e, tr') => (Raise e, tr')
  end.

Definition lift {A} (r : result A) : M A := fun tr => (r, tr).

(** An outside call: logged, then its outcome. *)
Definition perform {A} (c : call) (r : result A) : M A := fun tr =>
  (r, tr ++ [(c, is_ok r)]).

Notation "x <- m ;; k" := (mbind m (fun x => k))
  (at level 100, m at next level, right associativity).

(** A list comprehension whose element expression may raise. *)
Fixpoint comprehension {A B} (f : nat -> A -> M B) (i : nat) (l : list A) : M (list B) :=
  match l with
  | [] => ret []
  | a :: l' =>
      b <- f i a ;;
      bs <- comprehension f (S i) l' ;;
      ret (b :: bs)
  end.

(** The collaborators. *)
Variable mkdtemp : result Path.
Variable new_PreparedProject : Path -> result PreparedProject.
Variable prepare_merge : PreparedProject -> Path -> nat -> result Inventory.
Variable available_memory : Z.
Variable gcbm_merge : list Inventory -> Path -> Path -> Z -> Z -> result MergedData.
Variable gcbm_merge_tile : Path -> MergedData -> list Inventory -> bool -> result unit.
Variable replace_direct_attached_transition_rules : Path -> Path -> result unit.
Variable Configuration_load : Path -> Path -> result Configuration.
Variable configure : GCBMConfigurer -> result unit.

(** [with TemporaryDirectory() as tmp: body]: the directory is removed on
    the way out, whether the body returned or raised. *)
Definition with_TemporaryDirectory {A} (body : Path -> M A) : M A := fun tr =>
  match perform CTemporaryDirectory mkdtemp tr with
  | (Ok tmp, tr') =>
      let '(r, tr'') := body tmp tr' in
      (r, tr'' ++ [(CCleanup tmp, true)])
  | (Raise e, tr') => (Raise e, tr')
  end.

(** Lines 53 and 54 of [merge]. *)
Definition reconciled_window (projects : list PreparedProject) : result (Z * Z) :=
  bind (py_min (start_year <$> projects)) (fun start =>
  bind (py_max (end_year <$> projects)) (fun stop =>
  Ok (start, stop))).

Definition merge (args : Args) : M unit :=
  with_TemporaryDirectory (fun tmp =>
    projects <- comprehension
      (fun _ p => perform (CPreparedProject p) (new_PreparedProject p))
      0%nat (project_paths args) ;;
    inventories <- comprehension
      (fun i project => perform (CPrepareMerge project tmp i) (prepare_merge project tmp i))
      0%nat projects ;;
    let output := output_path args in
    let merged_output_path := joinpath output ["layers"; "merged"] in
    let tiled_output_path := joinpath output ["layers"; "tiled"] in
    let db_output_path := joinpath output ["input_database"] in
    window <- lift (reconciled_window projects) ;;
    let '(start, stop) := window in
    let memory_limit := memory_limit_MB available_memory in
    merged_data <- perform
      (CMerge inventories merged_output_path db_output_path start memory_limit)
      (gcbm_merge inventories merged_output_path db_output_path start memory_limit) ;;
    _ <- perform
      (CTile tiled_output_path merged_data inventories (include_index_layer args))
      (gcbm_merge_tile tiled_output_path merged_data inventories (include_index_layer args)) ;;
    let db := joinpath db_output_path ["gcbm_input.db"] in
    let csv := joinpath tiled_output_path ["transition_rules.csv"] in
    _ <- perform (CReplaceTransitionRules db csv)
      (replace_direct_attached_transition_rules db csv) ;;
    config <- perform (CConfigurationLoad (config_path args) output)
      (Configuration_load (config_path args) output) ;;
    let configurer := {|
      layer_paths := [tiled_output_path];
      template_path := gcbm_template_path config;
      input_db_path := db;
      configurer_output_path := joinpath output ["gcbm_project"];
      configurer_start_year := start;
      configurer_end_year := stop;
      disturbance_order := gcbm_disturbance_order config
    |} in
    perform (CConfigure configurer) (configure configurer)).

(** The [merge] sub-command as [cli] runs it: argparse takes
    [project_paths] with [nargs="+"] and exits with status 2 when there is
    none, then the log file is opened under the output path, then [merge]
    runs. *)
Definition parse_project_paths (argv : list Path) : result (list Path) :=
  match argv with
  | [] => Raise (SystemExit 2)
  | _ => Ok argv
  end.

Definition cli_merge (args : Args) : M unit :=
  paths <- lift (parse_project_paths (project_paths args)) ;;
  _ <- perform (COpenLog (joinpath (output_path args) ["walltowall.log"])) (Ok tt) ;;
  merge args.

(** The four stages of the merge. *)
Inductive stage := SMerge | STile | SPatch | SConfigure.

Definition stage_of (c : call) : option stage :=
  match c with
  | CMerge _ _ _ _ _ => Some SMerge
  | CTile _ _ _ _ => Some STile
  | CReplaceTransitionRules _ _ => Some SPatch
  | CConfigure _ => Some SConfigure
  | _ => None
  end.

(** The stages a log went through, each with its outcome. *)
Definition stage_log (tr : list event) : list (stage * bool) :=
  omap (fun ev : event => (fun s => (s, ev.2)) <$> stage_of ev.1) tr.

(** A call that writes to the file system. *)
Definition writes (c : call) : bool :=
  match c with
  | CPreparedProject _ | CConfigurationLoad _ _ => false
  | _ => true
  end.
End Merge.

Arguments call : clear implicits.
Arguments M : clear implicits.

Definition all_stages : list stage := [SMerge; STile; SPatch; SConfigure].


(** *** Properties of [merge] *)

Section MergeProperties.
Context {Inventory MergedData : Type}.
Variable mkdtemp : result Path.
Variable new_PreparedProject : Path -> result PreparedProject.
Variable prepare_merge : PreparedProject -> Path -> nat -> result Inventory.
Variable available_memory : Z.
Variable gcbm_merge : list Inventory -> Path -> Path -> Z -> Z -> result MergedData.
Variable gcbm_merge_tile : Path -> MergedData -> list Inventory -> bool -> result unit.
Variable replace_direct_attached_transition_rules : Path -> Path -> result unit.
Variable Configuration_load : Path -> Path -> result Configuration.
Variable configure : GCBMConfigurer -> result unit.

#[local] Abbreviation ev := (call Inventory MergedData * bool)%type.
#[local] Abbreviation merge_here :=
  (merge mkdtemp new_PreparedProject prepare_merge available_memory gcbm_merge
     gcbm_merge_tile replace_direct_attached_transition_rules Configuration_load
     configure).

Lemma stage_log_app (tr1 tr2 : list ev) :
  stage_log (tr1 ++ tr2) = stage_log tr1 ++ stage_log tr2.
Proof. apply omap_app. Qed.

Lemma stage_log_cons (e : ev) (tr : list ev) :
  stage_log (e :: tr) = stage_log [e] ++ stage_log tr.
Proof. apply (stage_log_app [e]). Qed.

(** A comprehension of outside calls only extends the log, and only by the
    calls of its element expression. *)
Lemma comprehension_log {A B} (c : nat -> A -> call Inventory MergedData)
    (r : nat -> A -> result B) (l : list A) (i : nat) (tr : list ev) :
  exists evs,
    (comprehension (fun i a => perform (c i a) (r i a)) i l tr).2 = tr ++ evs /\
    Forall (fun e : ev => exists j a, e.1 = c j a) evs.
Proof.
  revert i tr. induction l as [|a l IH]; intros i tr; simpl.
  - exists []. by rewrite app_nil_r.
  - unfold mbind at 1, perform at 1.
    destruct (r i a) as [b|e]; simpl.
    + destruct (IH (S i) (tr ++ [(c i a, true)])) as (evs & Heq & Hall).
      unfold mbind.
      destruct (comprehension _ (S i) l _) as [[bs|e] tr'] eqn:E; simpl in *;
        subst tr'; exists ((c i a, true) :: evs);
        (split; [by rewrite <- app_assoc | constructor; eauto]).
    + exists [(c i a, false)]. split; [done|]. constructor; eauto.
Qed.

Lemma stage_log_no_stage (evs : list ev) :
  Forall (fun e : ev => stage_of e.1 = None) evs -> stage_log evs = [].
Proof.
  induction 1 as [|[c b] evs Hc _ IH]; [done|].
  unfold stage_log in *. simpl in *. by rewrite Hc.
Qed.

(** What a comprehension of outside calls returns. *)
Lemma comprehension_result {A B} (c : nat -> A -> call Inventory MergedData)
    (r : nat -> A -> result B) (l : list A) (i : nat) (tr : list ev) (bs : list B) :
  (comprehension (fun i a => perform (c i a) (r i a)) i l tr).1 = Ok bs <->
  Forall2 (fun ia b => r ia.1 ia.2 = Ok b) (zip (seq i (length l)) l) bs.
Proof.
  revert i tr bs. induction l as [|a l IH]; intros i tr bs; simpl.
  - split.
    + intros [= <-]. constructor.
    + by inversion 1.
  - unfold mbind at 1, perform at 1.
    destruct (r i a) as [b|e] eqn:Er; simpl.
    + unfold mbind.
      specialize (IH (S i) (tr ++ [(c i a, true)])).
      destruct (comprehension _ (S i) l _) as [[bs'|e] tr'] eqn:E; simpl in *.
      * split.
        -- intros [= <-]. constructor; [done|]. by apply IH.
        -- inversion 1 as [|? b' ? bs2 Hb Hbs]; subst. simpl in Hb.
           apply IH in Hbs. congruence.
      * split; [done|].
        inversion 1 as [|? b' ? bs2 Hb Hbs]; subst. by apply IH in Hbs.
    + split; [done|].
      inversion 1 as [|? b' ? bs2 Hb Hbs]; subst. simpl in Hb. congruence.
Qed.

(** The part of [merge] after the reconciled window is known. *)
Definition pipeline (args : Args) (inventories : list Inventory) (start stop : Z)
    : M Inventory MergedData unit :=
  let output := output_path args in
  let merged_output_path := joinpath output ["layers"; "merged"] in
  let tiled_output_path := joinpath output ["layers"; "tiled"] in
  let db_output_path := joinpath output ["input_database"] in
  let memory_limit := memory_limit_MB available_memory in
  mbind (perform
        (CMerge inventories merged_output_path db_output_path start memory_limit)
        (gcbm_merge inventories merged_output_path db_output_path start memory_limit))
   (fun merged_data =>
  mbind (perform
        (CTile tiled_output_path merged_data inventories (include_index_layer args))
        (gcbm_merge_tile tiled_output_path merged_data inventories (include_index_layer args)))
   (fun _ =>
  let db := joinpath db_output_path ["gcbm_input.db"] in
  let csv := joinpath tiled_output_path ["transition_rules.csv"] in
  mbind (perform (CReplaceTransitionRules db csv)
        (replace_direct_attached_transition_rules db csv))
   (fun _ =>
  mbind (perform (CConfigurationLoad (config_path args) output)
        (Configuration_load (config_path args) output))
   (fun config =>
  let configurer := {|
        layer_paths := [tiled_output_path];
        template_path := gcbm_template_path config;
        input_db_path := db;
        configurer_output_path := joinpath output ["gcbm_project"];
        configurer_start_year := start;
        configurer_end_year := stop;
        disturbance_order := gcbm_disturbance_order config
      |} in
  perform (CConfigure configurer) (configure configurer))))).

Lemma merge_unfold (args : Args) (tr : list ev) :
  merge_here args tr =
  with_TemporaryDirectory mkdtemp (fun tmp =>
    mbind (comprehension
        (fun _ p => perform (CPreparedProject p) (new_PreparedProject p))
        0%nat (project_paths args)) (fun projects =>
    mbind (comprehension
        (fun i project => perform (CPrepareMerge project tmp i) (prepare_merge project tmp i))
        0%nat projects) (fun inventories =>
    mbind (lift (reconciled_window projects)) (fun window =>
    pipeline args inventories window.1 window.2)))) tr.
Proof.
  unfold merge, with_TemporaryDirectory.
  destruct (perform CTemporaryDirectory mkdtemp tr) as [[tmp|e] tr1]; [|done].
  unfold mbind, lift.
  destruct (comprehension _ _ (project_paths args) tr1) as [[projects|e] tr2]; [|done].
  destruct (comprehension _ _ projects tr2) as [[inventories|e] tr3]; [|done].
  by destruct (reconciled_window projects) as [[start stop]|e].
Qed.

(** The possible stage logs: a run of successful stages in the fixed order,
    closed by at most one failed stage. *)
Inductive staged : result unit -> list (stage * bool) -> Prop :=
  | staged_merge_failed e : staged (Raise e) [(SMerge, false)]
  | staged_tile_failed e : staged (Raise e) [(SMerge, true); (STile, false)]
  | staged_patch_failed e :
      staged (Raise e) [(SMerge, true); (STile, true); (SPatch, false)]
  | staged_load_failed e :
      staged (Raise e) [(SMerge, true); (STile, true); (SPatch, true)]
  | staged_configure_failed e :
      staged (Raise e) [(SMerge, true); (STile, true); (SPatch, true); (SConfigure, false)]
  | staged_done :
      staged (Ok tt) [(SMerge, true); (STile, true); (SPatch, true); (SConfigure, true)].

Ltac log_entries :=
  repeat (constructor; [split; intros; simpl in *; simplify_eq; simpl; done|]);
  constructor.

Lemma pipeline_staged (args : Args) inventories start stop (tr : list ev) :
  exists post,
    (pipeline args inventories start stop tr).2 = tr ++ post /\
    staged (pipeline args inventories start stop tr).1 (stage_log post) /\
    Forall (fun e : ev =>
      (forall c, e.1 = CConfigure c ->
         configurer_start_year c = start /\ configurer_end_year c = stop) /\
      (forall i m d s l, e.1 = CMerge i m d s l -> s = start)) post.
Proof.
  unfold pipeline, mbind, perform.
  destruct (gcbm_merge _ _ _ _ _) as [merged|e]; simpl.
  2:{ eexists [_]. split; [done|]. split; [simpl; constructor|].
      log_entries. }
  destruct (gcbm_merge_tile _ _ _ _) as [[]|e]; simpl.
  2:{ eexists [_; _]. rewrite <- !app_assoc. split; [done|]. split; [simpl; constructor|].
      log_entries. }
  destruct (replace_direct_attached_transition_rules _ _) as [[]|e]; simpl.
  2:{ eexists [_; _; _]. rewrite <- !app_assoc. split; [done|]. split; [simpl; constructor|].
      log_entries. }
  destruct (Configuration_load _ _) as [config|e]; simpl.
  2:{ eexists [_; _; _; _]. rewrite <- !app_assoc. split; [done|]. split; [simpl; constructor|].
      log_entries. }
  destruct (configure _) as [[]|e]; simpl.
  all: eexists [_; _; _; _; _]; rewrite <- !app_assoc; (split; [done|]);
    (split; [simpl; constructor|]);
    log_entries.
Qed.

Lemma Forall2_zip_seq {A B} (R : A -> B -> Prop) (l : list A) (bs : list B) (i : nat) :
  Forall2 (fun (ia : nat * A) b => R ia.2 b) (zip (seq i (length l)) l) bs <->
  Forall2 R l bs.
Proof.
  revert i bs. induction l as [|a l IH]; intros i bs; simpl.
  - split; inversion 1; constructor.
  - split; inversion 1; subst; constructor; try done; by eapply IH.
Qed.

(** Every event of a log satisfies [P] when the part before the stages
    holds no stage call. *)
Definition carries_window (start stop : Z) (e : ev) : Prop :=
  (forall c, e.1 = CConfigure c ->
     configurer_start_year c = start /\ configurer_end_year c = stop) /\
  (forall i m d s l, e.1 = CMerge i m d s l -> s = start).

Definition no_stage (e : ev) : Prop := stage_of e.1 = None.

Lemma no_stage_carries start stop (e : ev) : no_stage e -> carries_window start stop e.
Proof.
  unfold no_stage. intros H. split; intros; rewrite H0 in H; done.
Qed.

Ltac all_no_stage :=
  repeat first
    [ done | apply Forall_nil_2 | apply Forall_cons_2; [done|] | apply Forall_app; split ].

(** A run of [merge] either stops before the first stage, or it opened all
    projects, computed the window and went through the stages in order. *)
Lemma merge_run (args : Args) :
  let run := merge_here args [] in
  (is_ok run.1 = false /\ Forall no_stage run.2) \/
  (exists projects start stop,
     Forall2 (fun p proj => new_PreparedProject p = Ok proj) (project_paths args) projects /\
     reconciled_window projects = Ok (start, stop) /\
     staged run.1 (stage_log run.2) /\
     Forall (carries_window start stop) run.2).
Proof.
  intros run. subst run.
  remember (merge_here args []) as run eqn:E.
  rewrite merge_unfold in E.
  unfold with_TemporaryDirectory, perform at 1 in E.
  destruct mkdtemp as [tmp|e]; simpl in E.
  2:{ subst run. left. split; [done|]. by repeat constructor. }
  unfold mbind at 1 in E.
  destruct (comprehension_log (fun _ p => CPreparedProject p)
              (fun _ p => new_PreparedProject p) (project_paths args) 0%nat
              [(CTemporaryDirectory, true)]) as (evs1 & E1 & H1).
  pose proof (comprehension_result (fun _ p => CPreparedProject p)
              (fun _ p => new_PreparedProject p) (project_paths args) 0%nat
              [(CTemporaryDirectory, true)]) as R1.
  assert (Forall no_stage evs1) as N1.
  { eapply Forall_impl; [exact H1|]. intros [c b] (j & a & Hc). simpl in Hc. by subst c. }
  destruct (comprehension _ _ (project_paths args) _) as [[projects|e] tr1];
    simpl in E1, R1; subst tr1.
  2:{ subst run. left. split; [done|]. simpl. all_no_stage. }
  unfold mbind at 1 in E.
  destruct (comprehension_log (fun i p => CPrepareMerge p tmp i)
              (fun i p => prepare_merge p tmp i) projects 0%nat
              ([(CTemporaryDirectory, true)] ++ evs1)) as (evs2 & E2 & H2).
  assert (Forall no_stage evs2) as N2.
  { eapply Forall_impl; [exact H2|]. intros [c b] (j & a & Hc). simpl in Hc. by subst c. }
  assert (Forall no_stage (([(CTemporaryDirectory, true)] ++ evs1) ++ evs2 : list ev)) as Hpre.
  { simpl. all_no_stage. }
  destruct (comprehension _ _ projects _) as [[inventories|e] tr2];
    simpl in E2; subst tr2.
  2:{ subst run. left. split; [done|]. simpl. all_no_stage. }
  unfold mbind at 1, lift in E.
  destruct (reconciled_window projects) as [[start stop]|e] eqn:Ew.
  2:{ subst run. left. split; [done|]. simpl. all_no_stage. }
  right. exists projects, start, stop.
  split.
  { eapply (Forall2_zip_seq (fun p proj => new_PreparedProject p = Ok proj)).
    by apply R1. }
  split; [done|]. simpl fst in E; simpl snd in E.
  destruct (pipeline_staged args inventories start stop
              (([(CTemporaryDirectory, true)] ++ evs1) ++ evs2)) as (post & Ep & Hs & Hw).
  destruct (pipeline args inventories start stop _) as [r tr3]; simpl in Ep, Hs; subst tr3.
  subst run. simpl fst; simpl snd.
  split.
  - rewrite stage_log_cons, !stage_log_app.
    rewrite (stage_log_no_stage _ N1), (stage_log_no_stage _ N2).
    simpl. by rewrite app_nil_r.
  - pose proof (no_stage_carries start stop) as Hc.
    constructor; [by apply Hc|].
    rewrite !Forall_app. repeat split.
    + eapply Forall_impl; [exact N1|exact Hc].
    + eapply Forall_impl; [exact N2|exact Hc].
    + exact Hw.
    + constructor; [by apply Hc|constructor].
Qed.

Lemma fold_min_spec (l : list Z) (m : Z) :
  let r := fold_left (fun m y => if y <? m then y else m) l m in
  (r = m \/ r ∈ l) /\ r <= m /\ forall y, y ∈ l -> r <= y.
Proof.
  revert m. induction l as [|x l IH]; intros m; simpl.
  - split; [by left|]. split; [lia|]. intros y Hy. by apply elem_of_nil in Hy.
  - destruct (IH (if x <? m then x else m)) as (Hin & Hle & Hall).
    destruct (Z.ltb_spec x m).
    + split; [right; destruct Hin as [->|Hin]; [left|by right]|].
      split; [lia|]. intros y [->|Hy]%elem_of_cons; [lia|by apply Hall].
    + split; [destruct Hin as [->|Hin]; [by left|right; by right]|].
      split; [lia|]. intros y [->|Hy]%elem_of_cons; [lia|by apply Hall].
Qed.

Lemma fold_max_spec (l : list Z) (m : Z) :
  let r := fold_left (fun m y => if m <? y then y else m) l m in
  (r = m \/ r ∈ l) /\ m <= r /\ forall y, y ∈ l -> y <= r.
Proof.
  revert m. induction l as [|x l IH]; intros m; simpl.
  - split; [by left|]. split; [lia|]. intros y Hy. by apply elem_of_nil in Hy.
  - destruct (IH (if m <? x then x else m)) as (Hin & Hle & Hall).
    destruct (Z.ltb_spec m x).
    + split; [right; destruct Hin as [->|Hin]; [left|by right]|].
      split; [lia|]. intros y [->|Hy]%elem_of_cons; [lia|by apply Hall].
    + split; [destruct Hin as [->|Hin]; [by left|right; by right]|].
      split; [lia|]. intros y [->|Hy]%elem_of_cons; [lia|by apply Hall].
Qed.

Lemma py_min_spec (l : list Z) :
  l <> [] -> exists m, py_min l = Ok m /\ m ∈ l /\ forall y, y ∈ l -> m <= y.
Proof.
  destruct l as [|x l]; [done|]. intros _. simpl.
  destruct (fold_min_spec l x) as (Hin & Hle & Hall).
  eexists. split; [done|]. split.
  - destruct Hin as [->|Hin]; [left|by right].
  - intros y [->|Hy]%elem_of_cons; [done|by apply Hall].
Qed.

Lemma py_max_spec (l : list Z) :
  l <> [] -> exists m, py_max l = Ok m /\ m ∈ l /\ forall y, y ∈ l -> y <= m.
Proof.
  destruct l as [|x l]; [done|]. intros _. simpl.
  destruct (fold_max_spec l x) as (Hin & Hle & Hall).
  eexists. split; [done|]. split.
  - destruct Hin as [->|Hin]; [left|by right].
  - intros y [->|Hy]%elem_of_cons; [done|by apply Hall].
Qed.

Lemma opened_functional (paths : list Path) (ps1 ps2 : list PreparedProject) :
  Forall2 (fun p proj => new_PreparedProject p = Ok proj) paths ps1 ->
  Forall2 (fun p proj => new_PreparedProject p = Ok proj) paths ps2 ->
  ps1 = ps2.
Proof.
  intros H1. revert ps2. induction H1 as [|p x paths ps1 Hx _ IH]; intros ps2.
  - by inversion 1.
  - inversion 1 as [|? y ? ps2' Hy Hrest]; subst. f_equal; [congruence|by apply IH].
Qed.

(** Code in [M] only ever appends to the log. *)
Definition extends {A} (m : M Inventory MergedData A) : Prop :=
  forall tr, exists evs, (m tr).2 = tr ++ evs.

Lemma extends_ret {A} (a : A) : extends (ret a).
Proof. intros tr. exists []. by rewrite app_nil_r. Qed.

Lemma extends_lift {A} (r : result A) : extends (lift r).
Proof. intros tr. exists []. by rewrite app_nil_r. Qed.

Lemma extends_perform {A} c (r : result A) : extends (perform c r).
Proof. intros tr. by eexists. Qed.

Lemma extends_mbind {A B} (m : M Inventory MergedData A) (k : A -> M Inventory MergedData B) :
  extends m -> (forall a, extends (k a)) -> extends (mbind m k).
Proof.
  intros Hm Hk tr. unfold mbind. destruct (Hm tr) as [evs1 E1].
  destruct (m tr) as [[a|e] tr1]; simpl in E1; subst tr1; [|by eexists].
  destruct (Hk a (tr ++ evs1)) as [evs2 E2]. rewrite E2.
  exists (evs1 ++ evs2). by rewrite app_assoc.
Qed.

Lemma extends_comprehension {A B} (f : nat -> A -> M Inventory MergedData B) l i :
  (forall i a, extends (f i a)) -> extends (comprehension f i l).
Proof.
  intros Hf. revert i. induction l as [|a l IH]; intros i; simpl.
  - apply extends_ret.
  - apply extends_mbind; [apply Hf|]. intros b.
    apply extends_mbind; [apply IH|]. intros bs. apply extends_ret.
Qed.

Lemma extends_pipeline args inventories start stop :
  extends (pipeline args inventories start stop).
Proof.
  intros tr. destruct (pipeline_staged args inventories start stop tr) as (post & E & _).
  by exists post.
Qed.

Lemma mbind_assoc {A B C} (m : M Inventory MergedData A)
    (k1 : A -> M Inventory MergedData B) (k2 : B -> M Inventory MergedData C) tr :
  mbind (mbind m k1) k2 tr = mbind m (fun a => mbind (k1 a) k2) tr.
Proof. unfold mbind. by destruct (m tr) as [[a|e] tr1]. Qed.

Lemma mbind_perform_log {A B} c (r : result A) (k : A -> M Inventory MergedData B) tr :
  (forall a, extends (k a)) ->
  exists evs, (mbind (perform c r) k tr).2 = tr ++ (c, is_ok r) :: evs.
Proof.
  intros Hk. unfold mbind, perform. destruct r as [a|e]; simpl.
  - destruct (Hk a (tr ++ [(c, true)])) as [evs E]. rewrite E.
    exists evs. by rewrite <- app_assoc.
  - by exists [].
Qed.

(** C1 (the code at the input the claim is about): with exactly one project
    path nothing in [merge] or in the command line handling rejects the
    call.  The log file is opened and the temporary directory is created,
    both of them writes to the file system, and the project is opened like
    any other. *)
Theorem merge_single_project_not_rejected
    (config p output : Path) (index : bool) :
  let args := {| config_path := config; project_paths := [p];
                 output_path := output; include_index_layer := index |} in
  let run := cli_merge mkdtemp new_PreparedProject prepare_merge available_memory
               gcbm_merge gcbm_merge_tile replace_direct_attached_transition_rules
               Configuration_load configure args [] in
  exists rest : list ev,
    run.2 = (COpenLog (joinpath output ["walltowall.log"]), true)
              :: (CTemporaryDirectory, is_ok mkdtemp) :: rest /\
    writes (Inventory := Inventory) (MergedData := MergedData)
      (COpenLog (joinpath output ["walltowall.log"])) = true /\
    writes (Inventory := Inventory) (MergedData := MergedData) CTemporaryDirectory = true /\
    (forall tmp, mkdtemp = Ok tmp ->
       exists rest', rest = (CPreparedProject p, is_ok (new_PreparedProject p)) :: rest').
Proof.
  intros args run. subst run.
  unfold cli_merge, mbind at 1, lift, parse_project_paths. cbn [project_paths args].
  unfold mbind at 1, perform at 1. cbn [output_path args app].
  rewrite merge_unfold.
  unfold with_TemporaryDirectory, perform at 1.
  destruct mkdtemp as [tmp|e]; cbn [fst snd is_ok app].
  2:{ exists []. repeat split; [done..|]. intros tmp. done. }
  cbn [project_paths args comprehension].
  rewrite !mbind_assoc.
  match goal with
  | |- context [mbind (perform ?c ?r) ?k ?tr] =>
      destruct (mbind_perform_log c r k tr) as [evs E]
  end.
  { intros proj. apply extends_mbind; [apply extends_mbind; [apply extends_ret|]|].
    - intros bs. apply extends_ret.
    - intros projects. apply extends_mbind.
      + apply extends_comprehension. intros. apply extends_perform.
      + intros invs. apply extends_mbind; [apply extends_lift|].
        intros w. apply extends_pipeline. }
  match goal with
  | |- context [mbind (perform ?c ?r) ?k ?tr] =>
      destruct (mbind (perform c r) k tr) as [r' tr'] eqn:E'
  end.
  simpl in E. subst tr'. cbn [fst snd].
  eexists. split; [reflexivity|]. repeat split.
  intros tmp' _. eexists. reflexivity.
Qed.

(** C5: whatever the collaborators do, the stages of [merge] are entered in
    the order merge, tile, patch, configure; a stage that fails is the last
    one entered and the whole call fails; a call that returns went through
    all four.  In particular after a failed tiling neither the patch nor
    the configure stage is entered. *)
Theorem merge_stages_in_order (args : Args) :
  let run := merge_here args [] in
  let log := stage_log run.2 in
  (exists n, log.*1 = take n all_stages) /\
  (forall i s, log !! i = Some (s, false) ->
     is_ok run.1 = false /\ S i = length log) /\
  (is_ok run.1 = true -> log = (fun s => (s, true)) <$> all_stages) /\
  ((STile, false) ∈ log -> (SPatch ∉ log.*1) /\ (SConfigure ∉ log.*1)).
Proof.
  intros run log. subst log.
  destruct (merge_run args) as [[Hfail Hpre]|(projects & start & stop & _ & _ & Hs & _)];
    fold run in Hfail, Hpre || fold run in Hs.
  - rewrite (stage_log_no_stage _ Hpre). rewrite Hfail.
    split; [by exists 0%nat|]. split; [by intros i s; rewrite lookup_nil|].
    split; [done|]. by intros ?%elem_of_nil.
  - destruct Hs as [e|e|e|e|e|]; simpl.
    + split; [by exists 1%nat|]. split; [|split; [done|]].
      * intros [|[|i]] s; by intros [= <-].
      * intros H%list_elem_of_In. simpl in H. intuition congruence.
    + split; [by exists 2%nat|]. split; [|split; [done|]].
      * intros [|[|[|i]]] s; by intros [= <-].
      * intros _. split; intros H%list_elem_of_In; simpl in H; intuition congruence.
    + split; [by exists 3%nat|]. split; [|split; [done|]].
      * intros [|[|[|[|i]]]] s; by intros [= <-].
      * intros H%list_elem_of_In. simpl in H. intuition congruence.
    + split; [by exists 3%nat|]. split; [|split; [done|]].
      * intros [|[|[|[|i]]]] s; by intros [= <-].
      * intros H%list_elem_of_In. simpl in H. intuition congruence.
    + split; [by exists 4%nat|]. split; [|split; [done|]].
      * intros [|[|[|[|[|i]]]]] s; by intros [= <-].
      * intros H%list_elem_of_In. simpl in H. intuition congruence.
    + split; [by exists 4%nat|]. split; [|split; [done|]].
      * intros [|[|[|[|[|i]]]]] s; by intros [= <-].
      * intros H%list_elem_of_In. simpl in H. intuition congruence.
Qed.

(** C7: for a non-empty list of opened projects the reconciled window is
    the least start year and the greatest end year, and these are the years
    [merge] hands to the merge engine and to the configurer. *)
Theorem merge_reconciles_years (args : Args) (projects : list PreparedProject) :
  projects <> [] ->
  Forall2 (fun p proj => new_PreparedProject p = Ok proj) (project_paths args) projects ->
  exists start stop,
    reconciled_window projects = Ok (start, stop) /\
    start ∈ start_year <$> projects /\
    (forall proj, proj ∈ projects -> start <= start_year proj) /\
    stop ∈ end_year <$> projects /\
    (forall proj, proj ∈ projects -> end_year proj <= stop) /\
    (forall c b, (CConfigure c, b) ∈ (merge_here args []).2 ->
       configurer_start_year c = start /\ configurer_end_year c = stop) /\
    (forall i m d s l b, (CMerge i m d s l, b) ∈ (merge_here args []).2 -> s = start).
Proof.
  intros Hne Hopen.
  destruct (py_min_spec (start_year <$> projects)) as (start & Emin & Hmin_in & Hmin).
  { by destruct projects. }
  destruct (py_max_spec (end_year <$> projects)) as (stop & Emax & Hmax_in & Hmax).
  { by destruct projects. }
  exists start, stop.
  assert (reconciled_window projects = Ok (start, stop)) as Ew.
  { unfold reconciled_window. by rewrite Emin, Emax. }
  split; [done|]. split; [done|].
  split; [intros proj Hp; apply Hmin; by apply list_elem_of_fmap_2|].
  split; [done|].
  split; [intros proj Hp; apply Hmax; by apply list_elem_of_fmap_2|].
  destruct (merge_run args) as [[_ Hpre]|(projects' & start' & stop' & Hopen' & Ew' & _ & Hw)].
  - split.
    + intros c b Hin. rewrite Forall_forall in Hpre.
      apply Hpre in Hin. done.
    + intros i m d s l b Hin. rewrite Forall_forall in Hpre.
      apply Hpre in Hin. done.
  - rewrite (opened_functional _ _ _ Hopen' Hopen) in Ew'.
    rewrite Ew in Ew'. injection Ew' as <- <-.
    rewrite Forall_forall in Hw. split.
    + intros c b Hin. by apply (Hw _ Hin).
    + intros i m d s l b Hin. by eapply (Hw _ Hin).
Qed.

End MergeProperties.

(** *** Runs of [merge] with collaborators that always succeed *)

Definition demo_years (p : Path) : Z * Z :=
  match p with
  | ["a"] => (2000, 2020)
  | ["b"] => (1995, 2015)
  | _ => (2005, 2030)
  end.

Definition demo_open (p : Path) : result PreparedProject :=
  Ok {| path := p; start_year := (demo_years p).1; end_year := (demo_years p).2 |}.

Definition demo_configuration : Configuration :=
  {| gcbm_template_path := ["templates"]; gcbm_disturbance_order := [] |}.

Definition demo_merge (args : Args) : M Path unit unit :=
  merge (Ok ["tmp"]) demo_open (fun proj _ _ => Ok (path proj)) (8 * 1024 ^ 3)
    (fun _ _ _ _ _ => Ok tt) (fun _ _ _ _ => Ok tt) (fun _ _ => Ok tt)
    (fun _ _ => Ok demo_configuration) (fun _ => Ok tt) args.

Definition demo_args (paths : list Path) : Args :=
  {| config_path := ["walltowall.json"]; project_paths := paths;
     output_path := ["out"]; include_index_layer := false |}.

(** With a single project path and willing collaborators [merge] runs all
    four stages and returns. *)
Example merge_single_project_completes :
  (demo_merge (demo_args [["a"]]) []).1 = Ok tt /\
  stage_log (demo_merge (demo_args [["a"]]) []).2 =
    [(SMerge, true); (STile, true); (SPatch, true); (SConfigure, true)].
Proof. split; reflexivity. Qed.

Lemma merge_reconciles_years_witness :
  exists start stop,
    reconciled_window [{| path := ["a"]; start_year := 2000; end_year := 2020 |};
                       {| path := ["b"]; start_year := 1995; end_year := 2015 |};
                       {| path := ["c"]; start_year := 2005; end_year := 2030 |}]
      = Ok (start, stop) /\ start = 1995 /\ stop = 2030.
Proof.
  destruct (merge_reconciles_years (Inventory := Path) (MergedData := unit)
              (Ok ["tmp"]) demo_open (fun proj _ _ => Ok (path proj)) (8 * 1024 ^ 3)
              (fun _ _ _ _ _ => Ok tt) (fun _ _ _ _ => Ok tt) (fun _ _ => Ok tt)
              (fun _ _ => Ok demo_configuration) (fun _ => Ok tt)
              (demo_args [["a"]; ["b"]; ["c"]])
              [{| path := ["a"]; start_year := 2000; end_year := 2020 |};
               {| path := ["b"]; start_year := 1995; end_year := 2015 |};
               {| path := ["c"]; start_year := 2005; end_year := 2030 |}])
    as (start & stop & Ew & _).
  - discriminate.
  - repeat constructor.
  - exists start, stop. split; [exact Ew|].
    vm_compute in Ew. injection Ew as <- <-. split; reflexivity.
Defined.

(** *** The calls of [merge], one after the other *)

Section MergeCalls.
Context {Inventory MergedData : Type}.
Variable mkdtemp : result Path.
Variable new_PreparedProject : Path -> result PreparedProject.
Variable prepare_merge : PreparedProject -> Path -> nat -> result Inventory.
Variable available_memory : Z.
Variable gcbm_merge : list Inventory -> Path -> Path -> Z -> Z -> result MergedData.
Variable gcbm_merge_tile : Path -> MergedData -> list Inventory -> bool -> result unit.
Variable replace_direct_attached_transition_rules : Path -> Path -> result unit.
Variable Configuration_load : Path -> Path -> result Configuration.
Variable configure : GCBMConfigurer -> result unit.

#[local] Abbreviation ev := (call Inventory MergedData * bool)%type.
#[local] Abbreviation merge_here :=
  (merge mkdtemp new_PreparedProject prepare_merge available_memory gcbm_merge
     gcbm_merge_tile replace_direct_attached_transition_rules Configuration_load
     configure).
#[local] Abbreviation pipeline_here :=
  (pipeline available_memory gcbm_merge gcbm_merge_tile
     replace_direct_attached_transition_rules Configuration_load configure).

(** The place of a call in the text of [merge]. *)
Definition phase (c : call Inventory MergedData) : nat :=
  match c with
  | CTemporaryDirectory | COpenLog _ => 0
  | CPreparedProject _ => 1
  | CPrepareMerge _ _ _ => 2
  | CMerge _ _ _ _ _ => 3
  | CTile _ _ _ _ => 4
  | CReplaceTransitionRules _ _ => 5
  | CConfigurationLoad _ _ => 6
  | CConfigure _ => 7
  | CCleanup _ => 8
  end.

(** One event comes before another: its call is earlier in the text, or
    both are calls of the same comprehension. *)
Definition before (e1 e2 : ev) : Prop :=
  (phase e1.1 < phase e2.1)%nat \/
  (phase e1.1 = phase e2.1 /\ (phase e1.1 = 1 \/ phase e1.1 = 2)%nat).

(** The paths and settings a call is given, in terms of the command
    line. *)
Definition laid_out (args : Args) (c : call Inventory MergedData) : Prop :=
  match c with
  | CMerge _ merged_output_path db_output_path _ memory_limit =>
      merged_output_path = output_path args ++ ["layers"; "merged"] /\
      db_output_path = output_path args ++ ["input_database"] /\
      memory_limit = memory_limit_MB available_memory
  | CTile tiled_output_path _ _ index_layer =>
      tiled_output_path = output_path args ++ ["layers"; "tiled"] /\
      index_layer = include_index_layer args
  | CReplaceTransitionRules db csv =>
      db = output_path args ++ ["input_database"; "gcbm_input.db"] /\
      csv = output_path args ++ ["layers"; "tiled"; "transition_rules.csv"]
  | CConfigurationLoad config output =>
      config = config_path args /\ output = output_path args
  | CConfigure configurer =>
      layer_paths configurer = [output_path args ++ ["layers"; "tiled"]] /\
      input_db_path configurer = output_path args ++ ["input_database"; "gcbm_input.db"] /\
      configurer_output_path configurer = output_path args ++ ["gcbm_project"]
  | _ => True
  end.

(** All events but the last returned, and all of them when the result is
    a value. *)
Definition fail_stop {A} (r : result A) (evs : list ev) : Prop :=
  Forall (fun e : ev => e.2 = true) (removelast evs) /\
  (is_ok r = true -> Forall (fun e : ev => e.2 = true) evs).

Definition tidy {A} (m : M Inventory MergedData A) : Prop :=
  forall tr, exists evs, (m tr).2 = tr ++ evs /\ fail_stop (m tr).1 evs.

Lemma Forall_removelast {A} (P : A -> Prop) (l : list A) :
  Forall P l -> Forall P (removelast l).
Proof.
  induction 1 as [|x l Hx Hl IH]; [constructor|]. simpl.
  destruct l; [constructor|]. by constructor.
Qed.

Lemma tidy_ret {A} (a : A) : tidy (ret a).
Proof. intros tr. exists []. rewrite app_nil_r. by repeat split. Qed.

Lemma tidy_lift {A} (r : result A) : tidy (lift r).
Proof. intros tr. exists []. rewrite app_nil_r. by repeat split. Qed.

Lemma tidy_perform {A} c (r : result A) : tidy (perform c r).
Proof.
  intros tr. exists [(c, is_ok r)]. split; [done|]. split; [constructor|].
  simpl. intros ->. by repeat constructor.
Qed.

Lemma tidy_mbind {A B} (m : M Inventory MergedData A) (k : A -> M Inventory MergedData B) :
  tidy m -> (forall a, tidy (k a)) -> tidy (mbind m k).
Proof.
  intros Hm Hk tr. unfold mbind. destruct (Hm tr) as (evs1 & E1 & Hlast1 & Hok1).
  destruct (m tr) as [[a|e] tr1]; simpl in E1, Hlast1, Hok1; subst tr1.
  2:{ exists evs1. split; [done|]. by split. }
  destruct (Hk a (tr ++ evs1)) as (evs2 & E2 & Hlast2 & Hok2).
  exists (evs1 ++ evs2). split; [by rewrite E2, app_assoc|].
  specialize (Hok1 eq_refl). split.
  - destruct evs2 as [|e2 evs2].
    + rewrite app_nil_r. by apply Forall_removelast.
    + rewrite removelast_app by done. by apply Forall_app.
  - intros Hok. apply Forall_app. split; [done|by apply Hok2].
Qed.

Lemma tidy_comprehension {A B} (f : nat -> A -> M Inventory MergedData B) l i :
  (forall i a, tidy (f i a)) -> tidy (comprehension f i l).
Proof.
  intros Hf. revert i. induction l as [|a l IH]; intros i; simpl.
  - apply tidy_ret.
  - apply tidy_mbind; [apply Hf|]. intros b.
    apply tidy_mbind; [apply IH|]. intros bs. apply tidy_ret.
Qed.

Lemma tidy_pipeline args inventories start stop :
  tidy (pipeline_here args inventories start stop).
Proof.
  unfold pipeline.
  repeat (apply tidy_mbind; [apply tidy_perform|intros ?]). apply tidy_perform.
Qed.

(** The body of the [with] statement. *)
Definition merge_body (args : Args) (tmp : Path) : M Inventory MergedData unit :=
  mbind (comprehension
      (fun _ p => perform (CPreparedProject p) (new_PreparedProject p))
      0%nat (project_paths args)) (fun projects =>
  mbind (comprehension
      (fun i project => perform (CPrepareMerge project tmp i) (prepare_merge project tmp i))
      0%nat projects) (fun inventories =>
  mbind (lift (reconciled_window projects)) (fun window =>
  pipeline_here args inventories window.1 window.2))).

Lemma merge_with (args : Args) (tr : list ev) :
  merge_here args tr = with_TemporaryDirectory mkdtemp (merge_body args) tr.
Proof. apply merge_unfold. Qed.

Lemma tidy_merge_body args tmp : tidy (merge_body args tmp).
Proof.
  unfold merge_body.
  apply tidy_mbind; [apply tidy_comprehension; intros; apply tidy_perform|]. intros projects.
  apply tidy_mbind; [apply tidy_comprehension; intros; apply tidy_perform|]. intros invs.
  apply tidy_mbind; [apply tidy_lift|]. intros window. apply tidy_pipeline.
Qed.

Ltac block_entries :=
  repeat first
    [ apply SSorted_nil | apply SSorted_cons | apply Forall_nil_2
    | apply Forall_cons_2;
        [first [left; simpl; lia
               | split; [simpl; lia|simpl; unfold joinpath; rewrite <- ?app_assoc; done]]|] ].

(** The calls of the four stages and of the loading of the configuration:
    each at most once, in the order of the text, with the paths of the
    output layout. *)
Lemma pipeline_block args inventories start stop (tr : list ev) :
  exists post,
    (pipeline_here args inventories start stop tr).2 = tr ++ post /\
    StronglySorted before post /\
    Forall (fun e : ev => (3 <= phase e.1 <= 7)%nat /\ laid_out args e.1) post.
Proof.
  unfold pipeline, mbind, perform.
  destruct (gcbm_merge _ _ _ _ _) as [merged|e]; simpl.
  2:{ eexists [_]. split; [done|]. split; block_entries. }
  destruct (gcbm_merge_tile _ _ _ _) as [[]|e]; simpl.
  2:{ eexists [_; _]. rewrite <- !app_assoc. split; [done|]. split; block_entries. }
  destruct (replace_direct_attached_transition_rules _ _) as [[]|e]; simpl.
  2:{ eexists [_; _; _]. rewrite <- !app_assoc. split; [done|]. split; block_entries. }
  destruct (Configuration_load _ _) as [config|e]; simpl.
  2:{ eexists [_; _; _; _]. rewrite <- !app_assoc. split; [done|]. split; block_entries. }
  destruct (configure _) as [[]|e]; simpl.
  all: eexists [_; _; _; _; _]; rewrite <- !app_assoc; (split; [done|]); split;
    block_entries.
Qed.

(** The events of the body: the projects opened, the inventories
    prepared, the stages. *)
Definition blocks (args : Args) (tmp : Path) (evs : list ev) : Prop :=
  exists opens prepares stages,
    evs = opens ++ prepares ++ stages /\
    Forall (fun e : ev => exists p, e.1 = CPreparedProject p) opens /\
    Forall (fun e : ev => exists project i, e.1 = CPrepareMerge project tmp i) prepares /\
    StronglySorted before stages /\
    Forall (fun e : ev => (3 <= phase e.1 <= 7)%nat /\ laid_out args e.1) stages.

Lemma merge_body_blocks args tmp (tr : list ev) :
  exists evs, (merge_body args tmp tr).2 = tr ++ evs /\ blocks args tmp evs.
Proof.
  unfold merge_body. unfold mbind at 1.
  destruct (comprehension_log (fun _ p => CPreparedProject p)
              (fun _ p => new_PreparedProject p) (project_paths args) 0%nat tr)
    as (evs1 & E1 & H1).
  assert (Forall (fun e : ev => exists p, e.1 = CPreparedProject p) evs1) as O1.
  { eapply Forall_impl; [exact H1|]. intros e (j & a & He). by exists a. }
  destruct (comprehension _ _ (project_paths args) _) as [[projects|e] tr1];
    simpl in E1; subst tr1.
  2:{ exists evs1. split; [done|]. exists evs1, [], []. rewrite !app_nil_r.
      repeat split; [done|constructor..]. }
  unfold mbind at 1.
  destruct (comprehension_log (fun i p => CPrepareMerge p tmp i)
              (fun i p => prepare_merge p tmp i) projects 0%nat (tr ++ evs1))
    as (evs2 & E2 & H2).
  assert (Forall (fun e : ev => exists project i, e.1 = CPrepareMerge project tmp i) evs2)
    as P2.
  { eapply Forall_impl; [exact H2|]. intros e (j & a & He). by exists a, j. }
  destruct (comprehension _ _ projects _) as [[inventories|e] tr2];
    simpl in E2; subst tr2.
  2:{ exists (evs1 ++ evs2). split; [by rewrite app_assoc|]. exists evs1, evs2, [].
      rewrite !app_nil_r. repeat split; [done..|constructor|constructor]. }
  unfold mbind at 1, lift.
  destruct (reconciled_window projects) as [[start stop]|e].
  2:{ exists (evs1 ++ evs2). split; [by rewrite app_assoc|]. exists evs1, evs2, [].
      rewrite !app_nil_r. repeat split; [done..|constructor|constructor]. }
  cbn [fst snd].
  destruct (pipeline_block args inventories start stop ((tr ++ evs1) ++ evs2))
    as (post & Ep & Hsorted & Hpost).
  exists (evs1 ++ evs2 ++ post). split; [by rewrite Ep, !app_assoc|].
  by exists evs1, evs2, post.
Qed.

(** A run of [merge], laid out. *)
Lemma merge_log (args : Args) :
  match mkdtemp with
  | Raise e => merge_here args [] = (Raise e, [(CTemporaryDirectory, false)])
  | Ok tmp =>
      exists evs,
        merge_here args [] =
          ((merge_body args tmp [(CTemporaryDirectory, true)]).1,
           (CTemporaryDirectory, true) :: evs ++ [(CCleanup tmp, true)]) /\
        fail_stop (merge_body args tmp [(CTemporaryDirectory, true)]).1 evs /\
        blocks args tmp evs
  end.
Proof.
  rewrite merge_with. unfold with_TemporaryDirectory, perform.
  destruct mkdtemp as [tmp|e]; [|done]. simpl.
  destruct (tidy_merge_body args tmp [(CTemporaryDirectory, true)]) as (evs & E & Hstop).
  destruct (merge_body_blocks args tmp [(CTemporaryDirectory, true)]) as (evs' & E' & Hblocks).
  rewrite E in E'. apply app_inv_head in E'. subst evs'.
  exists evs. destruct (merge_body args tmp _) as [r log]. simpl in *. subst log.
  done.
Qed.

Lemma sorted_same_phase (k : nat) (l : list ev) :
  (k = 1 \/ k = 2)%nat -> Forall (fun e : ev => phase e.1 = k) l -> StronglySorted before l.
Proof.
  intros Hk. induction 1 as [|e l He Hl IH]; constructor; [done|].
  eapply Forall_impl; [exact Hl|]. intros e' He'. right. split; [congruence|].
  rewrite He. done.
Qed.

Lemma sorted_blocks (n : nat) (l1 l2 : list ev) :
  StronglySorted before l1 -> StronglySorted before l2 ->
  Forall (fun e : ev => (phase e.1 <= n)%nat) l1 ->
  Forall (fun e : ev => (n < phase e.1)%nat) l2 ->
  StronglySorted before (l1 ++ l2).
Proof.
  intros H1 H2 Hlow Hhigh. apply StronglySorted_app_2; [|done..].
  rewrite Forall_forall in Hlow, Hhigh. intros x1 x2 Hx1 Hx2. left.
  specialize (Hlow x1 Hx1). specialize (Hhigh x2 Hx2). lia.
Qed.

Lemma blocks_phases args tmp (evs : list ev) :
  blocks args tmp evs ->
  StronglySorted before evs /\
  Forall (fun e : ev => (1 <= phase e.1 <= 7)%nat /\
                        (forall project t i, e.1 = CPrepareMerge project t i -> t = tmp) /\
                        laid_out args e.1) evs.
Proof.
  intros (opens & prepares & stages & -> & Ho & Hp & Hsorted & Hs).
  assert (Forall (fun e : ev => phase e.1 = 1%nat) opens) as Ho1.
  { eapply Forall_impl; [exact Ho|]. by intros [c b] [p ->]. }
  assert (Forall (fun e : ev => phase e.1 = 2%nat) prepares) as Hp2.
  { eapply Forall_impl; [exact Hp|]. by intros [c b] (pr & i & ->). }
  split.
  - apply (sorted_blocks 1).
    + by apply (sorted_same_phase 1); [left|].
    + apply (sorted_blocks 2); [by apply (sorted_same_phase 2); [right|]|done| |].
      * eapply Forall_impl; [exact Hp2|]. intros e He. simpl in He. lia.
      * eapply Forall_impl; [exact Hs|]. intros e [He _]. simpl in He. lia.
    + eapply Forall_impl; [exact Ho1|]. intros e He. simpl in He. lia.
    + apply Forall_app. split.
      * eapply Forall_impl; [exact Hp2|]. intros e He. simpl in He. lia.
      * eapply Forall_impl; [exact Hs|]. intros e [He _]. simpl in He. lia.
  - rewrite !Forall_app. repeat split.
    + eapply Forall_impl; [exact Ho|]. intros [c b] [p ->]. simpl.
      split; [lia|]. split; [|done]. intros ??? [=].
    + eapply Forall_impl; [exact Hp|]. intros [c b] (pr & i & ->). simpl.
      split; [lia|]. split; [|done]. by intros ??? [= _ -> _].
    + eapply Forall_impl; [exact Hs|]. intros [c b] [Hphase Hlaid]. simpl in *.
      split; [lia|]. split; [|done]. intros ??? ->. simpl in Hphase. lia.
Qed.

(** X17: the calls of [merge] are made in the order of its text: the
    temporary directory, the projects opened, the inventories prepared,
    then the merge engine, the tiling, the patch of the database, the
    loading of the configuration and the configurer, each of these five at
    most once.  Every inventory is prepared in the temporary directory of
    the run, and that directory is removed at the very end, also when the
    run fails. *)
Theorem merge_calls_in_order (args : Args) :
  let log := (merge_here args []).2 in
  StronglySorted before log /\
  match mkdtemp with
  | Raise _ => log = [(CTemporaryDirectory, false)]
  | Ok tmp =>
      exists evs,
        log = (CTemporaryDirectory, true) :: evs ++ [(CCleanup tmp, true)] /\
        Forall (fun e : ev =>
                  (1 <= phase e.1 <= 7)%nat /\
                  forall project t i, e.1 = CPrepareMerge project t i -> t = tmp) evs
  end.
Proof.
  intros log. subst log. pose proof (merge_log args) as Hlog.
  destruct mkdtemp as [tmp|e].
  - destruct Hlog as (evs & -> & _ & Hblocks).
    destruct (blocks_phases args tmp evs Hblocks) as [Hsorted Hphases]. cbn [snd]. split.
    + apply (sorted_blocks 0 [(CTemporaryDirectory, true)]).
      * repeat constructor.
      * apply (sorted_blocks 7); [done|repeat constructor| |repeat constructor].
        eapply Forall_impl; [exact Hphases|]. intros e [He _]. simpl in He. lia.
      * repeat constructor.
      * apply Forall_app. split; [|repeat constructor].
        eapply Forall_impl; [exact Hphases|]. intros e [He _]. simpl in He. lia.
    + exists evs. split; [done|].
      eapply Forall_impl; [exact Hphases|]. intros e (He & Htmp & _). by split.
  - rewrite Hlog. split; [repeat constructor|done].
Qed.

Lemma last_failure {A} (r : result A) (evs : list ev) (i : nat) c :
  fail_stop r evs -> evs !! i = Some (c, false) ->
  is_ok r = false /\ S i = length evs.
Proof.
  intros [Hlast Hok] Hi. split.
  - destruct (is_ok r); [|done]. specialize (Hok eq_refl).
    rewrite Forall_lookup in Hok. by specialize (Hok i _ Hi).
  - destruct (decide (S i = length evs)) as [|Hne]; [done|]. exfalso.
    assert (i < length evs)%nat as Hlt by by eapply lookup_lt_Some.
    destruct evs as [|e evs] using rev_ind; [done|].
    rewrite removelast_last in Hlast. rewrite length_app in Hne, Hlt. simpl in *.
    rewrite lookup_app_l in Hi by lia.
    rewrite Forall_lookup in Hlast. by specialize (Hlast i _ Hi).
Qed.

(** X18: [merge] stops at the first call that raises.  A call that raised
    is followed by nothing but the removal of the temporary directory, and
    the run as a whole fails; in a run that returns, every call
    returned. *)
Theorem merge_stops_at_first_failure (args : Args) :
  let run := merge_here args [] in
  (is_ok run.1 = true -> Forall (fun e : ev => e.2 = true) run.2) /\
  (forall i c, run.2 !! i = Some (c, false) ->
     is_ok run.1 = false /\
     drop (S i) run.2 =
       match mkdtemp with
       | Ok tmp => [(CCleanup tmp, true)]
       | Raise _ => []
       end).
Proof.
  intros run. subst run. pose proof (merge_log args) as Hlog.
  destruct mkdtemp as [tmp|e].
  - destruct Hlog as (evs & -> & Hstop & _). cbn [fst snd]. split.
    + intros Hok. constructor; [done|]. apply Forall_app. split; [|by repeat constructor].
      by apply Hstop.
    + intros [|i] c; [done|]. simpl.
      destruct (decide (i < length evs)%nat) as [Hlt|Hge].
      * rewrite lookup_app_l by done. intros Hi.
        destruct (last_failure _ evs i c Hstop Hi) as [Hfail Hlen]. split; [done|].
        rewrite drop_app_length'; [done|lia].
      * rewrite lookup_app_r by lia.
        destruct (i - length evs)%nat as [|n]; [done|]. by destruct n.
  - rewrite Hlog. cbn [fst snd]. split; [done|]. intros [|i] c; [|done].
    intros [= <-]. done.
Qed.

(** X19: the output layout.  Whatever happens, the merge engine writes to
    [layers/merged] and [input_database] under the output path and gets
    the memory limit computed from the available memory; the tiling writes
    to [layers/tiled]; the database that is patched is
    [input_database/gcbm_input.db], from [layers/tiled/transition_rules.csv];
    and the configurer is given these tiled layers and this database, and
    writes to [gcbm_project]. *)
Theorem merge_output_layout (args : Args) :
  Forall (fun e : ev => laid_out args e.1) (merge_here args []).2.
Proof.
  pose proof (merge_log args) as Hlog. destruct mkdtemp as [tmp|e].
  - destruct Hlog as (evs & -> & _ & Hblocks).
    destruct (blocks_phases args tmp evs Hblocks) as [_ Hphases]. cbn [snd].
    constructor; [done|]. apply Forall_app. split; [|by repeat constructor].
    eapply Forall_impl; [exact Hphases|]. by intros e (_ & _ & He).
  - rewrite Hlog. by repeat constructor.
Qed.

End MergeCalls.

(** *** [cli]: the log file and the command *)

(** The function a sub-command stores in [args.func]; without a
    sub-command it is the function that prints the help. *)
Inductive command := func_print_help | func_build | func_prepare | func_merge | func_run.

#[global] Instance command_eq_dec : EqDecision command.
Proof. solve_decision. Defined.

(** The value of an attribute of the namespace: None, a str (given as the
    path it names), a flag or a list of str. *)
Inductive attr :=
  | ANone
  | AStr (p : Path)
  | ABool (b : bool)
  | AList (l : list Path).

(** What [parser.parse_args()] returns. *)
Record Namespace := {
  func : command;
  attributes : dict string attr
}.

(** [getattr(args, name, default)] *)
Definition getattr (args : Namespace) (name : string) (default : attr) : attr :=
  match dict_get String.eqb name (attributes args) with
  | Some v => v
  | None => default
  end.

(** [Path(v)]: a str only. *)
Definition new_Path (v : attr) : result Path :=
  match v with
  | AStr p => Ok p
  | _ => Raise (TypeError "expected str, bytes or os.PathLike object")
  end.

(** The namespaces of the four sub-commands, as their parsers fill them:
    a positional argument with [nargs="?"] that is left out is None, and so
    is an option that is not given. *)
Definition parsed_build (config output : option Path) : Namespace :=
  {| func := func_build;
     attributes := [("config_path", from_option AStr ANone config);
                    ("output_path", from_option AStr ANone output)] |}.

Definition parsed_prepare (config output : option Path) : Namespace :=
  {| func := func_prepare;
     attributes := [("config_path", from_option AStr ANone config);
                    ("output_path", from_option AStr ANone output)] |}.

Definition parsed_merge (args : Args) : Namespace :=
  {| func := func_merge;
     attributes := [("include_index_layer", ABool (include_index_layer args));
                    ("config_path", AStr (config_path args));
                    ("project_paths", AList (project_paths args));
                    ("output_path", AStr (output_path args))] |}.

Definition parsed_run (host : string) (project : Path) (config : option Path) : Namespace :=
  {| func := func_run;
     attributes := [("host", AStr [host]);
                    ("project_path", AStr project);
                    ("config_path", from_option AStr ANone config)] |}.

Definition parsed_nothing : Namespace :=
  {| func := func_print_help; attributes := [] |}.

Section Cli.
(** What a log file holds, and the log file without a record. *)
Context {D : Type} (empty : D).
(** The functions of the sub-commands. *)
Variable call_func : command -> Namespace -> gmap Path (Fs.node D) ->
                     result unit * gmap Path (Fs.node D).

#[local] Abbreviation fs := (gmap Path (Fs.node D)).

(** [FileHandler(filename, mode)] opens the file at once: mode [a] keeps a
    file that is there, mode [w] empties it, and both make a missing
    one. *)
Definition FileHandler (filename : Path) (mode : string) (s : fs) : result fs :=
  match Fs.write_file filename empty s with
  | Raise e => Raise e
  | Ok s' => if String.eqb mode "a" && Fs.is_file s filename then Ok s else Ok s'
  end.

(** Line 169: the directory of the log. *)
Definition log_directory (args : Namespace) : result Path :=
  new_Path (getattr args "output_path" (getattr args "project_path" (AStr []))).

(** Lines 167 to 174 of [cli]: the handlers of the log are made, then the
    command runs. *)
Definition cli (args : Namespace) (s : fs) : result unit * fs :=
  match log_directory args with
  | Raise e => (Raise e, s)
  | Ok dir =>
      match FileHandler (joinpath dir ["walltowall.log"])
              (if bool_decide (func args = func_run) then "a" else "w") s with
      | Raise e => (Raise e, s)
      | Ok s' => call_func (func args) args s'
      end
  end.

(** X20: the command starts with its log file in place.  When the
    directory of the log exists, [cli] runs the command in a file system
    that differs from the one it found in [walltowall.log] of that
    directory only: the file is empty for every command but [run], and for
    [run] it holds what it held before. *)
Theorem cli_log_file (args : Namespace) (dir : Path) (s : fs) :
  log_directory args = Ok dir ->
  Fs.is_dir s dir = true ->
  Fs.is_dir s (dir ++ ["walltowall.log"]) = false ->
  exists s',
    cli args s = call_func (func args) args s' /\
    s' !! (dir ++ ["walltowall.log"]) =
      Some (Fs.File (if bool_decide (func args = func_run)
                     then match s !! (dir ++ ["walltowall.log"]) with
                          | Some (Fs.File earlier) => earlier
                          | _ => empty
                          end
                     else empty)) /\
    forall p, p <> dir ++ ["walltowall.log"] -> s' !! p = s !! p.
Proof.
  intros Hdir Hthere Hlog. unfold cli. rewrite Hdir. unfold FileHandler, joinpath.
  assert (Fs.write_file (dir ++ ["walltowall.log"]) empty s =
          Ok (<[dir ++ ["walltowall.log"] := Fs.File empty]> s)) as ->.
  { unfold Fs.write_file. by rewrite Fs.parent_snoc, Hthere, Hlog. }
  case_bool_decide as Hrun; simpl.
  - unfold Fs.is_file.
    destruct (s !! (dir ++ ["walltowall.log"])) as [[|earlier]|] eqn:E.
    + eexists. split; [done|].
      split; [by rewrite lookup_insert_eq|]. intros p Hp. by rewrite lookup_insert_ne.
    + exists s. by repeat split.
    + eexists. split; [done|].
      split; [by rewrite lookup_insert_eq|]. intros p Hp. by rewrite lookup_insert_ne.
  - eexists. split; [done|].
    split; [by rewrite lookup_insert_eq|]. intros p Hp. by rewrite lookup_insert_ne.
Qed.

(** X21: a namespace whose [output_path] is None, as [build] and
    [prepare] have it when the optional output path is left out, stops
    [cli] with a TypeError before the log is opened: the file system is as
    it was and the command is not run. *)
Theorem cli_output_path_left_out (args : Namespace) (s : fs) :
  dict_get String.eqb "output_path" (attributes args) = Some ANone ->
  cli args s = (Raise (TypeError "expected str, bytes or os.PathLike object"), s).
Proof. intros Hnone. unfold cli, log_directory, getattr. by rewrite Hnone. Qed.

(** X22: [cli] makes no directory for the log.  When the directory of the
    log does not exist the log cannot be opened, and [cli] raises without
    running the command and without a change to the file system. *)
Theorem cli_log_directory_missing (args : Namespace) (dir : Path) (s : fs) :
  log_directory args = Ok dir ->
  Fs.is_dir s dir = false ->
  cli args s = (Raise (OSError "no such directory"), s).
Proof.
  intros Hdir Hmissing. unfold cli. rewrite Hdir. unfold FileHandler, joinpath.
  unfold Fs.write_file. by rewrite Fs.parent_snoc, Hmissing.
Qed.

End Cli.

(** A project directory with the log of an earlier run. *)
Definition logged_project : gmap Path (Fs.node (list string)) :=
  <[["project"; "walltowall.log"] := Fs.File ["earlier run"]]> {[ ["project"] := Fs.Dir ]}.

Lemma cli_log_file_witness :
  exists s',
    cli [] (fun _ _ s => (Ok tt, s)) (parsed_run "local" ["project"] None) logged_project
      = (Ok tt, s') /\
    s' !! ["project"; "walltowall.log"] = Some (Fs.File ["earlier run"]).
Proof.
  destruct (cli_log_file [] (fun _ _ s => (Ok tt, s)) (parsed_run "local" ["project"] None)
              ["project"] logged_project) as (s' & E & Hlog & _).
  - reflexivity.
  - unfold Fs.is_dir, logged_project.
    by rewrite lookup_insert_ne, lookup_singleton_eq.
  - unfold Fs.is_dir, logged_project. simpl. by rewrite lookup_insert_eq.
  - exists s'. split; [exact E|]. cbn [app] in Hlog. rewrite Hlog.
    rewrite bool_decide_eq_true_2 by done.
    unfold logged_project. by rewrite lookup_insert_eq.
Defined.

Lemma cli_output_path_left_out_witness :
  cli [] (fun _ _ s => (Ok tt, s)) (parsed_build (Some ["config.json"]) None) logged_project
  = (Raise (TypeError "expected str, bytes or os.PathLike object"), logged_project).
Proof. apply (cli_output_path_left_out [] _ (parsed_build (Some ["config.json"]) None)). reflexivity. Defined.

Lemma cli_log_directory_missing_witness :
  cli [] (fun _ _ s => (Ok tt, s))
    (parsed_merge {| config_path := ["config.json"]; project_paths := [["project"]];
                     output_path := ["merged"]; include_index_layer := false |})
    logged_project
  = (Raise (OSError "no such directory"), logged_project).
Proof.
  apply (cli_log_directory_missing [] _ _ ["merged"]); [reflexivity|].
  unfold Fs.is_dir, logged_project.
  by rewrite lookup_insert_ne, lookup_singleton_ne.
Defined.

End WallToWall.

